(** * ezcellular: attribute bags, telemetry decoding, modem guards, registry

    A shallow embedding of the ezcellular client library (C++17, on
    top of sdbus-c++ and ModemManager):

    - [any_map.h]:  the [AnyMap] attribute bag,
    - [structs.h]:  the Signal / Location / CellInfo records,
    - [modem.cpp]:  state guards, power operations, technology, signal,
      cell list and location decoding,
    - [modem_manager.cpp]: the ObjectManager proxy that keeps the modem
      list and the single pending await,
    - [connection.cpp]: the IP configuration of a bearer,
    - [helpers.cpp]: [join_string].

    C++ exceptions are values of [exception]; a function that may throw
    returns [Result A].  Code that talks to the D-Bus proxy is written in
    a small state-and-exception monad over the bus ([Bus]), whose log of
    sent method calls survives a throw, as side effects do in C++. *)

From Stdlib Require Import ZArith String Ascii List Floats Lia OrderedTypeEx Sorted.
From stdpp Require Import base option list gmap strings.

Local Open Scope Z_scope.

(** ** Exceptions *)

(** The exception classes this code throws or lets through.
    [ModemException] and [ModemManagerException] are [exception.h]'s
    [std::runtime_error] subclasses and carry their [what()] string. *)
Inductive exception : Type :=
  | ModemException (what : string)
  | ModemManagerException (what : string)
  | std_out_of_range
  | std_invalid_argument
  | std_bad_any_cast
  | std_future_error
  | sdbus_Error.

Definition Result (A : Type) : Type := exception + A.

(** [Ok a] is a normal return, [throw e] a thrown exception. *)
Abbreviation Ok := (@inr exception _).
Abbreviation throw := (@inl exception _).

Definition rbind {A B : Type} (r : Result A) (k : A -> Result B) : Result B :=
  match r with
  | inl e => inl e
  | inr a => k a
  end.

(** [try { body } catch (...) { handler }] *)
Definition try_catch_all {A : Type} (body : Result A) (handler : Result A) : Result A :=
  match body with
  | inl _ => handler
  | inr a => inr a
  end.

Definition is_throw {A : Type} (r : Result A) : Prop := exists e, r = inl e.

Global Instance Result_bind : MBind Result := fun A B k r => rbind r k.
Global Instance Result_ret : MRet Result := fun A a => inr a.
Global Instance Result_fmap : FMap Result := fun A B f r =>
  match r with
  | inl e => inl e
  | inr a => inr (f a)
  end.

(** The C and C++ standard library functions the decoders call on
    strings: [std::stoul] (through [strtoul]) and [std::sscanf]. *)
Module Cstd.

Definition code (c : ascii) : Z := Z.of_nat (nat_of_ascii c).

(** [isspace] in the "C" locale. *)
Definition isspace (c : ascii) : bool :=
  (code c =? 32) || ((9 <=? code c) && (code c <=? 13)).

Definition isdigit (c : ascii) : bool :=
  (48 <=? code c) && (code c <=? 57).

Definition hex_digit_value (c : ascii) : option Z :=
  if (48 <=? code c) && (code c <=? 57) then Some (code c - 48)
  else if (65 <=? code c) && (code c <=? 70) then Some (code c - 55)
  else if (97 <=? code c) && (code c <=? 102) then Some (code c - 87)
  else None.

Fixpoint skip_space (s : string) : string :=
  match s with
  | String c s' => if isspace c then skip_space s' else s
  | EmptyString => s
  end.

(** The longest run of hexadecimal digits at the head of [s]: its
    value on top of [acc], the number of digits, and what follows. *)
Fixpoint hex_digits (s : string) (acc : Z) (n : nat) : Z * nat * string :=
  match s with
  | String c s' =>
      match hex_digit_value c with
      | Some d => hex_digits s' (16 * acc + d) (S n)
      | None => (acc, n, s)
      end
  | EmptyString => (acc, n, s)
  end.

Definition take_sign (s : string) : bool * string :=
  match s with
  | String c s' =>
      if Ascii.eqb c "-" then (true, s')
      else if Ascii.eqb c "+" then (false, s')
      else (false, s)
  | EmptyString => (false, s)
  end.

Definition is_x (c : ascii) : bool := Ascii.eqb c "x" || Ascii.eqb c "X".

(** [unsigned long] has 64 bits (LP64; ModemManager is a Linux
    service). *)
Definition ULONG_MAX : Z := 2 ^ 64 - 1.
Definition UINT_MAX : Z := 2 ^ 32 - 1.

(** The subject sequence of [strtoul(s, &end, 16)]: white space, an
    optional sign, an optional [0x]/[0X], hexadecimal digits. *)
Inductive subject : Type :=
  | no_conversion
  | number (negative : bool) (magnitude : Z) (rest : string).

Definition hex_subject (s : string) : subject :=
  let '(neg, s1) := take_sign (skip_space s) in
  let plain :=
    match hex_digits s1 0 0 with
    | (v, S _, rest) => number neg v rest
    | (_, O, _) => no_conversion
    end in
  match s1 with
  | String c0 (String c1 s2) =>
      if Ascii.eqb c0 "0" && is_x c1 then
        match hex_digits s2 0 0 with
        | (v, S _, rest) => number neg v rest
        | (_, O, _) => number neg 0 (String c1 s2)   (* only the "0" converts *)
        end
      else plain
  | _ => plain
  end.

(** The value [strtoul] returns for a subject: [ULONG_MAX] with
    [ERANGE] when the magnitude does not fit, the negation in
    [unsigned long] after a minus sign. *)
Definition strtoul_value (neg : bool) (mag : Z) : Z * bool :=
  if ULONG_MAX <? mag then (ULONG_MAX, true)
  else if neg then ((2 ^ 64 - mag) mod 2 ^ 64, false)
  else (mag, false).

(** [std::stoul(str, nullptr, 16)] *)
Definition stoul16 (str : string) : Result Z :=
  match hex_subject str with
  | no_conversion => throw std_invalid_argument
  | number neg mag _ =>
      let '(v, erange) := strtoul_value neg mag in
      if erange then throw std_out_of_range else Ok v
  end.

(** [std::string::c_str()] as a C string: what precedes the first
    NUL character. *)
Fixpoint c_str (s : string) : string :=
  match s with
  | String c s' => if Ascii.eqb c Ascii.zero then EmptyString else String c (c_str s')
  | EmptyString => EmptyString
  end.

(** *** sscanf *)

Inductive directive : Type :=
  | conv_digits (width : nat)      (* %<width>[0-9] *)
  | conv_hex (suppress : bool)     (* %X and %*X *)
  | literal (c : ascii).

Inductive argument : Type :=
  | arg_chars (s : string)
  | arg_unsigned (n : Z).

Inductive step_result : Type :=
  | input_failure
  | matching_failure
  | matched (rest : string) (converted : bool) (stored : list argument).

(** At most [width] characters of the scanset [0-9]. *)
Fixpoint scan_digits (width : nat) (s : string) : string * string :=
  match width, s with
  | S w, String c s' =>
      if isdigit c then
        let '(m, r) := scan_digits w s' in (String c m, r)
      else (EmptyString, s)
  | _, _ => (EmptyString, s)
  end.

(** [%X], as glibc's [vfscanf] reads it (the C library of the Linux
    systems ModemManager runs on): white space is skipped, then an
    optional sign is read, then a [0] followed by [x] or [X] is taken
    as the prefix, then the hexadecimal digits that follow.  The [0]
    of the prefix counts as a digit read and the [x] is consumed, so a
    prefix with no digit behind it converts to 0 and scanning goes on
    behind the [x] (ISO C 7.21.6.2 makes that a matching failure;
    glibc does not).  A sign with nothing to convert behind it, or no
    digit at all, is a matching failure.  The characters read are
    converted by [strtoul] and the value is stored in an
    [unsigned int]. *)
Definition scan_hex (s : string) : step_result :=
  let s0 := skip_space s in
  match s0 with
  | EmptyString => input_failure
  | _ =>
      let '(neg, s1) := take_sign s0 in
      let after_prefix :=
        match s1 with
        | String c0 (String c1 s2) =>
            if Ascii.eqb c0 "0" && is_x c1 then Some s2 else None
        | _ => None
        end in
      match after_prefix with
      | Some s2 =>
          let '(v, _, rest) := hex_digits s2 0 0 in
          matched rest true [arg_unsigned (fst (strtoul_value neg v) mod 2 ^ 32)]
      | None =>
          match hex_digits s1 0 0 with
          | (v, S _, rest) =>
              matched rest true [arg_unsigned (fst (strtoul_value neg v) mod 2 ^ 32)]
          | (_, O, _) => matching_failure
          end
      end
  end.

Definition step (d : directive) (s : string) : step_result :=
  match d with
  | conv_digits width =>
      match s with
      | EmptyString => input_failure
      | _ =>
          match scan_digits width s with
          | (EmptyString, _) => matching_failure
          | (m, rest) => matched rest true [arg_chars m]
          end
      end
  | conv_hex suppress =>
      match scan_hex s with
      | matched rest c stored => matched rest c (if suppress then [] else stored)
      | r => r
      end
  | literal c =>
      match s with
      | EmptyString => input_failure
      | String c' s' => if Ascii.eqb c c' then matched s' false [] else matching_failure
      end
  end.

Definition EOF : Z := -1.

(** The directives are executed in turn; the result is the number of
    assigned items, or [EOF] for an input failure before the first
    conversion. *)
Fixpoint run (ds : list directive) (s : string) (converted : bool)
    (stored : list argument) : Z * list argument :=
  match ds with
  | [] => (Z.of_nat (length stored), stored)
  | d :: ds' =>
      match step d s with
      | matched rest c out => run ds' rest (converted || c) (stored ++ out)
      | matching_failure => (Z.of_nat (length stored), stored)
      | input_failure =>
          if converted then (Z.of_nat (length stored), stored) else (EOF, stored)
      end
  end.

(** Reading a format string of the shapes used here: [%3[0-9]],
    [%X], [%*X] and ordinary characters. *)
Fixpoint read_width (s : string) (acc : option nat) : option nat * string :=
  match s with
  | String c s' =>
      if isdigit c then
        read_width s' (Some (10 * default 0%nat acc + Z.to_nat (code c - 48))%nat)
      else (acc, s)
  | EmptyString => (acc, s)
  end.

Fixpoint parse_format (fuel : nat) (fmt : string) : list directive :=
  match fuel with
  | O => []
  | S fuel' =>
      match fmt with
      | EmptyString => []
      | String c fmt' =>
          if Ascii.eqb c "%" then
            let '(suppress, f1) :=
              match fmt' with
              | String c1 f1 => if Ascii.eqb c1 "*" then (true, f1) else (false, fmt')
              | EmptyString => (false, fmt')
              end in
            let '(width, f2) := read_width f1 None in
            match f2 with
            | String c2 f3 =>
                if Ascii.eqb c2 "X" then conv_hex suppress :: parse_format fuel' f3
                else if String.prefix "[0-9]" f2 then
                  conv_digits (default 0%nat width)
                    :: parse_format fuel' (String.substring 5 (String.length f2 - 5) f2)
                else []
            | EmptyString => []
            end
          else literal c :: parse_format fuel' fmt'
      end
  end.

Definition sscanf (input fmt : string) : Z * list argument :=
  run (parse_format (String.length fmt) fmt) input false [].

End Cstd.

(** ** enums.h *)

Inductive Technology : Type := UNKNOWN | GSM | UMTS | LTE | NR5G.

Global Instance Technology_eq_dec : EqDecision Technology.
Proof. solve_decision. Defined.

(** ** sdbus::Variant and the raw maps of the service *)

(** The D-Bus value kinds that occur in the raw telemetry maps.  A
    [double] is an IEEE binary64 value; the decoders only copy it. *)
Inductive Variant : Type :=
  | V_string (s : string)
  | V_double (d : float)
  | V_bool (b : bool)
  | V_uint32 (n : Z)
  | V_int32 (n : Z).

Abbreviation sdbus_variant_map := (gmap string Variant).

(** [Variant::get<T>()] throws [sdbus::Error] when the contained type is
    not [T]. *)
Definition Variant_get_string (v : Variant) : Result string :=
  match v with V_string s => Ok s | _ => throw sdbus_Error end.
Definition Variant_get_double (v : Variant) : Result float :=
  match v with V_double d => Ok d | _ => throw sdbus_Error end.
Definition Variant_get_bool (v : Variant) : Result bool :=
  match v with V_bool b => Ok b | _ => throw sdbus_Error end.
Definition Variant_get_uint32 (v : Variant) : Result Z :=
  match v with V_uint32 n => Ok n | _ => throw sdbus_Error end.

(** ** any_map.h *)

Set Warnings "-register-all".

(** [std::any] as it is used in this library: the value together with
    its static type.  The [shared_ptr] alternatives carry the pointee
    ([None] is [nullptr]); records are never mutated once shared. *)
Inductive any : Type :=
  | any_Technology (t : Technology)
  | any_double (d : float)
  | any_uint32 (n : Z)
  | any_uint16 (n : Z)
  | any_string (s : string)
  | any_bool (b : bool)
  | any_SignalLTE_ptr (p : option (list (string * any)))
  | any_SignalNR5G_ptr (p : option (list (string * any)))
  | any_LocationLTE_ptr (p : option (list (string * any)))
  | any_LocationNR5G_ptr (p : option (list (string * any))).

(** The template argument [T] of [get<T>] and [std::any_cast<T>]. *)
Inductive cpp_type : Type :=
  | T_Technology | T_double | T_uint32 | T_uint16 | T_string | T_bool
  | T_SignalLTE_ptr | T_SignalNR5G_ptr | T_LocationLTE_ptr | T_LocationNR5G_ptr.

Global Instance cpp_type_eq_dec : EqDecision cpp_type.
Proof. solve_decision. Defined.

Module AnyMap.

(** [class AnyMap : public std::map<std::string, std::any>]: the
    entries in iteration order, i.e. ascending by key. *)
Definition t : Type := list (string * any).

Definition value (T : cpp_type) : Type :=
  match T with
  | T_Technology => Technology
  | T_double => float
  | T_uint32 | T_uint16 => Z
  | T_string => string
  | T_bool => bool
  | T_SignalLTE_ptr | T_SignalNR5G_ptr
  | T_LocationLTE_ptr | T_LocationNR5G_ptr => option t
  end.

(** [typeid] of the contained value. *)
Definition type_of (a : any) : cpp_type :=
  match a with
  | any_Technology _ => T_Technology
  | any_double _ => T_double
  | any_uint32 _ => T_uint32
  | any_uint16 _ => T_uint16
  | any_string _ => T_string
  | any_bool _ => T_bool
  | any_SignalLTE_ptr _ => T_SignalLTE_ptr
  | any_SignalNR5G_ptr _ => T_SignalNR5G_ptr
  | any_LocationLTE_ptr _ => T_LocationLTE_ptr
  | any_LocationNR5G_ptr _ => T_LocationNR5G_ptr
  end.

(** Construction of a [std::any] from a [T]. *)
Definition make_any (T : cpp_type) : value T -> any :=
  match T with
  | T_Technology => any_Technology
  | T_double => any_double
  | T_uint32 => any_uint32
  | T_uint16 => any_uint16
  | T_string => any_string
  | T_bool => any_bool
  | T_SignalLTE_ptr => any_SignalLTE_ptr
  | T_SignalNR5G_ptr => any_SignalNR5G_ptr
  | T_LocationLTE_ptr => any_LocationLTE_ptr
  | T_LocationNR5G_ptr => any_LocationNR5G_ptr
  end.

(** [std::any_cast<T>(val)]: throws [std::bad_any_cast] unless the
    contained type is exactly [T]. *)
Definition any_cast (T : cpp_type) (a : any) : Result (value T) :=
  match T as T' return Result (value T') with
  | T_Technology => match a with any_Technology x => Ok x | _ => throw std_bad_any_cast end
  | T_double => match a with any_double x => Ok x | _ => throw std_bad_any_cast end
  | T_uint32 => match a with any_uint32 x => Ok x | _ => throw std_bad_any_cast end
  | T_uint16 => match a with any_uint16 x => Ok x | _ => throw std_bad_any_cast end
  | T_string => match a with any_string x => Ok x | _ => throw std_bad_any_cast end
  | T_bool => match a with any_bool x => Ok x | _ => throw std_bad_any_cast end
  | T_SignalLTE_ptr => match a with any_SignalLTE_ptr x => Ok x | _ => throw std_bad_any_cast end
  | T_SignalNR5G_ptr => match a with any_SignalNR5G_ptr x => Ok x | _ => throw std_bad_any_cast end
  | T_LocationLTE_ptr => match a with any_LocationLTE_ptr x => Ok x | _ => throw std_bad_any_cast end
  | T_LocationNR5G_ptr => match a with any_LocationNR5G_ptr x => Ok x | _ => throw std_bad_any_cast end
  end.

Definition empty : t := [].

(** [std::map::find]; [None] is [end()]. *)
Fixpoint find (key : string) (m : t) : option any :=
  match m with
  | [] => None
  | (k, v) :: m' => if String.eqb key k then Some v else find key m'
  end.

(** [std::map::at]: throws [std::out_of_range] for a missing key. *)
Definition at_ (key : string) (m : t) : Result any :=
  match find key m with
  | Some v => Ok v
  | None => throw std_out_of_range
  end.

(** [std::map::insert]: keeps the stored value when the key is already
    present, and keeps the entries ordered by key. *)
Fixpoint insert (key : string) (v : any) (m : t) : t :=
  match m with
  | [] => [(key, v)]
  | (k, w) :: m' =>
      match String.compare key k with
      | Lt => (key, v) :: (k, w) :: m'
      | Eq => (k, w) :: m'
      | Gt => (k, w) :: insert key v m'
      end
  end.

(** [at(key) = v]: assignment through the reference [at] returns. *)
Fixpoint assign_at (key : string) (v : any) (m : t) : Result t :=
  match m with
  | [] => throw std_out_of_range
  | (k, w) :: m' =>
      if String.eqb key k then Ok ((k, v) :: m')
      else rbind (assign_at key v m') (fun m'' => Ok ((k, w) :: m''))
  end.

Definition size (m : t) : nat := length m.

(** [keys()]: the vector is constructed with [size()] elements, then
    every key is appended with [push_back]. *)
Definition keys (m : t) : list string :=
  let keys0 := replicate (size m) EmptyString in
  fold_left (fun ks kv => ks ++ [fst kv]) m keys0.

Definition has_key (key : string) (m : t) : bool :=
  match find key m with Some _ => true | None => false end.

(** [template<typename T> auto get(const std::string& key) const -> T] *)
Definition get (T : cpp_type) (key : string) (m : t) : Result (value T) :=
  rbind (at_ key m) (fun val => any_cast T val).

(** [get_or_default]: the same body inside [try], with a catch-all
    handler that returns the fallback. *)
Definition get_or_default (T : cpp_type) (key : string) (default_ : value T) (m : t)
  : Result (value T) :=
  try_catch_all (rbind (at_ key m) (fun val => any_cast T val)) (Ok default_).

(** [maybe_insert_from_variant_map<double>] *)
Definition maybe_insert_from_variant_map_double
    (dbus_map : sdbus_variant_map) (key : string) (m : t) : Result t :=
  match dbus_map !! key with
  | Some it => rbind (Variant_get_double it) (fun val => Ok (insert key (any_double val) m))
  | None => Ok m
  end.

(** [maybe_insert_from_variant_map<bool>] *)
Definition maybe_insert_from_variant_map_bool
    (dbus_map : sdbus_variant_map) (key : string) (m : t) : Result t :=
  match dbus_map !! key with
  | Some it => rbind (Variant_get_bool it) (fun val => Ok (insert key (any_bool val) m))
  | None => Ok m
  end.

(** [maybe_insert_from_variant_map<uint32_t>] *)
Definition maybe_insert_from_variant_map_uint32
    (dbus_map : sdbus_variant_map) (key : string) (m : t) : Result t :=
  match dbus_map !! key with
  | Some it => rbind (Variant_get_uint32 it) (fun val => Ok (insert key (any_uint32 val) m))
  | None => Ok m
  end.

(** [maybe_insert_from_variant_map_as<double>] *)
Definition maybe_insert_from_variant_map_as_double
    (dbus_map : sdbus_variant_map) (from_key as_key : string) (m : t) : Result t :=
  match dbus_map !! from_key with
  | Some it => rbind (Variant_get_double it) (fun val => Ok (insert as_key (any_double val) m))
  | None => Ok m
  end.

End AnyMap.

(** ** structs.h: signal records *)

Module SignalBase.
(** [explicit SignalBase(Technology tech)] *)
Definition ctor (tech : Technology) : AnyMap.t :=
  AnyMap.insert "tech" (any_Technology tech) AnyMap.empty.

Definition tech (m : AnyMap.t) : Result Technology :=
  AnyMap.get T_Technology "tech" m.
End SignalBase.

Module SignalLTE.
Definition ctor : AnyMap.t := SignalBase.ctor LTE.

Definition from_variant_map (dbus_map : sdbus_variant_map) : Result AnyMap.t :=
  lte ← Ok ctor;
  lte ← AnyMap.maybe_insert_from_variant_map_double dbus_map "rsrp" lte;
  lte ← AnyMap.maybe_insert_from_variant_map_double dbus_map "rsrq" lte;
  lte ← AnyMap.maybe_insert_from_variant_map_double dbus_map "rssi" lte;
  lte ← AnyMap.maybe_insert_from_variant_map_as_double dbus_map "snr" "sinr" lte;
  Ok lte.

Definition rsrp (m : AnyMap.t) : Result float := AnyMap.get T_double "rsrp" m.
Definition rsrq (m : AnyMap.t) : Result float := AnyMap.get T_double "rsrq" m.
Definition rssi (m : AnyMap.t) : Result float := AnyMap.get T_double "rssi" m.
Definition sinr (m : AnyMap.t) : Result float := AnyMap.get T_double "sinr" m.
End SignalLTE.

Module SignalNR5G.
Definition ctor : AnyMap.t := SignalBase.ctor NR5G.

Definition from_variant_map (dbus_map : sdbus_variant_map) : Result AnyMap.t :=
  nr ← Ok ctor;
  nr ← AnyMap.maybe_insert_from_variant_map_double dbus_map "rsrp" nr;
  nr ← AnyMap.maybe_insert_from_variant_map_double dbus_map "rsrq" nr;
  nr ← AnyMap.maybe_insert_from_variant_map_as_double dbus_map "snr" "sinr" nr;
  Ok nr.

Definition rsrp (m : AnyMap.t) : Result float := AnyMap.get T_double "rsrp" m.
Definition rsrq (m : AnyMap.t) : Result float := AnyMap.get T_double "rsrq" m.
Definition sinr (m : AnyMap.t) : Result float := AnyMap.get T_double "sinr" m.
End SignalNR5G.

(** ** structs.h: location records *)

Module LocationBase.
(** [explicit LocationBase(Technology tech)] *)
Definition ctor (tech : Technology) : AnyMap.t :=
  AnyMap.insert "tech" (any_Technology tech) AnyMap.empty.

(** [std::string::substr(pos, n)]: throws [std::out_of_range] when
    [pos > size()]. *)
Definition substr (pos : nat) (n : option nat) (s : string) : Result string :=
  if (String.length s <? pos)%nat then throw std_out_of_range
  else Ok (String.substring pos (default (String.length s - pos)%nat n) s).

(** [plmn_to_mcc_mnc]: the two out-parameters as a pair. *)
Definition plmn_to_mcc_mnc (plmn : string) : Result (string * string) :=
  mcc ← substr 0 (Some 3%nat) plmn;
  mnc ← substr 3 None plmn;
  Ok (mcc, mnc).

Definition fill_from_variant_map (dbus_map : sdbus_variant_map) (this : AnyMap.t)
  : Result AnyMap.t :=
  this ←
    match dbus_map !! "operator-id" with
    | Some it =>
        plmn ← Variant_get_string it;
        '(mcc, mnc) ← plmn_to_mcc_mnc plmn;
        Ok (AnyMap.insert "mnc" (any_string mnc)
              (AnyMap.insert "mcc" (any_string mcc) this))
    | None => Ok this
    end;
  match dbus_map !! "ci" with
  | Some it =>
      ci_hex ← Variant_get_string it;
      ci ← Cstd.stoul16 ci_hex;
      Ok (AnyMap.insert "ci" (any_uint32 (ci mod 2 ^ 32)) this)
  | None => Ok this
  end.

Definition tech (m : AnyMap.t) : Result Technology := AnyMap.get T_Technology "tech" m.
Definition mcc (m : AnyMap.t) : Result string := AnyMap.get T_string "mcc" m.
Definition mnc (m : AnyMap.t) : Result string := AnyMap.get T_string "mnc" m.
Definition ci (m : AnyMap.t) : Result Z := AnyMap.get T_uint32 "ci" m.
End LocationBase.

Module LocationLTE.
Definition ctor : AnyMap.t := LocationBase.ctor LTE.

Definition fill_from_variant_map (dbus_map : sdbus_variant_map) (this : AnyMap.t)
  : Result AnyMap.t :=
  this ← LocationBase.fill_from_variant_map dbus_map this;
  match dbus_map !! "tac" with
  | Some it =>
      tac_hex ← Variant_get_string it;
      tac ← Cstd.stoul16 tac_hex;
      Ok (AnyMap.insert "tac" (any_uint32 (tac mod 2 ^ 32)) this)
  | None => Ok this
  end.

Definition from_variant_map (dbus_map : sdbus_variant_map) : Result AnyMap.t :=
  fill_from_variant_map dbus_map ctor.

Definition tac (m : AnyMap.t) : Result Z := AnyMap.get T_uint32 "tac" m.
End LocationLTE.

Module LocationNR5G.
(** [LocationNR5G() { at("tech") = Technology::NR5G; }] on top of the
    [LocationLTE] constructor. *)
Definition ctor : Result AnyMap.t :=
  AnyMap.assign_at "tech" (any_Technology NR5G) LocationLTE.ctor.

Definition from_variant_map (dbus_map : sdbus_variant_map) : Result AnyMap.t :=
  nr ← ctor;
  LocationLTE.fill_from_variant_map dbus_map nr.
End LocationNR5G.

(** [using Signal = std::shared_ptr<SignalBase>] and its siblings:
    [None] is the null pointer. *)
Definition Signal : Type := option AnyMap.t.
Definition Location : Type := option AnyMap.t.
Definition CellInfo : Type := option AnyMap.t.

(** ** structs.h: cell information records *)

Module CellInfoBase.
Definition ctor (tech : Technology) : AnyMap.t :=
  AnyMap.insert "tech" (any_Technology tech) AnyMap.empty.

Definition fill_from_variant_map (dbus_map : sdbus_variant_map) (this : AnyMap.t)
  : Result AnyMap.t :=
  this ← AnyMap.maybe_insert_from_variant_map_bool dbus_map "serving" this;
  match dbus_map !! "ci" with
  | Some it =>
      ci_hex ← Variant_get_string it;
      ci ← Cstd.stoul16 ci_hex;
      Ok (AnyMap.insert "ci" (any_uint32 (ci mod 2 ^ 32)) this)
  | None => Ok this
  end.

Definition tech (m : AnyMap.t) : Result Technology := AnyMap.get T_Technology "tech" m.
Definition serving (m : AnyMap.t) : Result bool := AnyMap.get_or_default T_bool "serving" false m.
Definition ci (m : AnyMap.t) : Result Z := AnyMap.get T_uint32 "ci" m.
End CellInfoBase.

Module CellInfoLTE.
Definition ctor : AnyMap.t := CellInfoBase.ctor LTE.

Definition from_variant_map (dbus_map : sdbus_variant_map) : Result CellInfo :=
  lte ← CellInfoBase.fill_from_variant_map dbus_map ctor;
  lte ← AnyMap.maybe_insert_from_variant_map_uint32 dbus_map "earfcn" lte;
  lte ←
    match dbus_map !! "physical-ci" with
    | Some it =>
        pci_hex ← Variant_get_string it;
        pci ← Cstd.stoul16 pci_hex;
        Ok (AnyMap.insert "pci" (any_uint16 (pci mod 2 ^ 16)) lte)
    | None => Ok lte
    end;
  signal ← SignalLTE.from_variant_map dbus_map;
  lte ← Ok (AnyMap.insert "signal" (any_SignalLTE_ptr (Some signal)) lte);
  location ← LocationLTE.from_variant_map dbus_map;
  lte ← Ok (AnyMap.insert "location" (any_LocationLTE_ptr (Some location)) lte);
  Ok (Some lte).

Definition earfcn (m : AnyMap.t) : Result Z := AnyMap.get T_uint32 "earfcn" m.
Definition pci (m : AnyMap.t) : Result Z := AnyMap.get T_uint16 "pci" m.
Definition signal (m : AnyMap.t) : Result (option AnyMap.t) :=
  AnyMap.get T_SignalLTE_ptr "signal" m.
Definition location (m : AnyMap.t) : Result (option AnyMap.t) :=
  AnyMap.get_or_default T_LocationLTE_ptr "location" None m.
End CellInfoLTE.

Module CellInfoNR5G.
Definition ctor : AnyMap.t := CellInfoBase.ctor NR5G.

Definition from_variant_map (dbus_map : sdbus_variant_map) : Result CellInfo :=
  nr ← CellInfoBase.fill_from_variant_map dbus_map ctor;
  nr ← AnyMap.maybe_insert_from_variant_map_uint32 dbus_map "nrarfcn" nr;
  nr ←
    match dbus_map !! "physical-ci" with
    | Some it =>
        pci_hex ← Variant_get_string it;
        pci ← Cstd.stoul16 pci_hex;
        Ok (AnyMap.insert "pci" (any_uint16 (pci mod 2 ^ 16)) nr)
    | None => Ok nr
    end;
  signal ← SignalNR5G.from_variant_map dbus_map;
  nr ← Ok (AnyMap.insert "signal" (any_SignalNR5G_ptr (Some signal)) nr);
  location ← LocationNR5G.from_variant_map dbus_map;
  nr ← Ok (AnyMap.insert "location" (any_LocationNR5G_ptr (Some location)) nr);
  Ok (Some nr).

Definition nrarfcn (m : AnyMap.t) : Result Z := AnyMap.get T_uint32 "nrarfcn" m.
Definition pci (m : AnyMap.t) : Result Z := AnyMap.get T_uint16 "pci" m.
Definition signal (m : AnyMap.t) : Result (option AnyMap.t) :=
  AnyMap.get T_SignalNR5G_ptr "signal" m.
Definition location (m : AnyMap.t) : Result (option AnyMap.t) :=
  AnyMap.get_or_default T_LocationNR5G_ptr "location" None m.
End CellInfoNR5G.

(** ** ModemManager.h

    The enumeration values of ModemManager's public C header
    ([ModemManager-enums.h]), which [modem.h] and [modem.cpp] use by
    name.  The modem states are numbered in the order of the state
    machine, from [FAILED = -1] to [CONNECTED = 11]. *)
Module MM.
Definition MM_MODEM_STATE_FAILED : Z := -1.
Definition MM_MODEM_STATE_UNKNOWN : Z := 0.
Definition MM_MODEM_STATE_INITIALIZING : Z := 1.
Definition MM_MODEM_STATE_LOCKED : Z := 2.
Definition MM_MODEM_STATE_DISABLED : Z := 3.
Definition MM_MODEM_STATE_DISABLING : Z := 4.
Definition MM_MODEM_STATE_ENABLING : Z := 5.
Definition MM_MODEM_STATE_ENABLED : Z := 6.
Definition MM_MODEM_STATE_SEARCHING : Z := 7.
Definition MM_MODEM_STATE_REGISTERED : Z := 8.
Definition MM_MODEM_STATE_DISCONNECTING : Z := 9.
Definition MM_MODEM_STATE_CONNECTING : Z := 10.
Definition MM_MODEM_STATE_CONNECTED : Z := 11.

Definition MM_MODEM_POWER_STATE_UNKNOWN : Z := 0.
Definition MM_MODEM_POWER_STATE_OFF : Z := 1.
Definition MM_MODEM_POWER_STATE_LOW : Z := 2.
Definition MM_MODEM_POWER_STATE_ON : Z := 3.

Definition MM_MODEM_ACCESS_TECHNOLOGY_GSM : Z := Z.shiftl 1 1.
Definition MM_MODEM_ACCESS_TECHNOLOGY_GSM_COMPACT : Z := Z.shiftl 1 2.
Definition MM_MODEM_ACCESS_TECHNOLOGY_GPRS : Z := Z.shiftl 1 3.
Definition MM_MODEM_ACCESS_TECHNOLOGY_EDGE : Z := Z.shiftl 1 4.
Definition MM_MODEM_ACCESS_TECHNOLOGY_UMTS : Z := Z.shiftl 1 5.
Definition MM_MODEM_ACCESS_TECHNOLOGY_HSDPA : Z := Z.shiftl 1 6.
Definition MM_MODEM_ACCESS_TECHNOLOGY_HSUPA : Z := Z.shiftl 1 7.
Definition MM_MODEM_ACCESS_TECHNOLOGY_HSPA : Z := Z.shiftl 1 8.
Definition MM_MODEM_ACCESS_TECHNOLOGY_HSPA_PLUS : Z := Z.shiftl 1 9.
Definition MM_MODEM_ACCESS_TECHNOLOGY_LTE : Z := Z.shiftl 1 14.
Definition MM_MODEM_ACCESS_TECHNOLOGY_5GNR : Z := Z.shiftl 1 15.

Definition MM_MODEM_LOCATION_SOURCE_3GPP_LAC_CI : Z := Z.shiftl 1 0.
End MM.

(** ** modem.h, modem.cpp *)

Module Modem.

(** [enum class ModemState : int8_t], by underlying value. *)
Module ModemState.
Definition FAILED : Z := MM.MM_MODEM_STATE_FAILED.
Definition UNKNOWN : Z := MM.MM_MODEM_STATE_UNKNOWN.
Definition INITIALIZING : Z := MM.MM_MODEM_STATE_INITIALIZING.
Definition LOCKED : Z := MM.MM_MODEM_STATE_LOCKED.
Definition DISABLED : Z := MM.MM_MODEM_STATE_DISABLED.
Definition DISABLING : Z := MM.MM_MODEM_STATE_DISABLING.
Definition ENABLING : Z := MM.MM_MODEM_STATE_ENABLING.
Definition ENABLED : Z := MM.MM_MODEM_STATE_ENABLED.
Definition SEARCHING : Z := MM.MM_MODEM_STATE_SEARCHING.
Definition REGISTERED : Z := MM.MM_MODEM_STATE_REGISTERED.
Definition DISCONNECTING : Z := MM.MM_MODEM_STATE_DISCONNECTING.
Definition CONNECTING : Z := MM.MM_MODEM_STATE_CONNECTING.
Definition CONNECTED : Z := MM.MM_MODEM_STATE_CONNECTED.
End ModemState.

(** [enum class PowerState : uint32_t] *)
Module PowerState.
Definition UNKNOWN : Z := MM.MM_MODEM_POWER_STATE_UNKNOWN.
Definition OFF : Z := MM.MM_MODEM_POWER_STATE_OFF.
Definition LOW : Z := MM.MM_MODEM_POWER_STATE_LOW.
Definition ON : Z := MM.MM_MODEM_POWER_STATE_ON.
End PowerState.

(** [static_cast] of an [int32_t] to an [int8_t] enumeration. *)
Definition to_int8 (z : Z) : Z := (z + 128) mod 256 - 128.

(** What the remote modem object answers: its properties and the
    replies of its methods. *)
Record Remote : Type := {
  prop_State : Z;
  prop_AccessTechnologies : Z;
  prop_Signal_Rate : Z;
  prop_Signal_Lte : sdbus_variant_map;
  prop_Signal_Nr5g : sdbus_variant_map;
  reply_GetLocation : gmap Z Variant;
  reply_GetNetworkTime : string;
}.

Inductive Observer : Type := SignalObserver | LocationObserver.

(** What the client sends through [dbus_proxy_]. *)
Inductive Call : Type :=
  | SetPowerState (state : Z)
  | Signal_Setup (rate : Z) (expect_reply : bool)
  | Location_Setup (sources : Z) (signal_location : bool)
  | GetLocation
  | GetNetworkTime
  | uponSignal_PropertiesChanged (observer : Observer).

Record Bus : Type := { remote : Remote; sent : list Call }.

(** Code that uses the proxy: the log of sent calls is kept when an
    exception is thrown. *)
Definition M (A : Type) : Type := Bus -> Result A * Bus.

#[global] Instance M_ret : MRet M := fun A a b => (Ok a, b).
#[global] Instance M_bind : MBind M := fun A B k m b =>
  match m b with
  | (inl e, b') => (inl e, b')
  | (inr a, b') => k a b'
  end.

Definition throwM {A : Type} (e : exception) : M A := fun b => (inl e, b).
Definition liftR {A : Type} (r : Result A) : M A := fun b => (r, b).
Definition getProperty {A : Type} (p : Remote -> A) : M A := fun b => (Ok (p (remote b)), b).
Definition callMethod (c : Call) : M unit :=
  fun b => (Ok tt, {| remote := remote b; sent := sent b ++ [c] |}).

(** [operator<<(std::ostream&, const ModemState&)] of [helpers.cpp]. *)
Definition ModemState_name (state : Z) : string :=
  if state =? ModemState.FAILED then "FAILED"
  else if state =? ModemState.INITIALIZING then "INITIALIZING"
  else if state =? ModemState.LOCKED then "LOCKED"
  else if state =? ModemState.DISABLED then "DISABLED"
  else if state =? ModemState.DISABLING then "DISABLING"
  else if state =? ModemState.ENABLING then "ENABLING"
  else if state =? ModemState.ENABLED then "ENABLED"
  else if state =? ModemState.SEARCHING then "SEARCHING"
  else if state =? ModemState.REGISTERED then "REGISTERED"
  else if state =? ModemState.DISCONNECTING then "DISCONNECTING"
  else if state =? ModemState.CONNECTING then "CONNECTING"
  else if state =? ModemState.CONNECTED then "CONNECTED"
  else "UNKNOWN".

Definition state : M Z :=
  state ← getProperty prop_State;
  mret (to_int8 state).

(** The message [assert_state] builds in its [std::ostringstream]. *)
Definition assert_state_message (current_state required_state : Z) (required_for : string)
  : string :=
  "can't " +:+ required_for +:+ ": "
    +:+ "modem state is '" +:+ ModemState_name current_state
    +:+ "', but needs to be at least '" +:+ ModemState_name required_state +:+ "'.".

Definition assert_state (required_state : Z) (required_for : string) : M unit :=
  current_state ← state;
  if current_state <? required_state then
    throwM (ModemException (assert_state_message current_state required_state required_for))
  else mret tt.

(** *** PowerState *)

Definition set_power_state (state : Z) : M unit :=
  assert_state ModemState.DISABLED "change power state";;
  callMethod (SetPowerState state).

Definition power_off : M unit := set_power_state PowerState.OFF.
Definition power_low : M unit := set_power_state PowerState.LOW.
Definition power_on : M unit := set_power_state PowerState.ON.

(** *** ModemState *)

Definition enabled : M bool :=
  s ← state; mret (ModemState.ENABLED <=? s).

Definition registered : M bool :=
  s ← state; mret (ModemState.REGISTERED <=? s).

Definition connected : M bool :=
  s ← state; mret (s =? ModemState.CONNECTED).

(** *** Technology, Signal *)

(** The [switch] of [Modem::technology()]. *)
Definition technology_switch (mm_tech : Z) : Technology :=
  if (mm_tech =? MM.MM_MODEM_ACCESS_TECHNOLOGY_GSM)
     || (mm_tech =? MM.MM_MODEM_ACCESS_TECHNOLOGY_GSM_COMPACT)
     || (mm_tech =? MM.MM_MODEM_ACCESS_TECHNOLOGY_GPRS)
     || (mm_tech =? MM.MM_MODEM_ACCESS_TECHNOLOGY_EDGE) then GSM
  else if (mm_tech =? MM.MM_MODEM_ACCESS_TECHNOLOGY_UMTS)
     || (mm_tech =? MM.MM_MODEM_ACCESS_TECHNOLOGY_HSDPA)
     || (mm_tech =? MM.MM_MODEM_ACCESS_TECHNOLOGY_HSUPA)
     || (mm_tech =? MM.MM_MODEM_ACCESS_TECHNOLOGY_HSPA)
     || (mm_tech =? MM.MM_MODEM_ACCESS_TECHNOLOGY_HSPA_PLUS) then UMTS
  else if mm_tech =? MM.MM_MODEM_ACCESS_TECHNOLOGY_LTE then LTE
  else if mm_tech =? MM.MM_MODEM_ACCESS_TECHNOLOGY_5GNR then NR5G
  else UNKNOWN.

Definition technology : M Technology :=
  mm_tech ← getProperty prop_AccessTechnologies;
  mret (technology_switch mm_tech).

(** [try { ... } catch (std::out_of_range&) { ... }] *)
Definition try_catch_out_of_range {A : Type} (body handler : Result A) : Result A :=
  match body with
  | inl std_out_of_range => handler
  | r => r
  end.

Definition unsupported_signal : exception :=
  ModemException "signal: current technology unknown or not supported yet".

Definition dbus_signal_to_Signal (tech : Technology) (signal : sdbus_variant_map)
  : Result Signal :=
  try_catch_out_of_range
    match tech with
    | LTE => Some <$> SignalLTE.from_variant_map signal
    | NR5G => Some <$> SignalNR5G.from_variant_map signal
    | _ => throw unsupported_signal
    end
    (Ok None).

Definition signal : M Signal :=
  assert_state ModemState.REGISTERED "access signal quality";;
  rate ← getProperty prop_Signal_Rate;
  (if rate =? 0 then callMethod (Signal_Setup 5 true) else mret tt);;
  tech ← technology;
  match tech with
  | LTE =>
      signal ← getProperty prop_Signal_Lte;
      liftR (dbus_signal_to_Signal tech signal)
  | NR5G =>
      signal ← getProperty prop_Signal_Nr5g;
      liftR (dbus_signal_to_Signal tech signal)
  | _ => throwM unsupported_signal
  end.

Definition observe_signal (interval_sec : Z) : M unit :=
  assert_state ModemState.REGISTERED "observe signal quality";;
  callMethod (Signal_Setup interval_sec false);;
  callMethod (uponSignal_PropertiesChanged SignalObserver).

(** *** Location *)

Definition location_format : string := "%3[0-9],%3[0-9],%*X,%X,%X".

(** The out-parameters of the [sscanf] call, zero-initialised and
    then overwritten by the items that were assigned, in order. *)
Definition out_chars (i : nat) (stored : list Cstd.argument) : string :=
  match stored !! i with
  | Some (Cstd.arg_chars s) => s
  | _ => EmptyString
  end.

Definition out_unsigned (i : nat) (stored : list Cstd.argument) : Z :=
  match stored !! i with
  | Some (Cstd.arg_unsigned n) => n
  | _ => 0
  end.

(** From [// parse] to the end of [dbus_location_to_Location]. *)
Definition parse_location (loc_data : string) (lte_nr_loc : AnyMap.t) : Location :=
  let '(assigned, stored) := Cstd.sscanf (Cstd.c_str loc_data) location_format in
  if negb (assigned =? 4) then None
  else
    let mcc := out_chars 0 stored in
    let mnc := out_chars 1 stored in
    let ci := out_unsigned 2 stored in
    let tac := out_unsigned 3 stored in
    Some (AnyMap.insert "tac" (any_uint32 tac)
            (AnyMap.insert "ci" (any_uint32 ci)
               (AnyMap.insert "mnc" (any_string mnc)
                  (AnyMap.insert "mcc" (any_string mcc) lte_nr_loc)))).

Definition dbus_location_to_Location (location_dict : gmap Z Variant) : M Location :=
  match location_dict !! MM.MM_MODEM_LOCATION_SOURCE_3GPP_LAC_CI with
  | None => mret None
  | Some it =>
      loc_data ← liftR (Variant_get_string it);
      rat ← technology;
      if decide (rat = LTE) then
        mret (parse_location loc_data LocationLTE.ctor)
      else if decide (rat ≠ NR5G) then
        nr ← liftR LocationNR5G.ctor;
        mret (parse_location loc_data nr)
      else mret None
  end.

Definition location : M Location :=
  assert_state ModemState.REGISTERED "access cell location";;
  callMethod GetLocation;;
  location_res ← getProperty reply_GetLocation;
  dbus_location_to_Location location_res.

Definition observe_location : M unit :=
  assert_state ModemState.REGISTERED "observe cell location";;
  callMethod (Location_Setup MM.MM_MODEM_LOCATION_SOURCE_3GPP_LAC_CI true);;
  callMethod (uponSignal_PropertiesChanged LocationObserver).

(** *** Time *)

Definition network_time : M string :=
  assert_state ModemState.ENABLED "get network time";;
  callMethod GetNetworkTime;;
  getProperty reply_GetNetworkTime.

End Modem.

(** ** modem_manager.h, modem_manager.cpp *)

Definition ANY_IMEI : string := "<ANY_IMEI>".

Module ModemManagerOMProxy.

Definition ObjectPath : Type := string.

(** A [Modem] as the registry sees it: the object its [dbus_proxy_]
    points to.  [None] is the null [shared_ptr] a moved-from [Modem]
    is left with. *)
Record Modem : Type := { dbus_proxy_ : option ObjectPath }.

Definition Modem_ctor (objectPath : ObjectPath) : Modem :=
  {| dbus_proxy_ := Some objectPath |}.

Definition moved_from : Modem := {| dbus_proxy_ := None |}.

(** The shared state of a [std::promise<Modem>] and its future. *)
Inductive shared_state : Type :=
  | pending
  | has_value (m : Modem)
  | has_exception (e : exception).

(** The proxy object, and the shared states of the promises it has
    made (a future is the index of its shared state). *)
Record t : Type := {
  modems_ : list Modem;
  awaited_modem_ : option (string * nat);
  shared_states : list shared_state;
}.

(** The service side: the IMEI each modem object reports. *)
Definition Service : Type := ObjectPath -> Result string.

(** [std::promise::set_exception] and [set_value]: the shared state
    can be satisfied once. *)
Definition satisfy (p : nat) (st : shared_state) (h : list shared_state)
  : Result (list shared_state) :=
  match h !! p with
  | Some pending => Ok (<[p := st]> h)
  | _ => throw std_future_error
  end.

Definition cancelled : exception :=
  ModemManagerException "Cancelled, awaiting other modem now.".

Definition getModems (this : t) : list Modem := modems_ this.

(** Returns the future of the new promise and the updated proxy. *)
Definition await_modem (imei : string) (this : t) : Result (nat * t) :=
  h ←
    match awaited_modem_ this with
    | Some (_, p) => satisfy p (has_exception cancelled) (shared_states this)
    | None => Ok (shared_states this)
    end;
  let fut := length h in
  Ok (fut, {| modems_ := modems_ this;
              awaited_modem_ := Some (imei, fut);
              shared_states := h ++ [pending] |}).

(** [Modem::imei()] of the modem at the other end of the proxy; the
    registry only asks the modem it has just constructed. *)
Definition Modem_imei (svc : Service) (m : Modem) : Result string :=
  match dbus_proxy_ m with
  | Some path => svc path
  | None => throw sdbus_Error
  end.

Definition onInterfacesAdded (svc : Service) (objectPath : ObjectPath) (this : t)
  : Result t :=
  let new_modem := Modem_ctor objectPath in
  this ←
    match awaited_modem_ this with
    | Some (awaited_imei, p) =>
        new_imei ← Modem_imei svc new_modem;
        if String.eqb awaited_imei ANY_IMEI || String.eqb awaited_imei new_imei then
          h ← satisfy p (has_value new_modem) (shared_states this);
          Ok {| modems_ := modems_ this;
                awaited_modem_ := None;
                shared_states := h |}
        else Ok this
    | None => Ok this
    end;
  Ok {| modems_ := modems_ this ++ [new_modem];
        awaited_modem_ := awaited_modem_ this;
        shared_states := shared_states this |}.

(** [handleExisting]: the managed objects, in the order of the map. *)
Fixpoint handleExisting (svc : Service) (managed_objs : list ObjectPath) (this : t)
  : Result t :=
  match managed_objs with
  | [] => Ok this
  | path :: rest =>
      this ← onInterfacesAdded svc path this;
      handleExisting svc rest this
  end.

Definition empty : t :=
  {| modems_ := []; awaited_modem_ := None; shared_states := [] |}.

Definition ctor (svc : Service) (managed_objs : list ObjectPath) : Result t :=
  handleExisting svc managed_objs empty.

(** The predicate of [onInterfacesRemoved].  It dereferences
    [dbus_proxy_]: on a moved-from modem that is a null pointer
    dereference, undefined behaviour, for which the model has no
    result ([None]). *)
Definition same_path (objectPath : ObjectPath) (m : Modem) : option bool :=
  match dbus_proxy_ m with
  | Some path => Some (String.eqb path objectPath)
  | None => None
  end.

(** [std::find_if]: the index of the first element that satisfies
    the predicate, or the size of the vector. *)
Fixpoint find_if (pred : Modem -> option bool) (v : list Modem) : option nat :=
  match v with
  | [] => Some O
  | m :: v' =>
      b ← pred m;
      if b : bool then Some O else S <$> find_if pred v'
  end.

(** The loop of [std::remove_if] from position [i] on: an element
    that is kept is move-assigned to [v[result]]. *)
Fixpoint remove_if_loop (pred : Modem -> option bool) (n : nat)
    (v : list Modem) (result i : nat) : option (list Modem * nat) :=
  match n with
  | O => Some (v, result)
  | S n' =>
      match v !! i with
      | None => Some (v, result)
      | Some m =>
          b ← pred m;
          if b : bool then remove_if_loop pred n' v result (S i)
          else
            remove_if_loop pred n' (<[i := moved_from]> (<[result := m]> v))
              (S result) (S i)
      end
  end.

(** [std::remove_if(v.begin(), v.end(), pred)]: the vector afterwards
    and the returned position. *)
Definition remove_if (pred : Modem -> option bool) (v : list Modem)
  : option (list Modem * nat) :=
  first ← find_if pred v;
  if decide (first = length v) then Some (v, first)
  else remove_if_loop pred (length v) v first (S first).

(** The returned iterator is discarded: nothing is erased.  [None]
    when the predicate met a null proxy. *)
Definition onInterfacesRemoved (objectPath : ObjectPath) (this : t) : option t :=
  '(v, _) ← remove_if (same_path objectPath) (modems_ this);
  Some {| modems_ := v;
          awaited_modem_ := awaited_modem_ this;
          shared_states := shared_states this |}.

End ModemManagerOMProxy.

Module ModemManager.
Import ModemManagerOMProxy.

(** [return mm_proxy_->getModems().empty();] *)
Definition modems_available (mm_proxy_ : ModemManagerOMProxy.t) : bool :=
  match getModems mm_proxy_ with
  | [] => true
  | _ :: _ => false
  end.

Definition any_modem (mm_proxy_ : ModemManagerOMProxy.t) : option Modem :=
  match getModems mm_proxy_ with
  | [] => None
  | m :: _ => Some m
  end.

Definition await_modem (imei : string) (mm_proxy_ : ModemManagerOMProxy.t)
  : Result (nat * ModemManagerOMProxy.t) :=
  ModemManagerOMProxy.await_modem imei mm_proxy_.

Definition available_modems (mm_proxy_ : ModemManagerOMProxy.t) : list Modem :=
  getModems mm_proxy_.
End ModemManager.

(** ** helpers.cpp *)

Module Helpers.

(** [std::string::erase(pos, n)].  The position is a [size_t]; a
    difference that wrapped around is beyond [size()], and [erase]
    throws [std::out_of_range] for it. *)
Definition erase (pos n : Z) (s : string) : Result string :=
  if (pos <? 0) || (Z.of_nat (String.length s) <? pos) then throw std_out_of_range
  else
    Ok (String.substring 0 (Z.to_nat pos) s
          +:+ String.substring (Z.to_nat (pos + n))
                (String.length s - Z.to_nat (pos + n)) s).

(** [join_string(parts, delim)] *)
Definition join_string (parts : list string) (delim : string) : Result string :=
  match parts with
  | [] => Ok EmptyString
  | [part] => Ok part
  | _ =>
      let concated := fold_left (fun c part => (c +:+ part) +:+ delim) parts EmptyString in
      erase (Z.of_nat (String.length concated) - Z.of_nat (String.length delim))
        (Z.of_nat (String.length delim)) concated
  end.

End Helpers.

(** ** modem.cpp: cell information *)

Module CellInfoList.

(** [MM_CELL_TYPE_LTE] and [MM_CELL_TYPE_5GNR] of ModemManager's
    [MMCellType]. *)
Definition MM_CELL_TYPE_LTE : Z := 5.
Definition MM_CELL_TYPE_5GNR : Z := 6.

(** One turn of the loop of [Modem::cell_info()]: [res.at("cell-type")]
    converted to [uint32_t], then the two tests. *)
Definition cell_info_entry (infos : list CellInfo) (res : sdbus_variant_map)
  : Result (list CellInfo) :=
  it ← match res !! "cell-type" with
       | Some it => Ok it
       | None => throw std_out_of_range
       end;
  cell_type ← Variant_get_uint32 it;
  infos ←
    (if cell_type =? MM_CELL_TYPE_LTE then
       lte ← CellInfoLTE.from_variant_map res;
       Ok (infos ++ [lte])
     else Ok infos);
  if cell_type =? MM_CELL_TYPE_5GNR then
    nr ← CellInfoNR5G.from_variant_map res;
    Ok (infos ++ [nr])
  else Ok infos.

(** The body of [Modem::cell_info()] once the reply of [GetCellInfo]
    is stored in [result]. *)
Fixpoint cell_info_from (infos : list CellInfo) (result : list sdbus_variant_map)
  : Result (list CellInfo) :=
  match result with
  | [] => Ok infos
  | res :: rest =>
      infos ← cell_info_entry infos res;
      cell_info_from infos rest
  end.

Definition cell_info (result : list sdbus_variant_map) : Result (list CellInfo) :=
  cell_info_from [] result.

End CellInfoList.

(** ** connection.cpp *)

Module Connection.

(** [enum class IPType : uint32_t], by the values of
    [MMBearerIpFamily]. *)
Module IPType.
Definition UNKNOWN : Z := 0.
Definition IPV4 : Z := Z.shiftl 1 0.
Definition IPV6 : Z := Z.shiftl 1 1.
Definition IPV4_AND_IPV6 : Z := Z.shiftl 1 2.
End IPType.

(** [struct IPConfig] of [structs.h]. *)
Record IPConfig : Type := {
  ip_type : Z;
  address : string;
  prefix : Z;
  gateway : string;
  dns1 : string;
  dns2 : string;
}.

(** The properties of the remote bearer object that [get_ip_config]
    reads. *)
Record Bearer : Type := {
  prop_Ip4Config : sdbus_variant_map;
  prop_Ip6Config : sdbus_variant_map;
}.

(** [std::map::at] on a variant map. *)
Definition at_ (key : string) (m : sdbus_variant_map) : Result Variant :=
  match m !! key with
  | Some v => Ok v
  | None => throw std_out_of_range
  end.

(** The [try] block of [get_ip_config] and its handler. *)
Definition read_ip_config (type : Z) (result : sdbus_variant_map)
  : Result (option IPConfig) :=
  Modem.try_catch_out_of_range
    (address ← at_ "address" result ≫= Variant_get_string;
     prefix ← at_ "prefix" result ≫= Variant_get_uint32;
     gateway ← at_ "gateway" result ≫= Variant_get_string;
     dns1 ← at_ "dns1" result ≫= Variant_get_string;
     dns2 ← at_ "dns2" result ≫= Variant_get_string;
     Ok (Some {| ip_type := type; address := address; prefix := prefix;
                 gateway := gateway; dns1 := dns1; dns2 := dns2 |}))
    (Ok None).

(** [get_ip_config(type)].  For a type other than [IPV4] and [IPV6]
    the code runs into [__builtin_unreachable()], which is undefined
    behaviour: [None]. *)
Definition get_ip_config (type : Z) (b : Bearer) : option (Result (option IPConfig)) :=
  if type =? IPType.IPV4 then Some (read_ip_config type (prop_Ip4Config b))
  else if type =? IPType.IPV6 then Some (read_ip_config type (prop_Ip6Config b))
  else None.

Definition ipv4_config (b : Bearer) : option (Result (option IPConfig)) :=
  get_ip_config IPType.IPV4 b.

Definition ipv6_config (b : Bearer) : option (Result (option IPConfig)) :=
  get_ip_config IPType.IPV6 b.

End Connection.

(** * The vocabulary of the properties *)

(** ** Attribute bags *)

(** The entries of a bag are in ascending key order. *)
Definition key_lt (x y : string * any) : Prop := String.compare (fst x) (fst y) = Lt.

Definition ordered (m : AnyMap.t) : Prop := StronglySorted key_lt m.

(** A decoder that, when it returns, returns an ordered bag. *)
Definition returns_ordered (r : Result AnyMap.t) : Prop :=
  forall m, r = Ok m -> ordered m.

(** ** Raw telemetry maps *)

(** The raw map has a string under [key] that [std::stoul(_, nullptr, 16)]
    cannot convert. *)
Definition malformed_hex_field (key : string) (dbus_map : sdbus_variant_map) : Prop :=
  exists s, dbus_map !! key = Some (V_string s) ∧ is_throw (Cstd.stoul16 s).

(** A raw map whose cell identity is not hexadecimal. *)
Definition bad_ci : sdbus_variant_map := {[ "ci" := V_string "zz" ]}.

(** ** Modems on the bus *)

Section Modem_vocabulary.
Import Modem.

(** The state [Modem::state()] returns on this bus. *)
Definition current_state (b : Bus) : Z := to_int8 (prop_State (remote b)).

(** The technology [Modem::technology()] returns on this bus. *)
Definition current_technology (b : Bus) : Technology :=
  technology_switch (prop_AccessTechnologies (remote b)).

(** The exception [assert_state] throws on this bus: it names the
    actual and the required state. *)
Definition precondition_error (b : Bus) (required_state : Z) (required_for : string)
  : exception :=
  ModemException (assert_state_message (current_state b) required_state required_for).

Definition is_precondition_error (e : exception) : Prop :=
  exists current required required_for,
    e = ModemException (assert_state_message current required required_for).

(** An operation is rejected when it throws the precondition error
    and has sent nothing; it is accepted when whatever it does is not
    a precondition error. *)
Definition rejects {A : Type} (op : M A) (required_state : Z) (required_for : string)
    (b : Bus) : Prop :=
  op b = (throw (precondition_error b required_state required_for), b).

Definition accepts {A : Type} (op : M A) (b : Bus) : Prop :=
  forall e, fst (op b) = throw e -> ~ is_precondition_error e.

(** A body that never throws a precondition error of its own. *)
Definition clean {A : Type} (body : M A) : Prop := forall b, accepts body b.

(** The guard of an operation is exact: it rejects the states below
    [required_state], and only those; it accepts the states at or
    above it, and only those. *)
Definition guard_exact {A : Type} (op : M A) (required_state : Z) (required_for : string)
    (b : Bus) : Prop :=
  (rejects op required_state required_for b <-> current_state b < required_state)
  ∧ (accepts op b <-> required_state <= current_state b).

(** The remote modem [r], reporting another state or another access
    technology. *)
Definition with_State (state : Z) (r : Remote) : Remote :=
  {| prop_State := state;
     prop_AccessTechnologies := prop_AccessTechnologies r;
     prop_Signal_Rate := prop_Signal_Rate r;
     prop_Signal_Lte := prop_Signal_Lte r;
     prop_Signal_Nr5g := prop_Signal_Nr5g r;
     reply_GetLocation := reply_GetLocation r;
     reply_GetNetworkTime := reply_GetNetworkTime r |}.

Definition with_AccessTechnologies (mm_tech : Z) (r : Remote) : Remote :=
  {| prop_State := prop_State r;
     prop_AccessTechnologies := mm_tech;
     prop_Signal_Rate := prop_Signal_Rate r;
     prop_Signal_Lte := prop_Signal_Lte r;
     prop_Signal_Nr5g := prop_Signal_Nr5g r;
     reply_GetLocation := reply_GetLocation r;
     reply_GetNetworkTime := reply_GetNetworkTime r |}.

(** A location reply whose 3GPP LAC/CI entry is the string [s]. *)
Definition lac_ci_reply (s : string) (dict : gmap Z Variant) : gmap Z Variant :=
  <[MM.MM_MODEM_LOCATION_SOURCE_3GPP_LAC_CI := V_string s]> dict.

Definition example_location : string := "262,01,1A2B,0000A1B2,00112233".

End Modem_vocabulary.

(** ** The registry *)

Section Registry_vocabulary.
Import ModemManagerOMProxy.

(** The pending shared states are exactly the one the proxy awaits. *)
Definition one_pending (this : t) : Prop :=
  forall q, shared_states this !! q = Some pending
            <-> exists target, awaited_modem_ this = Some (target, q).

(** The states of the proxy: it starts empty, and then futures are
    requested and objects are added and removed. *)
Inductive reachable (svc : Service) : t -> Prop :=
  | reach_empty : reachable svc empty
  | reach_await imei this fut this' :
      reachable svc this -> await_modem imei this = Ok (fut, this') ->
      reachable svc this'
  | reach_added path this this' :
      reachable svc this -> onInterfacesAdded svc path this = Ok this' ->
      reachable svc this'
  | reach_removed path this this' :
      reachable svc this -> onInterfacesRemoved path this = Some this' ->
      reachable svc this'.

(** A modem whose proxy is not null. *)
Definition live (m : Modem) : Prop := dbus_proxy_ m ≠ None.

(** The modem is the proxy of the removed object. *)
Definition is_path (objectPath : ObjectPath) (m : Modem) : bool :=
  match dbus_proxy_ m with
  | Some path => String.eqb path objectPath
  | None => false
  end.

(** The modems [std::remove_if] keeps, in their order. *)
Definition kept (objectPath : ObjectPath) (v : list Modem) : list Modem :=
  List.filter (fun m => negb (is_path objectPath m)) v.

(** The elements [std::remove_if] leaves behind the kept ones: a kept
    element leaves a moved-from modem at the end and frees the oldest
    slot, a matching one stays where it is. *)
Fixpoint leftover (objectPath : ObjectPath) (junk rest : list Modem) : list Modem :=
  match rest with
  | [] => junk
  | m :: rest' =>
      if is_path objectPath m then leftover objectPath (junk ++ [m]) rest'
      else leftover objectPath (tail junk ++ [moved_from]) rest'
  end.

(** What is left behind the kept elements of a whole vector. *)
Fixpoint trailing (objectPath : ObjectPath) (v : list Modem) : list Modem :=
  match v with
  | [] => []
  | m :: v' =>
      if is_path objectPath m then leftover objectPath [m] v'
      else trailing objectPath v'
  end.

Definition modem0_path : ObjectPath := "/org/freedesktop/ModemManager1/Modem/0".
Definition modem1_path : ObjectPath := "/org/freedesktop/ModemManager1/Modem/1".

(** The proxy that holds the modems at [paths] and awaits nothing. *)
Definition registry_of (paths : list ObjectPath) : t :=
  {| modems_ := map Modem_ctor paths;
     awaited_modem_ := None;
     shared_states := [] |}.

(** A service with one modem, and the proxy after a first await. *)
Definition one_modem_service : Service :=
  fun path =>
    if String.eqb path modem0_path
    then Ok "356938035643809"%string
    else throw sdbus_Error.

Definition awaiting_any : t :=
  {| modems_ := [];
     awaited_modem_ := Some (ANY_IMEI, 0%nat);
     shared_states := [pending] |}.

End Registry_vocabulary.

(** One operation on the proxy, and what a resolved future holds. *)
Inductive step (svc : ModemManagerOMProxy.Service)
  : ModemManagerOMProxy.t -> ModemManagerOMProxy.t -> Prop :=
  | step_await imei this fut this' :
      ModemManagerOMProxy.await_modem imei this = Ok (fut, this') ->
      step svc this this'
  | step_added path this this' :
      ModemManagerOMProxy.onInterfacesAdded svc path this = Ok this' ->
      step svc this this'
  | step_removed path this this' :
      ModemManagerOMProxy.onInterfacesRemoved path this = Some this' ->
      step svc this this'.

Definition resolved (this : ModemManagerOMProxy.t) (q : nat)
    (st : ModemManagerOMProxy.shared_state) : Prop :=
  ModemManagerOMProxy.shared_states this !! q = Some st
  ∧ st ≠ ModemManagerOMProxy.pending.

(** ** Raw fields *)

(** A raw [double] field: absent, a double, or a value of another
    type, on which [Variant::get<double>] throws. *)
Definition double_field (dbus_map : sdbus_variant_map) (key : string)
  : Result (option float) :=
  match dbus_map !! key with
  | None => Ok None
  | Some (V_double d) => Ok (Some d)
  | Some _ => throw sdbus_Error
  end.

(** What an accessor of a decoded record returns for a field that was
    or was not reported. *)
Definition reported {A : Type} (field : option A) : Result A :=
  match field with
  | Some a => Ok a
  | None => throw std_out_of_range
  end.

(** A raw hexadecimal field: absent, a string that [std::stoul]
    converts or on which it throws, or a value that is not a string. *)
Definition hex_field (dbus_map : sdbus_variant_map) (key : string)
  : Result (option Z) :=
  match dbus_map !! key with
  | None => Ok None
  | Some (V_string hex) => Some <$> Cstd.stoul16 hex
  | Some _ => throw sdbus_Error
  end.

(** The raw [operator-id], split. *)
Definition plmn_field (dbus_map : sdbus_variant_map) : Result (option (string * string)) :=
  match dbus_map !! "operator-id" with
  | None => Ok None
  | Some (V_string plmn) => Some <$> LocationBase.plmn_to_mcc_mnc plmn
  | Some _ => throw sdbus_Error
  end.

(** [static_cast<uint32_t>] and [static_cast<uint16_t>] of an
    [unsigned long]. *)
Definition to_uint32 (n : Z) : Z := n mod 2 ^ 32.
Definition to_uint16 (n : Z) : Z := n mod 2 ^ 16.

(** A raw flag and a raw 32-bit number. *)
Definition bool_field (dbus_map : sdbus_variant_map) (key : string)
  : Result (option bool) :=
  match dbus_map !! key with
  | None => Ok None
  | Some (V_bool b) => Ok (Some b)
  | Some _ => throw sdbus_Error
  end.

Definition uint32_field (dbus_map : sdbus_variant_map) (key : string)
  : Result (option Z) :=
  match dbus_map !! key with
  | None => Ok None
  | Some (V_uint32 n) => Ok (Some n)
  | Some _ => throw sdbus_Error
  end.

(** The records one entry of the reply of [GetCellInfo] stands for: one
    for an LTE or a 5GNR cell, none for a cell of another type. *)
Definition entry_records (res : sdbus_variant_map) : Result (list CellInfo) :=
  match res !! "cell-type" with
  | None => throw std_out_of_range
  | Some (V_uint32 cell_type) =>
      if cell_type =? CellInfoList.MM_CELL_TYPE_LTE
      then (fun lte => [lte]) <$> CellInfoLTE.from_variant_map res
      else if cell_type =? CellInfoList.MM_CELL_TYPE_5GNR
           then (fun nr => [nr]) <$> CellInfoNR5G.from_variant_map res
           else Ok []
  | Some _ => throw sdbus_Error
  end.

(** The raw IP configuration holds the five fields of [c], each with
    the type [get_ip_config] reads it at. *)
Definition ip_fields (result : sdbus_variant_map) (c : Connection.IPConfig) : Prop :=
  result !! "address" = Some (V_string (Connection.address c))
  ∧ result !! "prefix" = Some (V_uint32 (Connection.prefix c))
  ∧ result !! "gateway" = Some (V_string (Connection.gateway c))
  ∧ result !! "dns1" = Some (V_string (Connection.dns1 c))
  ∧ result !! "dns2" = Some (V_string (Connection.dns2 c)).

Definition ip_keys : list string := ["address"; "prefix"; "gateway"; "dns1"; "dns2"]%string.

(** The record with its technology tag replaced by NR5G. *)
Definition retag_NR5G (m : AnyMap.t) : AnyMap.t :=
  map (fun kv => if String.eqb (fst kv) "tech"
                 then (fst kv, any_Technology NR5G) else kv) m.

(** ** Location strings *)

Fixpoint all_chars (p : ascii -> bool) (s : string) : bool :=
  match s with
  | EmptyString => true
  | String c s' => p c && all_chars p s'
  end.

Definition is_hex (c : ascii) : bool :=
  match Cstd.hex_digit_value c with
  | Some _ => true
  | None => false
  end.

(** A field of one to three decimal digits, and a non-empty field of
    hexadecimal digits. *)
Definition decimal_text (s : string) : Prop :=
  all_chars Cstd.isdigit s = true ∧ (1 <= String.length s <= 3)%nat.

Definition hex_text (s : string) : Prop :=
  all_chars is_hex s = true ∧ (1 <= String.length s)%nat.

(** The value of a run of hexadecimal digits, and what [%X] stores for
    it in an [unsigned int]. *)
Definition hex_value (h : string) : Z := fst (fst (Cstd.hex_digits h 0 0)).

Definition scanned (h : string) : Z :=
  fst (Cstd.strtoul_value false (hex_value h)) mod 2 ^ 32.

(** The 3GPP location string of ModemManager: [MCC,MNC,LAC,CI,TAC]. *)
Definition location_string (mcc mnc lac ci tac : string) : string :=
  mcc +:+ String "," (mnc +:+ String "," (lac +:+ String "," (ci +:+ String "," tac))).

(** What follows a field: the end of the string or a comma. *)
Definition field_end (rest : string) : Prop :=
  rest = EmptyString ∨ exists r, rest = String "," r.

(** The access technology codes [technology()] knows. *)
Definition known_access_technologies : list Z :=
  [MM.MM_MODEM_ACCESS_TECHNOLOGY_GSM; MM.MM_MODEM_ACCESS_TECHNOLOGY_GSM_COMPACT;
   MM.MM_MODEM_ACCESS_TECHNOLOGY_GPRS; MM.MM_MODEM_ACCESS_TECHNOLOGY_EDGE;
   MM.MM_MODEM_ACCESS_TECHNOLOGY_UMTS; MM.MM_MODEM_ACCESS_TECHNOLOGY_HSDPA;
   MM.MM_MODEM_ACCESS_TECHNOLOGY_HSUPA; MM.MM_MODEM_ACCESS_TECHNOLOGY_HSPA;
   MM.MM_MODEM_ACCESS_TECHNOLOGY_HSPA_PLUS; MM.MM_MODEM_ACCESS_TECHNOLOGY_LTE;
   MM.MM_MODEM_ACCESS_TECHNOLOGY_5GNR].

(** The raw map of a cell whose operator, cell identity and tracking
    area are those of a location string. *)
Definition location_map (mcc mnc ci tac : string) : sdbus_variant_map :=
  {[ "operator-id" := V_string (mcc +:+ mnc); "ci" := V_string ci; "tac" := V_string tac ]}.

(** ** IP configuration: the fields in the order they are read *)

Inductive field_status : Type := field_ok | field_missing | field_ill_typed.

(** [prefix] is read as a [uint32_t], the other fields as strings. *)
Definition ip_field_status (result : sdbus_variant_map) (key : string) : field_status :=
  match result !! key with
  | None => field_missing
  | Some v =>
      if String.eqb key "prefix"
      then match v with V_uint32 _ => field_ok | _ => field_ill_typed end
      else match v with V_string _ => field_ok | _ => field_ill_typed end
  end.

(** The status of the first field, in reading order, that is not as
    expected; [field_ok] when all are. *)
Fixpoint first_problem_in (keys : list string) (result : sdbus_variant_map) : field_status :=
  match keys with
  | [] => field_ok
  | key :: rest =>
      match ip_field_status result key with
      | field_ok => first_problem_in rest result
      | st => st
      end
  end.

Definition first_problem (result : sdbus_variant_map) : field_status :=
  first_problem_in ip_keys result.

(** * Properties *)

(** ** The model on small inputs *)

Example stoul16_digits : Cstd.stoul16 "1A2B" = Ok 0x1A2B.
Proof. reflexivity. Qed.

Example stoul16_prefix_and_rest : Cstd.stoul16 "  0x1fz" = Ok 31.
Proof. reflexivity. Qed.

Example stoul16_minus : Cstd.stoul16 "-1" = Ok Cstd.ULONG_MAX.
Proof. reflexivity. Qed.

Example stoul16_no_digits : Cstd.stoul16 "zz" = throw std_invalid_argument.
Proof. reflexivity. Qed.

Example stoul16_empty : Cstd.stoul16 "" = throw std_invalid_argument.
Proof. reflexivity. Qed.

Example stoul16_too_large : Cstd.stoul16 "10000000000000000" = throw std_out_of_range.
Proof. reflexivity. Qed.

Example location_format_directives :
  Cstd.parse_format (String.length Modem.location_format) Modem.location_format
  = [Cstd.conv_digits 3; Cstd.literal ","; Cstd.conv_digits 3; Cstd.literal ",";
     Cstd.conv_hex true; Cstd.literal ","; Cstd.conv_hex false; Cstd.literal ",";
     Cstd.conv_hex false].
Proof. reflexivity. Qed.

Example sscanf_three_fields :
  Cstd.sscanf "262,01,1A2B" Modem.location_format
  = (2, [Cstd.arg_chars "262"; Cstd.arg_chars "01"]).
Proof. reflexivity. Qed.

Example sscanf_four_fields :
  Cstd.sscanf "262,01,A1B2,112233" Modem.location_format
  = (3, [Cstd.arg_chars "262"; Cstd.arg_chars "01"; Cstd.arg_unsigned 0x112233]).
Proof. reflexivity. Qed.

Example sscanf_long_mcc :
  Cstd.sscanf "2621,01,1A2B,A1B2,112233" Modem.location_format
  = (1, [Cstd.arg_chars "262"]).
Proof. reflexivity. Qed.

Example sscanf_empty_input : Cstd.sscanf "" Modem.location_format = (Cstd.EOF, []).
Proof. reflexivity. Qed.

Example sscanf_prefix_with_digits :
  Cstd.sscanf "262,01,0x1A2B,0xA1B2,0X112233" Modem.location_format
  = (4, [Cstd.arg_chars "262"; Cstd.arg_chars "01";
         Cstd.arg_unsigned 0xA1B2; Cstd.arg_unsigned 0x112233]).
Proof. reflexivity. Qed.

Example sscanf_bare_prefix :
  Cstd.sscanf "262,01,1A2B,0x,5" Modem.location_format
  = (4, [Cstd.arg_chars "262"; Cstd.arg_chars "01";
         Cstd.arg_unsigned 0; Cstd.arg_unsigned 5]).
Proof. reflexivity. Qed.

Example sscanf_bare_prefix_after_sign :
  Cstd.sscanf "262,01,-0X,+0x,7" Modem.location_format
  = (4, [Cstd.arg_chars "262"; Cstd.arg_chars "01";
         Cstd.arg_unsigned 0; Cstd.arg_unsigned 7]).
Proof. reflexivity. Qed.

Example sscanf_sign_alone :
  Cstd.sscanf "262,01,1A2B,-,5" Modem.location_format
  = (2, [Cstd.arg_chars "262"; Cstd.arg_chars "01"]).
Proof. reflexivity. Qed.

Example parse_location_bare_prefix :
  Modem.parse_location "262,01,1A2B,0x,5" LocationLTE.ctor
  = Some [("ci", any_uint32 0); ("mcc", any_string "262"); ("mnc", any_string "01");
          ("tac", any_uint32 5); ("tech", any_Technology LTE)].
Proof. reflexivity. Qed.

Example keys_of_two_entries :
  AnyMap.keys (AnyMap.insert "rsrp" (any_double 1) (SignalBase.ctor LTE))
  = [""; ""; "rsrp"; "tech"]%string.
Proof. reflexivity. Qed.

Example insert_keeps_first_value :
  AnyMap.insert "tech" (any_Technology NR5G) (SignalBase.ctor LTE) = SignalBase.ctor LTE.
Proof. reflexivity. Qed.

Example assert_state_locked :
  Modem.assert_state_message Modem.ModemState.LOCKED Modem.ModemState.DISABLED
    "change power state"
  = "can't change power state: modem state is 'LOCKED', but needs to be at least 'DISABLED'."%string.
Proof. reflexivity. Qed.

Example remove_if_first_of_three :
  ModemManagerOMProxy.remove_if (ModemManagerOMProxy.same_path "/a")
    (map ModemManagerOMProxy.Modem_ctor ["/a"; "/b"; "/c"]%string)
  = Some ([ModemManagerOMProxy.Modem_ctor "/b"; ModemManagerOMProxy.Modem_ctor "/c";
           ModemManagerOMProxy.moved_from], 2%nat).
Proof. reflexivity. Qed.

(** Once a moved-from modem is in the vector the predicate reaches it
    and dereferences its null proxy. *)
Example remove_if_after_a_removal :
  ModemManagerOMProxy.remove_if (ModemManagerOMProxy.same_path "/b")
    [ModemManagerOMProxy.Modem_ctor "/b"; ModemManagerOMProxy.moved_from]
  = None
  ∧ ModemManagerOMProxy.remove_if (ModemManagerOMProxy.same_path "/c")
      [ModemManagerOMProxy.Modem_ctor "/b"; ModemManagerOMProxy.moved_from]
    = None.
Proof. split; reflexivity. Qed.

(** ** The attribute bag *)

Section AnyMap_facts.
Import AnyMap.

Lemma any_cast_make_any (T : cpp_type) (v : value T) :
  any_cast T (make_any T v) = Ok v.
Proof. destruct T; reflexivity. Qed.

Lemma any_cast_mismatch (T : cpp_type) (a : any) :
  type_of a ≠ T -> any_cast T a = throw std_bad_any_cast.
Proof. destruct T, a; simpl; intros H; try reflexivity; congruence. Qed.

Lemma type_of_make_any (T : cpp_type) (a : any) :
  type_of a = T -> exists v : value T, a = make_any T v.
Proof. intros <-. destruct a; simpl; eexists; reflexivity. Qed.

(** Appending the keys one by one appends the list of keys. *)
Lemma push_back_keys (m : t) (ks : list string) :
  fold_left (fun ks kv => ks ++ [fst kv]) m ks = ks ++ map fst m.
Proof.
  revert ks. induction m as [|kv m IH]; intros ks; simpl.
  - by rewrite app_nil_r.
  - rewrite IH. by rewrite <- app_assoc.
Qed.

Lemma keys_unfold (m : t) :
  keys m = replicate (size m) EmptyString ++ map fst m.
Proof. unfold keys. apply push_back_keys. Qed.

Lemma compare_lt_trans (a b c : string) :
  String.compare a b = Lt -> String.compare b c = Lt -> String.compare a c = Lt.
Proof.
  intros H1 H2.
  apply String_as_OT.cmp_lt. apply String_as_OT.cmp_lt in H1, H2.
  eapply String_as_OT.lt_trans; eassumption.
Qed.

Lemma compare_gt_lt (a b : string) :
  String.compare a b = Gt -> String.compare b a = Lt.
Proof. intros H. rewrite String.compare_antisym, H. reflexivity. Qed.

Lemma insert_Forall (P : string * any -> Prop) (key : string) (v : any) (m : t) :
  P (key, v) -> Forall P m -> Forall P (insert key v m).
Proof.
  intros Hk. induction 1 as [|[k w] m Hx Hm IH]; simpl.
  - by constructor.
  - destruct (String.compare key k); repeat constructor; auto.
Qed.

Lemma insert_ordered (key : string) (v : any) (m : t) :
  ordered m -> ordered (insert key v m).
Proof.
  unfold ordered. induction 1 as [|[k w] m Hs IH Hall]; simpl.
  - repeat constructor.
  - destruct (String.compare key k) eqn:E.
    + by constructor.
    + constructor; [by constructor|].
      constructor; [exact E|].
      eapply Forall_impl; [exact Hall|].
      intros [k' w'] Hlt. unfold key_lt in *; simpl in *.
      eapply compare_lt_trans; eassumption.
    + constructor; [exact IH|].
      apply insert_Forall; [|exact Hall].
      unfold key_lt; simpl. by apply compare_gt_lt.
Qed.

Lemma find_insert_other (key key' : string) (v : any) (m : t) :
  key ≠ key' -> find key' (insert key v m) = find key' m.
Proof.
  intros Hne. induction m as [|[k w] m IH]; simpl.
  - destruct (String.eqb_spec key' key); congruence.
  - destruct (String.compare key k) eqn:E; simpl.
    + reflexivity.
    + destruct (String.eqb_spec key' key); congruence.
    + by rewrite IH.
Qed.

Lemma find_insert_absent (key : string) (v : any) (m : t) :
  find key m = None -> find key (insert key v m) = Some v.
Proof.
  induction m as [|[k w] m IH]; simpl.
  - by rewrite String.eqb_refl.
  - destruct (String.eqb_spec key k) as [->|Hne]; [discriminate|].
    intros Hm. destruct (String.compare key k) eqn:E; simpl.
    + apply String.compare_eq_iff in E. congruence.
    + by rewrite String.eqb_refl.
    + destruct (String.eqb_spec key k); [congruence|]. by apply IH.
Qed.

Lemma find_below (key : string) (v : any) (m : t) :
  Forall (key_lt (key, v)) m -> find key m = None.
Proof.
  induction 1 as [|[k w] m Hlt Hall IH]; simpl; [reflexivity|].
  destruct (String.eqb_spec key k) as [->|Hne]; [|exact IH].
  unfold key_lt in Hlt; simpl in Hlt.
  assert (String.compare k k = Eq) by (by apply String_as_OT.cmp_eq).
  congruence.
Qed.

(** [insert] does not replace the value of a key that is present. *)
Lemma insert_present (key : string) (v w : any) (m : t) :
  ordered m -> find key m = Some w -> insert key v m = m.
Proof.
  unfold ordered. induction 1 as [|[k u] m Hs IH Hall]; simpl; [discriminate|].
  destruct (String.eqb_spec key k) as [->|Hne].
  - intros _. replace (String.compare k k) with Eq; [reflexivity|].
    symmetry. by apply String_as_OT.cmp_eq.
  - intros Hm. destruct (String.compare key k) eqn:E.
    + reflexivity.
    + rewrite (find_below key v m) in Hm; [discriminate|].
      eapply Forall_impl; [exact Hall|].
      intros [k' w'] Hlt. unfold key_lt in *; simpl in *.
      eapply compare_lt_trans; eassumption.
    + by rewrite IH.
Qed.

Lemma returns_ordered_Ok (m : t) : ordered m -> returns_ordered (Ok m).
Proof. intros H m' [= <-]. exact H. Qed.

Lemma returns_ordered_bind {A : Type} (r : Result A) (k : A -> Result t) :
  (forall a, r = Ok a -> returns_ordered (k a)) -> returns_ordered (rbind r k).
Proof. intros H m. destruct r as [e|a]; simpl; [discriminate|]. by apply H. Qed.

Lemma returns_ordered_step (r : Result t) (k : t -> Result t) :
  returns_ordered r -> (forall m, ordered m -> returns_ordered (k m)) ->
  returns_ordered (rbind r k).
Proof. intros Hr Hk. apply returns_ordered_bind. intros a Ha. apply Hk. by apply Hr. Qed.

Lemma returns_ordered_hex (dbus_map : sdbus_variant_map) (key as_key : string)
    (wrap : Z -> any) (m : t) :
  ordered m ->
  returns_ordered
    match dbus_map !! key with
    | Some it =>
        rbind (Variant_get_string it)
          (fun hex => rbind (Cstd.stoul16 hex) (fun n => Ok (insert as_key (wrap n) m)))
    | None => Ok m
    end.
Proof.
  intros Hm. destruct (dbus_map !! key) as [it|]; [|by apply returns_ordered_Ok].
  apply returns_ordered_bind. intros hex _.
  apply returns_ordered_bind. intros n _.
  apply returns_ordered_Ok. by apply insert_ordered.
Qed.

Lemma maybe_insert_double_ordered (dbus_map : sdbus_variant_map) (from_key as_key : string)
    (m : t) :
  ordered m ->
  returns_ordered (maybe_insert_from_variant_map_as_double dbus_map from_key as_key m).
Proof.
  intros Hm. unfold maybe_insert_from_variant_map_as_double.
  destruct (dbus_map !! from_key) as [it|]; [|by apply returns_ordered_Ok].
  apply returns_ordered_bind. intros d _.
  apply returns_ordered_Ok. by apply insert_ordered.
Qed.

Lemma ctor_ordered (tech : Technology) : ordered (SignalBase.ctor tech).
Proof. repeat constructor. Qed.

Lemma SignalLTE_ordered (dbus_map : sdbus_variant_map) :
  returns_ordered (SignalLTE.from_variant_map dbus_map).
Proof.
  unfold SignalLTE.from_variant_map, mbind, Result_bind. simpl.
  repeat (apply returns_ordered_step;
          [apply (maybe_insert_double_ordered dbus_map _ _); try assumption;
           apply ctor_ordered
          |intros ? ?]).
  by apply returns_ordered_Ok.
Qed.

Lemma LocationLTE_fill_ordered (dbus_map : sdbus_variant_map) (this : t) :
  ordered this -> returns_ordered (LocationLTE.fill_from_variant_map dbus_map this).
Proof.
  intros Hthis.
  unfold LocationLTE.fill_from_variant_map, LocationBase.fill_from_variant_map,
    mbind, Result_bind.
  apply returns_ordered_step.
  - apply returns_ordered_step.
    + destruct (dbus_map !! "operator-id") as [it|]; [|by apply returns_ordered_Ok].
      apply returns_ordered_bind. intros plmn _.
      apply returns_ordered_bind. intros [mcc mnc] _.
      apply returns_ordered_Ok. by do 2 apply insert_ordered.
    + intros m Hm.
      apply (returns_ordered_hex dbus_map "ci" "ci" (fun n => any_uint32 (n mod 2 ^ 32)) m Hm).
  - intros m Hm.
    apply (returns_ordered_hex dbus_map "tac" "tac" (fun n => any_uint32 (n mod 2 ^ 32)) m Hm).
Qed.

End AnyMap_facts.

(** C7.  The contract of the typed accessors, for every bag [m], key
    and type [T]: when the key is absent [get<T>] throws
    [std::out_of_range] (the missing-key error); when the stored value
    has another type it throws [std::bad_any_cast] (the type-mismatch
    error); otherwise it returns the stored value.  [get_or_default<T>]
    always returns: the stored value when it is present with type [T],
    the fallback otherwise.  In particular the signal record decoded
    from a raw map that holds only [rsrp = -95.0] has [rsrp() = -95.0],
    [rsrq()] throws [std::out_of_range], and
    [get_or_default("rsrq", 0.0) = 0.0]. *)
Theorem get_contract (T : cpp_type) (key : string) (default_ : AnyMap.value T) (m : AnyMap.t) :
  match AnyMap.find key m with
  | None =>
      AnyMap.get T key m = throw std_out_of_range
      ∧ AnyMap.get_or_default T key default_ m = Ok default_
  | Some a =>
      if decide (AnyMap.type_of a = T) then
        exists v : AnyMap.value T,
          a = AnyMap.make_any T v
          ∧ AnyMap.get T key m = Ok v
          ∧ AnyMap.get_or_default T key default_ m = Ok v
      else
        AnyMap.get T key m = throw std_bad_any_cast
        ∧ AnyMap.get_or_default T key default_ m = Ok default_
  end
  ∧ exists sq : AnyMap.t,
      Modem.dbus_signal_to_Signal LTE {[ "rsrp" := V_double (-95)%float ]} = Ok (Some sq)
      ∧ SignalLTE.rsrp sq = Ok (-95)%float
      ∧ SignalLTE.rsrq sq = throw std_out_of_range
      ∧ AnyMap.get_or_default T_double "rsrq" 0%float sq = Ok 0%float.
Proof.
  split.
  - unfold AnyMap.get, AnyMap.get_or_default, AnyMap.at_.
    destruct (AnyMap.find key m) as [a|]; simpl; [|split; reflexivity].
    destruct (decide (AnyMap.type_of a = T)) as [HT|HT].
    + destruct (type_of_make_any T a HT) as [v ->].
      exists v. rewrite any_cast_make_any. repeat split; reflexivity.
    + rewrite (any_cast_mismatch T a HT). split; reflexivity.
  - eexists. split; [vm_compute; reflexivity|].
    repeat split; vm_compute; reflexivity.
Qed.

(** C10.  For a bag with [n] entries, [keys()] has length [2 * n]: its
    first [n] elements are empty strings, from the vector being
    constructed with [size()] elements, and the [n] stored keys follow
    in the iteration order of the map.  It is the list of exactly the
    stored keys only for the empty bag. *)
Theorem keys_presized (m : AnyMap.t) :
  length (AnyMap.keys m) = (2 * AnyMap.size m)%nat
  ∧ take (AnyMap.size m) (AnyMap.keys m) = replicate (AnyMap.size m) EmptyString
  ∧ drop (AnyMap.size m) (AnyMap.keys m) = map fst m
  ∧ (AnyMap.keys m = map fst m <-> m = []).
Proof.
  rewrite keys_unfold. unfold AnyMap.size.
  assert (Hlen : length (replicate (length m) EmptyString) = length m)
    by apply length_replicate.
  repeat split.
  - rewrite length_app, Hlen, length_map. lia.
  - rewrite take_app_length'; [reflexivity|by rewrite Hlen].
  - rewrite drop_app_length'; [reflexivity|by rewrite Hlen].
  - intros H. apply (f_equal length) in H.
    rewrite length_app, Hlen, length_map in H.
    destruct m; [reflexivity|simpl in H; lia].
  - intros ->. reflexivity.
Qed.

(** ** The modem state guards *)

Section Modem_guards.
Import Modem.

Lemma bind_run {A B : Type} (m : M A) (k : A -> M B) (b : Bus) :
  (m ≫= k) b =
    match m b with
    | (inl e, b') => (inl e, b')
    | (inr a, b') => k a b'
    end.
Proof. reflexivity. Qed.

Lemma state_run (b : Bus) : state b = (Ok (current_state b), b).
Proof. reflexivity. Qed.

Lemma assert_state_run (required_state : Z) (required_for : string) (b : Bus) :
  assert_state required_state required_for b =
    if current_state b <? required_state
    then (throw (precondition_error b required_state required_for), b)
    else (Ok tt, b).
Proof.
  unfold assert_state. rewrite bind_run, state_run.
  destruct (current_state b <? required_state); reflexivity.
Qed.

Lemma precondition_error_head (e : exception) :
  is_precondition_error e -> exists s, e = ModemException (String "c" s).
Proof. intros (c & r & w & ->). eexists. reflexivity. Qed.

Lemma is_precondition_error_intro (b : Bus) (required : Z) (what : string) :
  is_precondition_error (precondition_error b required what).
Proof. do 3 eexists. reflexivity. Qed.

(** [assert_state] followed by a clean body rejects exactly the
    states below the required one and accepts all others. *)
Lemma guarded_exact {A : Type} (body : M A) (required : Z) (what : string) (b : Bus) :
  clean body ->
  (rejects (assert_state required what ;; body) required what b
     <-> current_state b < required)
  ∧ (accepts (assert_state required what ;; body) b
     <-> required <= current_state b).
Proof.
  intros Hclean. unfold rejects, accepts.
  rewrite bind_run, assert_state_run.
  destruct (Z.ltb_spec (current_state b) required) as [Hlt|Hge].
  - split; split.
    + intros _. exact Hlt.
    + reflexivity.
    + intros H. exfalso. eapply H; [reflexivity|].
      apply is_precondition_error_intro.
    + lia.
  - split; split.
    + intros H. exfalso.
      eapply (Hclean b); [rewrite H; reflexivity|].
      apply is_precondition_error_intro.
    + lia.
    + intros _. exact Hge.
    + intros _. apply Hclean.
Qed.

Lemma clean_callMethod (c : Call) : clean (callMethod c).
Proof. intros b e. discriminate. Qed.

Lemma clean_getProperty {A : Type} (p : Remote -> A) : clean (getProperty p).
Proof. intros b e. discriminate. Qed.

Lemma clean_mret {A : Type} (a : A) : clean (mret a : M A).
Proof. intros b e. discriminate. Qed.

Lemma clean_bind {A B : Type} (m : M A) (k : A -> M B) :
  clean m -> (forall a, clean (k a)) -> clean (m ≫= k).
Proof.
  intros Hm Hk b e. rewrite bind_run.
  destruct (m b) as [[e'|a] b'] eqn:E.
  - simpl. intros [= ->]. apply (Hm b). by rewrite E.
  - apply Hk.
Qed.

Lemma clean_liftR {A : Type} (r : Result A) :
  (forall e, r = throw e -> ~ is_precondition_error e) -> clean (liftR r).
Proof. intros H b e. simpl. apply H. Qed.

Lemma clean_throwM {A : Type} (e : exception) :
  ~ is_precondition_error e -> clean (throwM e : M A).
Proof. intros H b e'. simpl. intros [= <-]. exact H. Qed.

Lemma unsupported_signal_not_precondition :
  ~ is_precondition_error unsupported_signal.
Proof. intros H. apply precondition_error_head in H as [s H]. discriminate. Qed.

Lemma sdbus_Error_not_precondition : ~ is_precondition_error sdbus_Error.
Proof. intros H. apply precondition_error_head in H as [s H]. discriminate. Qed.

Lemma rbind_throw {A B : Type} (r : Result A) (k : A -> Result B) (e : exception) :
  (forall e', r = inl e' -> e' = sdbus_Error) ->
  (forall a e', k a = inl e' -> e' = sdbus_Error) ->
  rbind r k = inl e -> e = sdbus_Error.
Proof.
  intros Hr Hk. destruct r as [e'|a]; simpl.
  - intros [= <-]. by apply Hr.
  - apply Hk.
Qed.

Lemma Variant_get_double_throw (v : Variant) (e : exception) :
  Variant_get_double v = inl e -> e = sdbus_Error.
Proof. destruct v; simpl; congruence. Qed.

Lemma maybe_insert_double_throw (dbus_map : sdbus_variant_map) (from_key as_key : string)
    (m : AnyMap.t) (e : exception) :
  AnyMap.maybe_insert_from_variant_map_as_double dbus_map from_key as_key m = inl e ->
  e = sdbus_Error.
Proof.
  unfold AnyMap.maybe_insert_from_variant_map_as_double.
  destruct (dbus_map !! from_key) as [v|]; [|discriminate].
  destruct v; simpl; congruence.
Qed.

Lemma maybe_insert_double_throw' (dbus_map : sdbus_variant_map) (key : string)
    (m : AnyMap.t) (e : exception) :
  AnyMap.maybe_insert_from_variant_map_double dbus_map key m = inl e ->
  e = sdbus_Error.
Proof. apply (maybe_insert_double_throw dbus_map key key). Qed.

Lemma SignalLTE_throw (dbus_map : sdbus_variant_map) (e : exception) :
  SignalLTE.from_variant_map dbus_map = inl e -> e = sdbus_Error.
Proof.
  unfold SignalLTE.from_variant_map, mbind, Result_bind. simpl.
  repeat (apply rbind_throw;
          [intros ?;
           first [apply maybe_insert_double_throw'|apply maybe_insert_double_throw]
          |intros ? ?]).
  discriminate.
Qed.

Lemma SignalNR5G_throw (dbus_map : sdbus_variant_map) (e : exception) :
  SignalNR5G.from_variant_map dbus_map = inl e -> e = sdbus_Error.
Proof.
  unfold SignalNR5G.from_variant_map, mbind, Result_bind. simpl.
  repeat (apply rbind_throw;
          [intros ?;
           first [apply maybe_insert_double_throw'|apply maybe_insert_double_throw]
          |intros ? ?]).
  discriminate.
Qed.

Lemma dbus_signal_to_Signal_throw (tech : Technology) (m : sdbus_variant_map) (e : exception) :
  dbus_signal_to_Signal tech m = inl e -> e = sdbus_Error ∨ e = unsupported_signal.
Proof.
  unfold dbus_signal_to_Signal, try_catch_out_of_range.
  destruct tech; simpl; try (intros [= <-]; by right).
  - destruct (SignalLTE.from_variant_map m) as [e'|a] eqn:E; simpl; [|discriminate].
    apply SignalLTE_throw in E as ->. intros [= <-]. by left.
  - destruct (SignalNR5G.from_variant_map m) as [e'|a] eqn:E; simpl; [|discriminate].
    apply SignalNR5G_throw in E as ->. intros [= <-]. by left.
Qed.

Lemma clean_technology : clean technology.
Proof. apply clean_bind; [apply clean_getProperty|intros; apply clean_mret]. Qed.

Lemma clean_signal_body (tech : Technology) (m : sdbus_variant_map) :
  clean (liftR (dbus_signal_to_Signal tech m)).
Proof.
  apply clean_liftR. intros e H.
  apply dbus_signal_to_Signal_throw in H as [->| ->].
  - apply sdbus_Error_not_precondition.
  - apply unsupported_signal_not_precondition.
Qed.

Lemma clean_dbus_location_to_Location (location_dict : gmap Z Variant) :
  clean (dbus_location_to_Location location_dict).
Proof.
  unfold dbus_location_to_Location.
  destruct (location_dict !! _) as [it|]; [|apply clean_mret].
  apply clean_bind.
  - apply clean_liftR. intros e H. destruct it; simpl in H; try discriminate;
      injection H as <-; apply sdbus_Error_not_precondition.
  - intros loc_data. apply clean_bind; [apply clean_technology|].
    intros rat. destruct (decide (rat = LTE)); [apply clean_mret|].
    destruct (decide (rat ≠ NR5G)); [|apply clean_mret].
    apply clean_bind; [|intros; apply clean_mret].
    apply clean_liftR. discriminate.
Qed.

Lemma set_power_state_guard (power_state : Z) (b : Bus) :
  guard_exact (set_power_state power_state) ModemState.DISABLED "change power state" b.
Proof. apply guarded_exact. apply clean_callMethod. Qed.

Lemma signal_guard (b : Bus) :
  guard_exact signal ModemState.REGISTERED "access signal quality" b.
Proof.
  apply guarded_exact.
  apply clean_bind; [apply clean_getProperty|intros rate].
  apply clean_bind.
  { destruct (rate =? 0); [apply clean_callMethod|apply clean_mret]. }
  intros _. apply clean_bind; [apply clean_technology|intros tech].
  destruct tech;
    try (apply clean_throwM; apply unsupported_signal_not_precondition);
    (apply clean_bind; [apply clean_getProperty|intros; apply clean_signal_body]).
Qed.

Lemma observe_signal_guard (interval_sec : Z) (b : Bus) :
  guard_exact (observe_signal interval_sec) ModemState.REGISTERED "observe signal quality" b.
Proof.
  apply guarded_exact.
  apply clean_bind; [apply clean_callMethod|intros; apply clean_callMethod].
Qed.

Lemma location_guard (b : Bus) :
  guard_exact location ModemState.REGISTERED "access cell location" b.
Proof.
  apply guarded_exact.
  apply clean_bind; [apply clean_callMethod|intros _].
  apply clean_bind; [apply clean_getProperty|intros].
  apply clean_dbus_location_to_Location.
Qed.

Lemma observe_location_guard (b : Bus) :
  guard_exact observe_location ModemState.REGISTERED "observe cell location" b.
Proof.
  apply guarded_exact.
  apply clean_bind; [apply clean_callMethod|intros; apply clean_callMethod].
Qed.

Lemma network_time_guard (b : Bus) :
  guard_exact network_time ModemState.ENABLED "get network time" b.
Proof.
  apply guarded_exact.
  apply clean_bind; [apply clean_callMethod|intros; apply clean_getProperty].
Qed.

End Modem_guards.

(** C6.  For every modem state [a] (the state the bus reports):
    [registered()] returns true iff [a >= REGISTERED], [enabled()]
    returns true iff [a >= ENABLED], [connected()] returns true iff
    [a = CONNECTED]; and every operation that is guarded by
    [assert_state] (the three power operations, [signal],
    [observe_signal], [location], [observe_location], [network_time])
    fails with the precondition error exactly in the states strictly
    below its required state, and gets past the guard in all states at
    or above it. *)
Theorem state_predicates_and_guards (b : Modem.Bus) (interval_sec : Z) :
  (exists r, Modem.registered b = (Ok r, b)
     ∧ (r = true <-> Modem.ModemState.REGISTERED <= current_state b))
  ∧ (exists r, Modem.enabled b = (Ok r, b)
     ∧ (r = true <-> Modem.ModemState.ENABLED <= current_state b))
  ∧ (exists r, Modem.connected b = (Ok r, b)
     ∧ (r = true <-> current_state b = Modem.ModemState.CONNECTED))
  ∧ guard_exact Modem.power_off Modem.ModemState.DISABLED "change power state" b
  ∧ guard_exact Modem.power_low Modem.ModemState.DISABLED "change power state" b
  ∧ guard_exact Modem.power_on Modem.ModemState.DISABLED "change power state" b
  ∧ guard_exact Modem.signal Modem.ModemState.REGISTERED "access signal quality" b
  ∧ guard_exact (Modem.observe_signal interval_sec)
      Modem.ModemState.REGISTERED "observe signal quality" b
  ∧ guard_exact Modem.location Modem.ModemState.REGISTERED "access cell location" b
  ∧ guard_exact Modem.observe_location
      Modem.ModemState.REGISTERED "observe cell location" b
  ∧ guard_exact Modem.network_time Modem.ModemState.ENABLED "get network time" b.
Proof.
  repeat match goal with |- _ ∧ _ => split end.
  - eexists. split; [reflexivity|]. fold (current_state b). apply Z.leb_le.
  - eexists. split; [reflexivity|]. fold (current_state b). apply Z.leb_le.
  - eexists. split; [reflexivity|]. fold (current_state b). apply Z.eqb_eq.
  - apply set_power_state_guard.
  - apply set_power_state_guard.
  - apply set_power_state_guard.
  - apply signal_guard.
  - apply observe_signal_guard.
  - apply location_guard.
  - apply observe_location_guard.
  - apply network_time_guard.
Qed.

(** ** Power operations and location decoding on concrete modems *)

Section Modem_scenarios.
Import Modem.

Lemma set_power_state_run (power_state : Z) (b : Bus) :
  set_power_state power_state b =
    if current_state b <? ModemState.DISABLED
    then (throw (precondition_error b ModemState.DISABLED "change power state"), b)
    else (Ok tt, {| remote := remote b; sent := sent b ++ [SetPowerState power_state] |}).
Proof.
  unfold set_power_state. rewrite bind_run, assert_state_run.
  destruct (current_state b <? ModemState.DISABLED); reflexivity.
Qed.

Lemma technology_run (b : Bus) : technology b = (Ok (current_technology b), b).
Proof. reflexivity. Qed.

Lemma LocationNR5G_ctor_run :
  LocationNR5G.ctor = Ok [("tech", any_Technology NR5G)].
Proof. reflexivity. Qed.

(** What [dbus_location_to_Location] does with a string entry, by
    technology. *)
Lemma dbus_location_to_Location_run (s : string) (dict : gmap Z Variant) (b : Bus) :
  dbus_location_to_Location (lac_ci_reply s dict) b =
    (Ok match current_technology b with
        | LTE => parse_location s LocationLTE.ctor
        | NR5G => None
        | _ => parse_location s [("tech", any_Technology NR5G)]
        end, b).
Proof.
  unfold dbus_location_to_Location, lac_ci_reply.
  rewrite lookup_insert_eq. rewrite bind_run. simpl.
  rewrite bind_run, technology_run.
  destruct (current_technology b); reflexivity.
Qed.

End Modem_scenarios.

(** C2.  The claim is that [power_off], [power_low] and [power_on]
    are accepted only in state [DISABLED].  The code's guard is
    [assert_state(DISABLED)], which only rejects the states below
    [DISABLED]: in every state at or above it the remote
    [SetPowerState] call is issued.  On a modem in state [ENABLED],
    [power_off()] throws nothing and sends [SetPowerState(OFF)]; on a
    connected modem, so does [power_on()] with [ON]. *)
Theorem power_state_accepted_above_disabled (r : Modem.Remote) (log : list Modem.Call) :
  (forall power_state b,
     Modem.set_power_state power_state b =
       if current_state b <? Modem.ModemState.DISABLED
       then (throw (precondition_error b Modem.ModemState.DISABLED "change power state"), b)
       else (Ok tt, {| Modem.remote := Modem.remote b;
                       Modem.sent := Modem.sent b ++ [Modem.SetPowerState power_state] |}))
  ∧ Modem.power_off
      {| Modem.remote := with_State Modem.ModemState.ENABLED r; Modem.sent := log |}
    = (Ok tt,
       {| Modem.remote := with_State Modem.ModemState.ENABLED r;
          Modem.sent := log ++ [Modem.SetPowerState Modem.PowerState.OFF] |})
  ∧ Modem.power_on
      {| Modem.remote := with_State Modem.ModemState.CONNECTED r; Modem.sent := log |}
    = (Ok tt,
       {| Modem.remote := with_State Modem.ModemState.CONNECTED r;
          Modem.sent := log ++ [Modem.SetPowerState Modem.PowerState.ON] |}).
Proof.
  split; [apply set_power_state_run|].
  split; reflexivity.
Qed.

(** C4.  The claim is that location decoding yields a typed record for
    LTE and for NR5G, and nothing for every other technology.  In
    [dbus_location_to_Location] the second test is [rat != NR5G]: with
    technology NR5G the result is the null pointer, and with GSM, UMTS
    or an unknown technology the ModemManager string is decoded into a
    record tagged NR5G.  Only the LTE case is as claimed.  This holds
    for every location string; the example string is evaluated for
    each technology. *)
Theorem location_dispatch_by_technology
    (r : Modem.Remote) (log : list Modem.Call) (dict : gmap Z Variant) :
  let on mm_tech := {| Modem.remote := with_AccessTechnologies mm_tech r; Modem.sent := log |} in
  let decoded tech :=
    Some [("ci", any_uint32 0xA1B2); ("mcc", any_string "262"); ("mnc", any_string "01");
          ("tac", any_uint32 0x112233); ("tech", any_Technology tech)] in
  (forall s b,
     Modem.dbus_location_to_Location (lac_ci_reply s dict) b =
       (Ok match current_technology b with
           | LTE => Modem.parse_location s LocationLTE.ctor
           | NR5G => None
           | _ => Modem.parse_location s [("tech", any_Technology NR5G)]
           end, b))
  ∧ fst (Modem.dbus_location_to_Location (lac_ci_reply example_location dict)
           (on MM.MM_MODEM_ACCESS_TECHNOLOGY_LTE)) = Ok (decoded LTE)
  ∧ fst (Modem.dbus_location_to_Location (lac_ci_reply example_location dict)
           (on MM.MM_MODEM_ACCESS_TECHNOLOGY_5GNR)) = Ok None
  ∧ fst (Modem.dbus_location_to_Location (lac_ci_reply example_location dict)
           (on MM.MM_MODEM_ACCESS_TECHNOLOGY_GSM)) = Ok (decoded NR5G)
  ∧ fst (Modem.dbus_location_to_Location (lac_ci_reply example_location dict)
           (on MM.MM_MODEM_ACCESS_TECHNOLOGY_UMTS)) = Ok (decoded NR5G)
  ∧ fst (Modem.dbus_location_to_Location (lac_ci_reply example_location dict) (on 0))
    = Ok (decoded NR5G).
Proof.
  cbv zeta. split; [intros s b; apply dbus_location_to_Location_run|].
  rewrite !dbus_location_to_Location_run.
  repeat split; vm_compute; reflexivity.
Qed.

(** C8.  The format ["%3[0-9],%3[0-9],%*X,%X,%X"] assigns four items
    on ["262,01,1A2B,0000A1B2,00112233"]: "262", "01", 0xA1B2 and
    0x112233; the third field is scanned and not stored, so another
    LAC gives the same record.  On an LTE modem the decoded Location
    has these as [mcc], [mnc], [ci] and [tac], and so has the Location
    decoded under every technology for which the parser is reached
    (all but NR5G).  On an NR5G modem the parser is not reached: the
    same string gives the null Location, where the claim has a record.
    A string on which [sscanf] assigns fewer than four items, such as
    the three-field ["262,01,1A2B"], gives the null Location, whatever
    the technology. *)
Theorem location_string_decoding
    (r : Modem.Remote) (log : list Modem.Call) (dict : gmap Z Variant) :
  Cstd.sscanf example_location Modem.location_format
    = (4, [Cstd.arg_chars "262"; Cstd.arg_chars "01";
           Cstd.arg_unsigned 0xA1B2; Cstd.arg_unsigned 0x112233])
  ∧ (exists loc,
       fst (Modem.dbus_location_to_Location (lac_ci_reply example_location dict)
              {| Modem.remote := with_AccessTechnologies MM.MM_MODEM_ACCESS_TECHNOLOGY_LTE r;
                 Modem.sent := log |}) = Ok (Some loc)
       ∧ LocationBase.mcc loc = Ok "262"%string
       ∧ LocationBase.mnc loc = Ok "01"%string
       ∧ LocationBase.ci loc = Ok 0xA1B2
       ∧ LocationLTE.tac loc = Ok 0x112233
       ∧ LocationBase.tech loc = Ok LTE)
  ∧ (forall b,
       current_technology b ≠ NR5G ->
       exists loc,
         fst (Modem.dbus_location_to_Location (lac_ci_reply example_location dict) b)
           = Ok (Some loc)
         ∧ LocationBase.mcc loc = Ok "262"%string
         ∧ LocationBase.mnc loc = Ok "01"%string
         ∧ LocationBase.ci loc = Ok 0xA1B2
         ∧ LocationLTE.tac loc = Ok 0x112233)
  ∧ (forall b,
       current_technology b = NR5G ->
       fst (Modem.dbus_location_to_Location (lac_ci_reply example_location dict) b)
         = Ok None)
  ∧ Modem.parse_location "262,01,FFFF,0000A1B2,00112233" LocationLTE.ctor
    = Modem.parse_location example_location LocationLTE.ctor
  ∧ (forall b,
       fst (Modem.dbus_location_to_Location (lac_ci_reply "262,01,1A2B" dict) b) = Ok None)
  ∧ (forall s b,
       fst (Cstd.sscanf (Cstd.c_str s) Modem.location_format) ≠ 4 ->
       fst (Modem.dbus_location_to_Location (lac_ci_reply s dict) b) = Ok None).
Proof.
  split; [vm_compute; reflexivity|].
  split.
  { eexists. rewrite dbus_location_to_Location_run.
    split; [vm_compute; reflexivity|].
    repeat split; vm_compute; reflexivity. }
  split.
  { intros b Hb. rewrite dbus_location_to_Location_run.
    destruct (current_technology b); try congruence;
      (eexists; split; [vm_compute; reflexivity|]);
      repeat split; vm_compute; reflexivity. }
  split.
  { intros b Hb. rewrite dbus_location_to_Location_run. simpl. by rewrite Hb. }
  split; [vm_compute; reflexivity|].
  split.
  - intros b. rewrite dbus_location_to_Location_run.
    destruct (current_technology b); vm_compute; reflexivity.
  - intros s b Hn. rewrite dbus_location_to_Location_run.
    assert (Hp : forall rec, Modem.parse_location s rec = None).
    { intros rec. unfold Modem.parse_location.
      destruct (Cstd.sscanf (Cstd.c_str s) Modem.location_format) as [n stored].
      simpl in Hn. destruct (Z.eqb_spec n 4); [contradiction|reflexivity]. }
    simpl. destruct (current_technology b); rewrite ?Hp; reflexivity.
Qed.

(** ** Hexadecimal fields of the raw telemetry maps *)

Ltac result_step :=
  match goal with
  | |- is_throw (rbind ?r _) =>
      let E := fresh "E" in
      destruct r as [?|?] eqn:E; [eexists; reflexivity|simpl]
  end.

Section Hex_fields.
Context (dbus_map : sdbus_variant_map).

Lemma LocationBase_fill_throws (this : AnyMap.t) :
  malformed_hex_field "ci" dbus_map ->
  is_throw (LocationBase.fill_from_variant_map dbus_map this).
Proof.
  intros (s & Hs & e & He).
  unfold LocationBase.fill_from_variant_map, mbind, Result_bind.
  result_step. rewrite Hs. simpl. rewrite He. eexists; reflexivity.
Qed.

Lemma LocationLTE_fill_throws (this : AnyMap.t) :
  malformed_hex_field "ci" dbus_map ∨ malformed_hex_field "tac" dbus_map ->
  is_throw (LocationLTE.fill_from_variant_map dbus_map this).
Proof.
  intros H. unfold LocationLTE.fill_from_variant_map, mbind, Result_bind.
  destruct H as [H|(s & Hs & e & He)].
  - destruct (LocationBase_fill_throws this H) as [e ->]. eexists; reflexivity.
  - result_step. rewrite Hs. simpl. rewrite He. eexists; reflexivity.
Qed.

Lemma CellInfoBase_fill_throws (this : AnyMap.t) :
  malformed_hex_field "ci" dbus_map ->
  is_throw (CellInfoBase.fill_from_variant_map dbus_map this).
Proof.
  intros (s & Hs & e & He).
  unfold CellInfoBase.fill_from_variant_map, mbind, Result_bind.
  result_step. rewrite Hs. simpl. rewrite He. eexists; reflexivity.
Qed.

End Hex_fields.

Lemma CellInfoLTE_throws (dbus_map : sdbus_variant_map) :
  malformed_hex_field "ci" dbus_map ∨ malformed_hex_field "tac" dbus_map
    ∨ malformed_hex_field "physical-ci" dbus_map ->
  is_throw (CellInfoLTE.from_variant_map dbus_map).
Proof.
  unfold CellInfoLTE.from_variant_map, mbind, Result_bind.
  intros [H|[H|(s & Hs & e & He)]].
  - destruct (CellInfoBase_fill_throws dbus_map CellInfoLTE.ctor H) as [e ->].
    eexists; reflexivity.
  - do 4 result_step.
    destruct (LocationLTE_fill_throws dbus_map LocationLTE.ctor (or_intror H)) as [e He].
    unfold LocationLTE.from_variant_map. rewrite He. eexists; reflexivity.
  - do 2 result_step. rewrite Hs. simpl. rewrite He. eexists; reflexivity.
Qed.

Lemma CellInfoNR5G_throws (dbus_map : sdbus_variant_map) :
  malformed_hex_field "ci" dbus_map ∨ malformed_hex_field "tac" dbus_map
    ∨ malformed_hex_field "physical-ci" dbus_map ->
  is_throw (CellInfoNR5G.from_variant_map dbus_map).
Proof.
  unfold CellInfoNR5G.from_variant_map, mbind, Result_bind.
  intros [H|[H|(s & Hs & e & He)]].
  - destruct (CellInfoBase_fill_throws dbus_map CellInfoNR5G.ctor H) as [e ->].
    eexists; reflexivity.
  - do 4 result_step.
    destruct (LocationLTE_fill_throws dbus_map [("tech", any_Technology NR5G)] (or_intror H))
      as [e He].
    unfold LocationNR5G.from_variant_map, mbind, Result_bind.
    rewrite LocationNR5G_ctor_run. simpl. rewrite He. eexists; reflexivity.
  - do 2 result_step. rewrite Hs. simpl. rewrite He. eexists; reflexivity.
Qed.

(** C3, as the code has it.  When a hexadecimal field of the raw map
    ([ci], [tac] or [physical-ci]) holds a string that [std::stoul]
    cannot convert, CellInfo decoding (LTE and NR5G) throws and returns
    no record; so does Location decoding (LTE and NR5G) when the field
    is [ci] or [tac].  No decoder catches the exception of
    [std::stoul]. *)
Theorem malformed_hex_field_throws (dbus_map : sdbus_variant_map) :
  malformed_hex_field "ci" dbus_map ∨ malformed_hex_field "tac" dbus_map
    ∨ malformed_hex_field "physical-ci" dbus_map ->
  is_throw (CellInfoLTE.from_variant_map dbus_map)
  ∧ is_throw (CellInfoNR5G.from_variant_map dbus_map)
  ∧ (malformed_hex_field "ci" dbus_map ∨ malformed_hex_field "tac" dbus_map ->
     is_throw (LocationLTE.from_variant_map dbus_map)
     ∧ is_throw (LocationNR5G.from_variant_map dbus_map)).
Proof.
  intros H. split; [by apply CellInfoLTE_throws|].
  split; [by apply CellInfoNR5G_throws|].
  intros H'. split.
  - by apply LocationLTE_fill_throws.
  - unfold LocationNR5G.from_variant_map, mbind, Result_bind.
    rewrite LocationNR5G_ctor_run. simpl. by apply LocationLTE_fill_throws.
Qed.

Lemma malformed_hex_field_throws_witness :
  malformed_hex_field "ci" bad_ci
  ∧ is_throw (CellInfoLTE.from_variant_map bad_ci)
  ∧ is_throw (LocationLTE.from_variant_map bad_ci).
Proof.
  assert (H : malformed_hex_field "ci" bad_ci).
  { exists "zz"%string. split; [reflexivity|]. exists std_invalid_argument. reflexivity. }
  split; [exact H|].
  destruct (malformed_hex_field_throws bad_ci (or_introl H)) as (H1 & _ & H2).
  split; [exact H1|]. apply H2. left. exact H.
Defined.

(** C3 as stated fails: decoding a map with a malformed cell identity,
    tracking-area code or physical cell id does not give a record that
    lacks the field; [std::invalid_argument] leaves the decoder. *)
Lemma malformed_hex_is_not_absorbed :
  LocationLTE.from_variant_map bad_ci = throw std_invalid_argument
  ∧ CellInfoLTE.from_variant_map bad_ci = throw std_invalid_argument
  ∧ CellInfoNR5G.from_variant_map {[ "physical-ci" := V_string "" ]}
    = throw std_invalid_argument
  ∧ LocationNR5G.from_variant_map {[ "tac" := V_string "xyz" ]} = throw std_invalid_argument.
Proof. repeat split; vm_compute; reflexivity. Qed.

(** ** The registry: pending await *)

Section Registry_await.
Import ModemManagerOMProxy.
Context (svc : Service).

Lemma satisfy_pending (p : nat) (st : shared_state) (h : list shared_state) :
  h !! p = Some pending -> satisfy p st h = Ok (<[p := st]> h).
Proof. intros H. unfold satisfy. by rewrite H. Qed.

Lemma satisfy_Ok (p : nat) (st : shared_state) (h h' : list shared_state) :
  satisfy p st h = Ok h' -> h !! p = Some pending ∧ h' = <[p := st]> h.
Proof.
  unfold satisfy. destruct (h !! p) as [[| |]|]; try discriminate.
  by intros [= <-].
Qed.

(** After the awaited shared state is satisfied nothing is pending. *)
Lemma none_pending_after (this : t) (target : string) (p : nat) (st : shared_state) :
  one_pending this -> awaited_modem_ this = Some (target, p) -> st ≠ pending ->
  forall q, <[p := st]> (shared_states this) !! q ≠ Some pending.
Proof.
  intros Hinv Hslot Hst q Hq.
  destruct (decide (q = p)) as [->|Hne].
  - assert (Hp : shared_states this !! p = Some pending) by (apply Hinv; eauto).
    rewrite list_lookup_insert_eq in Hq by (by eapply lookup_lt_Some).
    congruence.
  - rewrite list_lookup_insert_ne in Hq by done.
    apply Hinv in Hq as [target' Hq]. congruence.
Qed.

Lemma await_modem_spec (imei : string) (this : t) :
  one_pending this ->
  exists fut this',
    await_modem imei this = Ok (fut, this')
    ∧ one_pending this'
    ∧ awaited_modem_ this' = Some (imei, fut)
    ∧ shared_states this' !! fut = Some pending
    ∧ modems_ this' = modems_ this
    ∧ (forall target p, awaited_modem_ this = Some (target, p) ->
         p ≠ fut ∧ shared_states this' !! p = Some (has_exception cancelled))
    ∧ (forall q st, shared_states this !! q = Some st -> st ≠ pending ->
         shared_states this' !! q = Some st).
Proof.
  intros Hinv. unfold await_modem.
  destruct (awaited_modem_ this) as [[target p]|] eqn:Hslot.
  - assert (Hp : shared_states this !! p = Some pending) by (apply Hinv; eauto).
    rewrite (satisfy_pending _ _ _ Hp). simpl.
    pose proof (lookup_lt_Some _ _ _ Hp) as Hlt.
    do 2 eexists. split; [reflexivity|]. unfold one_pending. simpl.
    rewrite length_insert.
    repeat split.
    + intros Hq. destruct (decide (q < length (shared_states this))%nat) as [Hq'|Hq'].
      * rewrite lookup_app_l in Hq by (by rewrite length_insert).
        exfalso.
        apply (none_pending_after this target p (has_exception cancelled)
                 Hinv Hslot ltac:(discriminate) q Hq).
      * exists imei. f_equal. f_equal.
        apply lookup_lt_Some in Hq. rewrite length_app, length_insert in Hq.
        simpl in Hq. lia.
    + intros [target' [= _ <-]].
      rewrite lookup_app_r by (by rewrite length_insert).
      by rewrite length_insert, Nat.sub_diag.
    + rewrite lookup_app_r by (by rewrite length_insert).
      by rewrite length_insert, Nat.sub_diag.
    + injection H as _ <-. lia.
    + injection H as _ <-.
      rewrite lookup_app_l by (by rewrite length_insert).
      by rewrite list_lookup_insert_eq.
    + intros q st Hq Hst.
      pose proof (lookup_lt_Some _ _ _ Hq).
      rewrite lookup_app_l by (by rewrite length_insert).
      rewrite list_lookup_insert_ne; [done|]. intros <-. congruence.
  - simpl. do 2 eexists. split; [reflexivity|]. unfold one_pending. simpl.
    repeat split; try discriminate.
    + intros Hq. destruct (decide (q < length (shared_states this))%nat) as [Hq'|Hq'].
      * rewrite lookup_app_l in Hq by done.
        apply Hinv in Hq as [? Hq]. congruence.
      * exists imei. f_equal. f_equal.
        apply lookup_lt_Some in Hq. rewrite length_app in Hq. simpl in Hq. lia.
    + intros [target' [= _ <-]].
      rewrite lookup_app_r by done. by rewrite Nat.sub_diag.
    + rewrite lookup_app_r by done. by rewrite Nat.sub_diag.
    + intros q st Hq Hst.
      pose proof (lookup_lt_Some _ _ _ Hq).
      by rewrite lookup_app_l.
Qed.

Lemma onInterfacesAdded_one_pending (path : ObjectPath) (this this' : t) :
  one_pending this -> onInterfacesAdded svc path this = Ok this' -> one_pending this'.
Proof.
  intros Hinv. unfold onInterfacesAdded, mbind, Result_bind.
  destruct (awaited_modem_ this) as [[target p]|] eqn:Hslot; simpl.
  - change (Modem_imei svc (Modem_ctor path)) with (svc path).
    destruct (svc path) as [e|new_imei]; simpl; [discriminate|].
    destruct (_ || _); simpl.
    + destruct (satisfy p _ _) as [e|h] eqn:Hs; simpl; [discriminate|].
      apply satisfy_Ok in Hs as [Hp ->].
      intros [= <-]. unfold one_pending. simpl. intros q. split.
      * intros Hq. exfalso.
        apply (none_pending_after this target p (has_value (Modem_ctor path))
                 Hinv Hslot ltac:(discriminate) q Hq).
      * intros [? [=]].
    + intros [= <-]. exact Hinv.
  - intros [= <-]. exact Hinv.
Qed.

Lemma onInterfacesRemoved_one_pending (path : ObjectPath) (this this' : t) :
  one_pending this -> onInterfacesRemoved path this = Some this' -> one_pending this'.
Proof.
  intros Hinv. unfold onInterfacesRemoved.
  destruct (remove_if _ _) as [[v first]|]; simpl; [|discriminate].
  intros [= <-]. exact Hinv.
Qed.

Lemma reachable_one_pending (this : t) : reachable svc this -> one_pending this.
Proof.
  induction 1 as [|imei this fut this' _ IH Hstep
                  |path this this' _ IH Hstep
                  |path this this' _ IH Hstep].
  - intros q. simpl. split; [discriminate|by intros [? [=]]].
  - destruct (await_modem_spec imei this IH) as (fut' & this'' & Heq & Hinv & _).
    rewrite Hstep in Heq. by injection Heq as _ <-.
  - by eapply onInterfacesAdded_one_pending.
  - by eapply onInterfacesRemoved_one_pending.
Qed.

(** A matching or wildcard await is resolved by the added modem. *)
Lemma onInterfacesAdded_resolves (path : ObjectPath) (this : t)
    (target new_imei : string) (p : nat) :
  one_pending this ->
  awaited_modem_ this = Some (target, p) ->
  svc path = Ok new_imei ->
  target = ANY_IMEI ∨ target = new_imei ->
  exists this',
    onInterfacesAdded svc path this = Ok this'
    ∧ shared_states this' !! p = Some (has_value (Modem_ctor path))
    ∧ awaited_modem_ this' = None
    ∧ modems_ this' = modems_ this ++ [Modem_ctor path]
    ∧ (forall q, q ≠ p -> shared_states this' !! q = shared_states this !! q).
Proof.
  intros Hinv Hslot Hsvc Hmatch.
  assert (Hp : shared_states this !! p = Some pending) by (apply Hinv; eauto).
  unfold onInterfacesAdded, mbind, Result_bind. rewrite Hslot. simpl.
  change (Modem_imei svc (Modem_ctor path)) with (svc path).
  rewrite Hsvc. simpl.
  assert (Hb : String.eqb target ANY_IMEI || String.eqb target new_imei = true).
  { destruct Hmatch as [-> | ->]; rewrite String.eqb_refl; [reflexivity|].
    apply orb_true_r. }
  rewrite Hb. rewrite (satisfy_pending _ _ _ Hp). simpl.
  eexists. split; [reflexivity|]. simpl. repeat split.
  - rewrite list_lookup_insert_eq; [done|by eapply lookup_lt_Some].
  - intros q Hq. by rewrite list_lookup_insert_ne.
Qed.

(** An await for another IMEI stays pending when a modem is added. *)
Lemma onInterfacesAdded_keeps (path : ObjectPath) (this : t)
    (target new_imei : string) (p : nat) :
  awaited_modem_ this = Some (target, p) ->
  svc path = Ok new_imei ->
  target ≠ ANY_IMEI -> target ≠ new_imei ->
  onInterfacesAdded svc path this =
    Ok {| modems_ := modems_ this ++ [Modem_ctor path];
          awaited_modem_ := Some (target, p);
          shared_states := shared_states this |}.
Proof.
  intros Hslot Hsvc H1 H2.
  unfold onInterfacesAdded, mbind, Result_bind. rewrite Hslot. simpl.
  change (Modem_imei svc (Modem_ctor path)) with (svc path).
  rewrite Hsvc. simpl.
  apply String.eqb_neq in H1, H2. rewrite H1, H2. simpl. by rewrite Hslot.
Qed.

End Registry_await.

(** C5.  In every state the proxy can reach, at most one future is
    pending, the one of [awaited_modem_].  [await_modem] always returns
    a new pending future and installs it with its target; the future
    awaited before, if any, then holds the exception
    "Cancelled, awaiting other modem now.".  When an object is added
    whose IMEI is read and is the awaited one, or is read while the
    target is [ANY_IMEI], the pending future receives that modem and
    the slot is cleared; the modem is appended to the list.  Two awaits
    in a row followed by such a modem: the first future is cancelled,
    the second holds the modem.  The IMEI is read before the target is
    looked at: when the read throws, the handler leaves with that
    exception for every awaited target, [ANY_IMEI] included, where the
    claim has the future resolved. *)
Theorem single_pending_await
    (svc : ModemManagerOMProxy.Service) (this : ModemManagerOMProxy.t) :
  reachable svc this ->
  (forall q1 q2,
     ModemManagerOMProxy.shared_states this !! q1 = Some ModemManagerOMProxy.pending ->
     ModemManagerOMProxy.shared_states this !! q2 = Some ModemManagerOMProxy.pending ->
     q1 = q2)
  ∧ (forall imei, exists fut this',
       ModemManagerOMProxy.await_modem imei this = Ok (fut, this')
       ∧ ModemManagerOMProxy.awaited_modem_ this' = Some (imei, fut)
       ∧ ModemManagerOMProxy.shared_states this' !! fut = Some ModemManagerOMProxy.pending
       ∧ (forall target p,
            ModemManagerOMProxy.awaited_modem_ this = Some (target, p) ->
            p ≠ fut
            ∧ ModemManagerOMProxy.shared_states this' !! p
              = Some (ModemManagerOMProxy.has_exception ModemManagerOMProxy.cancelled)))
  ∧ (forall path target p new_imei,
       ModemManagerOMProxy.awaited_modem_ this = Some (target, p) ->
       svc path = Ok new_imei ->
       target = ANY_IMEI ∨ target = new_imei ->
       exists this',
         ModemManagerOMProxy.onInterfacesAdded svc path this = Ok this'
         ∧ ModemManagerOMProxy.shared_states this' !! p
           = Some (ModemManagerOMProxy.has_value (ModemManagerOMProxy.Modem_ctor path))
         ∧ ModemManagerOMProxy.awaited_modem_ this' = None
         ∧ ModemManagerOMProxy.modems_ this'
           = ModemManagerOMProxy.modems_ this ++ [ModemManagerOMProxy.Modem_ctor path])
  ∧ (forall path new_imei,
       svc path = Ok new_imei ->
       exists fut1 this1 fut2 this2 this3,
         ModemManagerOMProxy.await_modem ANY_IMEI this = Ok (fut1, this1)
         ∧ ModemManagerOMProxy.await_modem ANY_IMEI this1 = Ok (fut2, this2)
         ∧ ModemManagerOMProxy.onInterfacesAdded svc path this2 = Ok this3
         ∧ ModemManagerOMProxy.shared_states this3 !! fut1
           = Some (ModemManagerOMProxy.has_exception ModemManagerOMProxy.cancelled)
         ∧ ModemManagerOMProxy.shared_states this3 !! fut2
           = Some (ModemManagerOMProxy.has_value (ModemManagerOMProxy.Modem_ctor path)))
  ∧ (forall path target p e,
       ModemManagerOMProxy.awaited_modem_ this = Some (target, p) ->
       svc path = throw e ->
       ModemManagerOMProxy.onInterfacesAdded svc path this = throw e).
Proof.
  intros Hreach.
  pose proof (reachable_one_pending svc this Hreach) as Hinv.
  split; [|split; [|split; [|split]]].
  - intros q1 q2 H1 H2. apply Hinv in H1 as [t1 H1], H2 as [t2 H2]. congruence.
  - intros imei.
    destruct (await_modem_spec imei this Hinv)
      as (fut & this' & Heq & _ & Hslot & Hfut & _ & Hold & _).
    exists fut, this'. auto.
  - intros path target p new_imei Hslot Hsvc Hmatch.
    destruct (onInterfacesAdded_resolves svc path this target new_imei p
                Hinv Hslot Hsvc Hmatch) as (this' & H1 & H2 & H3 & H4 & _).
    exists this'. auto.
  - intros path new_imei Hsvc.
    destruct (await_modem_spec ANY_IMEI this Hinv)
      as (fut1 & this1 & Heq1 & Hinv1 & Hslot1 & Hfut1 & _ & _ & _).
    destruct (await_modem_spec ANY_IMEI this1 Hinv1)
      as (fut2 & this2 & Heq2 & Hinv2 & Hslot2 & Hfut2 & _ & Hold2 & _).
    destruct (Hold2 _ _ Hslot1) as [Hne Hcancel].
    destruct (onInterfacesAdded_resolves svc path this2 ANY_IMEI new_imei fut2
                Hinv2 Hslot2 Hsvc (or_introl eq_refl)) as (this3 & H1 & H2 & _ & _ & Hrest).
    exists fut1, this1, fut2, this2, this3.
    repeat split; try assumption.
    rewrite Hrest by exact Hne. exact Hcancel.
  - intros path target p e Hslot Hsvc.
    unfold ModemManagerOMProxy.onInterfacesAdded. rewrite Hslot.
    change (ModemManagerOMProxy.Modem_imei svc (ModemManagerOMProxy.Modem_ctor path))
      with (svc path).
    by rewrite Hsvc.
Qed.

Lemma single_pending_await_witness :
  reachable one_modem_service awaiting_any
  ∧ (exists this',
      ModemManagerOMProxy.onInterfacesAdded one_modem_service
        modem0_path awaiting_any = Ok this'
      ∧ ModemManagerOMProxy.shared_states this' !! 0%nat
        = Some (ModemManagerOMProxy.has_value
                  (ModemManagerOMProxy.Modem_ctor modem0_path))
      ∧ ModemManagerOMProxy.awaited_modem_ this' = None
      ∧ ModemManagerOMProxy.modems_ this'
        = ModemManagerOMProxy.modems_ awaiting_any
            ++ [ModemManagerOMProxy.Modem_ctor modem0_path])
  ∧ ModemManagerOMProxy.onInterfacesAdded one_modem_service modem1_path awaiting_any
    = throw sdbus_Error.
Proof.
  assert (H : reachable one_modem_service awaiting_any).
  { apply (reach_await one_modem_service ANY_IMEI
             ModemManagerOMProxy.empty 0%nat awaiting_any).
    - apply reach_empty.
    - reflexivity. }
  split; [exact H|].
  destruct (single_pending_await one_modem_service awaiting_any H)
    as (_ & _ & Hadd & _ & Hthrow).
  split.
  - apply (Hadd modem0_path ANY_IMEI 0%nat "356938035643809"%string).
    + reflexivity.
    + reflexivity.
    + left. reflexivity.
  - apply (Hthrow modem1_path ANY_IMEI 0%nat sdbus_Error); reflexivity.
Defined.

(** ** The registry: removal *)

Section Registry_removal.
Import ModemManagerOMProxy.
Context (objectPath : ObjectPath).

Lemma same_path_live (m : Modem) :
  live m -> same_path objectPath m = Some (is_path objectPath m).
Proof. unfold live, same_path, is_path. destruct (dbus_proxy_ m); congruence. Qed.

Lemma insert_middle (l1 l2 : list Modem) (y x : Modem) :
  <[length l1 := x]> (l1 ++ y :: l2) = l1 ++ x :: l2.
Proof. induction l1 as [|a l1 IH]; simpl; [reflexivity|]. by rewrite IH. Qed.

Lemma remove_if_loop_live (rest : list Modem) :
  Forall live rest ->
  forall (n : nat) (done : list Modem) (j : Modem) (junk : list Modem),
    (length rest <= n)%nat ->
    remove_if_loop (same_path objectPath) n (done ++ (j :: junk) ++ rest)
      (length done) (length (done ++ j :: junk))
    = Some (done ++ kept objectPath rest ++ leftover objectPath (j :: junk) rest,
            (length done + length (kept objectPath rest))%nat).
Proof.
  induction 1 as [|x rest Hx Hrest IH]; intros n done j junk Hn.
  - simpl. rewrite !app_nil_r, Nat.add_0_r.
    destruct n; simpl; [reflexivity|].
    rewrite lookup_ge_None_2; [reflexivity|]. simpl. lia.
  - destruct n as [|n]; [simpl in Hn; lia|].
    simpl in Hn. cbn [remove_if_loop].
    assert (Hi : (done ++ (j :: junk) ++ x :: rest) !! length (done ++ j :: junk) = Some x).
    { rewrite app_assoc. by apply list_lookup_middle. }
    rewrite Hi. rewrite (same_path_live x Hx). simpl.
    unfold kept. cbn [leftover List.filter]. fold (kept objectPath rest).
    destruct (is_path objectPath x) eqn:Hm; cbn [negb].
    + specialize (IH n done j (junk ++ [x]) ltac:(lia)).
      etransitivity; [|exact IH].
      f_equal.
      * simpl. by rewrite <- !app_assoc.
      * rewrite ?length_app; simpl; rewrite ?length_app; simpl; lia.
    + specialize (IH n (done ++ [x]) (hd moved_from (junk ++ [moved_from]))
                     (tail (junk ++ [moved_from])) ltac:(lia)).
      assert (Hj : hd moved_from (junk ++ [moved_from]) :: tail (junk ++ [moved_from])
                   = junk ++ [moved_from]) by (by destruct junk).
      rewrite Hj in IH.
      assert (Hv : <[length (done ++ j :: junk) := moved_from]>
                     (<[length done := x]> (done ++ j :: junk ++ x :: rest))
                   = (done ++ [x]) ++ (junk ++ [moved_from]) ++ rest).
      { rewrite insert_middle.
        replace (done ++ x :: junk ++ x :: rest) with ((done ++ x :: junk) ++ x :: rest)
          by (by rewrite <- app_assoc).
        replace (length (done ++ j :: junk)) with (length (done ++ x :: junk))
          by (rewrite !length_app; reflexivity).
        rewrite insert_middle. rewrite <- !app_assoc. reflexivity. }
      rewrite Hv.
      etransitivity; [etransitivity; [|exact IH]|].
      * f_equal; rewrite ?length_app; simpl; rewrite ?length_app; simpl; lia.
      * rewrite <- !app_assoc. simpl. rewrite length_app. simpl.
        do 2 f_equal. lia.
Qed.

Lemma leftover_length (rest junk : list Modem) :
  junk ≠ [] ->
  (length (leftover objectPath junk rest) + length (kept objectPath rest) = length junk + length rest)%nat.
Proof.
  unfold kept. revert junk.
  induction rest as [|m rest IH]; intros junk Hj; simpl; [lia|].
  destruct (is_path objectPath m); simpl.
  - specialize (IH (junk ++ [m]) ltac:(destruct junk; simpl; discriminate)).
    rewrite length_app in IH. simpl in IH. lia.
  - specialize (IH (tail junk ++ [moved_from])
                  ltac:(destruct (tail junk); simpl; discriminate)).
    destruct junk as [|j junk]; [done|].
    simpl in IH. rewrite length_app in IH. simpl in *. lia.
Qed.

Lemma trailing_length (v : list Modem) :
  (length (kept objectPath v) + length (trailing objectPath v) = length v)%nat.
Proof.
  induction v as [|m v IH]; simpl; [reflexivity|].
  pose proof (leftover_length v [m] ltac:(done)) as H.
  unfold kept in *. simpl in *.
  destruct (is_path objectPath m); simpl; lia.
Qed.

Lemma find_if_live (v : list Modem) :
  Forall live v ->
  (Forall (fun m => is_path objectPath m = false) v
   ∧ find_if (same_path objectPath) v = Some (length v))
  ∨ (exists pre x post,
       v = pre ++ x :: post
       ∧ Forall (fun m => is_path objectPath m = false) pre
       ∧ is_path objectPath x = true
       ∧ find_if (same_path objectPath) v = Some (length pre)).
Proof.
  induction 1 as [|m v Hm Hv IH]; [left; by split|].
  simpl. rewrite (same_path_live m Hm). simpl.
  destruct (is_path objectPath m) eqn:E.
  - right. exists [], m, v. by repeat split.
  - destruct IH as [[Hall Hf]|(pre & x & post & -> & Hpre & Hx & Hf)].
    + left. split; [by constructor|]. by rewrite Hf.
    + right. exists (m :: pre), x, post. repeat split; [by constructor|done|].
      by rewrite Hf.
Qed.

Lemma kept_prefix (pre rest : list Modem) :
  Forall (fun m => is_path objectPath m = false) pre ->
  kept objectPath (pre ++ rest) = pre ++ kept objectPath rest ∧ trailing objectPath (pre ++ rest) = trailing objectPath rest.
Proof.
  induction 1 as [|m pre Hm Hpre [IH1 IH2]]; [by split|].
  simpl. rewrite Hm. simpl. fold (kept objectPath (pre ++ rest)). by rewrite IH1, IH2.
Qed.

(** [std::remove_if] on a vector of live modems: the kept objectPath modems in
    their order, then what is left over; the returned position is
    where the leftover objectPath starts. *)
Lemma remove_if_live (v : list Modem) :
  Forall live v ->
  remove_if (same_path objectPath) v = Some (kept objectPath v ++ trailing objectPath v, length (kept objectPath v)).
Proof.
  intros Hlive. unfold remove_if.
  destruct (find_if_live v Hlive) as [[Hall Hf]|(pre & x & post & -> & Hpre & Hx & Hf)].
  - rewrite Hf. simpl. rewrite decide_True by done.
    destruct (kept_prefix v [] Hall) as [H1 H2]. rewrite !app_nil_r in *.
    rewrite H1, H2. simpl. by rewrite app_nil_r.
  - rewrite Hf. simpl.
    rewrite decide_False by (rewrite length_app; simpl; lia).
    destruct (kept_prefix pre (x :: post) Hpre) as [H1 H2].
    rewrite H1, H2. simpl. rewrite Hx. simpl. fold (kept objectPath post).
    apply Forall_app in Hlive as [_ Hlive]. apply Forall_cons in Hlive as [_ Hpost].
    pose proof (remove_if_loop_live post Hpost (length (pre ++ x :: post)) pre x []
                  ltac:(rewrite length_app; simpl; lia)) as Hloop.
    replace (length (pre ++ [x])) with (S (length pre)) in Hloop
      by (rewrite length_app; simpl; lia).
    simpl in Hloop. rewrite Hloop. rewrite <- app_assoc, length_app. reflexivity.
Qed.

End Registry_removal.

(** C1.  The claim is that after the removal of a device object no
    entry with its object path is left in the list and all others
    remain.  [onInterfacesRemoved] calls [std::remove_if] and discards
    the returned iterator, so the vector keeps its length: the modems
    with another path are moved to the front, in order, and behind
    them remain the matching or moved-from elements.  When the only
    modem, or the last one, is removed the list does not change; when
    the first of two is removed the list ends with a modem whose proxy
    is null. *)
Theorem removed_modem_is_not_erased :
  ModemManagerOMProxy.onInterfacesRemoved modem0_path (registry_of [modem0_path])
    = Some (registry_of [modem0_path])
  ∧ ModemManagerOMProxy.onInterfacesRemoved modem1_path
      (registry_of [modem0_path; modem1_path])
    = Some (registry_of [modem0_path; modem1_path])
  ∧ ModemManagerOMProxy.onInterfacesRemoved modem0_path
      (registry_of [modem0_path; modem1_path])
    = Some {| ModemManagerOMProxy.modems_ :=
                [ModemManagerOMProxy.Modem_ctor modem1_path;
                 ModemManagerOMProxy.moved_from];
              ModemManagerOMProxy.awaited_modem_ := None;
              ModemManagerOMProxy.shared_states := [] |}
  ∧ (forall objectPath this,
       Forall live (ModemManagerOMProxy.modems_ this) ->
       exists this',
         ModemManagerOMProxy.onInterfacesRemoved objectPath this = Some this'
         ∧ length (ModemManagerOMProxy.modems_ this')
           = length (ModemManagerOMProxy.modems_ this)
         ∧ take (length (kept objectPath (ModemManagerOMProxy.modems_ this)))
             (ModemManagerOMProxy.modems_ this')
           = kept objectPath (ModemManagerOMProxy.modems_ this)).
Proof.
  split; [vm_compute; reflexivity|].
  split; [vm_compute; reflexivity|].
  split; [vm_compute; reflexivity|].
  intros objectPath this Hlive.
  unfold ModemManagerOMProxy.onInterfacesRemoved.
  rewrite (remove_if_live objectPath _ Hlive). simpl.
  eexists. split; [reflexivity|]. simpl. split.
  - rewrite length_app. apply trailing_length.
  - by rewrite take_app_length.
Qed.

(** C9.  [modems_available()] returns [getModems().empty()]: it is
    true exactly when the list of modems is empty.  It is true for the
    proxy without modems and false once a modem has been added. *)
Theorem modems_available_iff_empty
    (svc : ModemManagerOMProxy.Service) (mm_proxy_ : ModemManagerOMProxy.t) :
  (ModemManager.modems_available mm_proxy_ = true
     <-> ModemManagerOMProxy.getModems mm_proxy_ = [])
  ∧ (ModemManager.modems_available mm_proxy_ = false
     <-> ModemManagerOMProxy.getModems mm_proxy_ ≠ [])
  ∧ ModemManager.modems_available ModemManagerOMProxy.empty = true
  ∧ (forall path mm_proxy',
       ModemManagerOMProxy.onInterfacesAdded svc path mm_proxy_ = Ok mm_proxy' ->
       ModemManager.modems_available mm_proxy' = false).
Proof.
  unfold ModemManager.modems_available.
  split; [|split; [|split]].
  - destruct (ModemManagerOMProxy.getModems mm_proxy_); split; done.
  - destruct (ModemManagerOMProxy.getModems mm_proxy_); split; done.
  - reflexivity.
  - intros path mm_proxy'.
    unfold ModemManagerOMProxy.onInterfacesAdded, mbind, Result_bind.
    destruct (match ModemManagerOMProxy.awaited_modem_ mm_proxy_ with
              | Some _ => _ | None => _ end) as [e|this]; simpl; [discriminate|].
    intros [= <-]. unfold ModemManagerOMProxy.getModems. simpl.
    by destruct (ModemManagerOMProxy.modems_ this).
Qed.

(** * Further properties of the code *)

(** ** Strings *)

#[local] Arguments String.append !_ _ / : simpl nomatch.

Lemma append_nil_r (s : string) : s +:+ EmptyString = s.
Proof. induction s as [|c s IH]; simpl; [reflexivity|]. f_equal. exact IH. Qed.

Lemma append_assoc (a b c : string) : (a +:+ b) +:+ c = a +:+ (b +:+ c).
Proof. induction a as [|x a IH]; simpl; [reflexivity|]. f_equal. exact IH. Qed.

Lemma length_append (a b : string) :
  String.length (a +:+ b) = (String.length a + String.length b)%nat.
Proof. induction a as [|x a IH]; simpl; [reflexivity|]. f_equal. exact IH. Qed.

Lemma substring_prefix (a b : string) :
  String.substring 0 (String.length a) (a +:+ b) = a.
Proof.
  induction a as [|x a IH]; simpl.
  - by destruct b.
  - f_equal. exact IH.
Qed.

Lemma substring_at_end (s : string) :
  String.substring (String.length s) 0 s = EmptyString.
Proof. induction s as [|x s IH]; simpl; [reflexivity|exact IH]. Qed.

Lemma substring_suffix (a b : string) :
  String.substring (String.length a) (String.length b) (a +:+ b) = b.
Proof.
  induction a as [|x a IH]; simpl; [|exact IH].
  induction b as [|y b IHb]; simpl; [reflexivity|]. f_equal. exact IHb.
Qed.

(** ** helpers.cpp: joining strings *)

Lemma join_loop (parts : list string) (delim acc : string) :
  fold_left (fun c part => (c +:+ part) +:+ delim) parts acc
  = acc +:+ fold_right (fun part rest => part +:+ (delim +:+ rest)) EmptyString parts.
Proof.
  revert acc. induction parts as [|p parts IH]; intros acc; simpl.
  - by rewrite append_nil_r.
  - rewrite IH. by rewrite !append_assoc.
Qed.

Lemma concat_then_delim (parts : list string) (delim : string) :
  parts ≠ [] ->
  fold_right (fun part rest => part +:+ (delim +:+ rest)) EmptyString parts
  = String.concat delim parts +:+ delim.
Proof.
  induction parts as [|p parts IH]; [done|]. intros _.
  destruct parts as [|q parts].
  - simpl. by rewrite append_nil_r.
  - change (String.concat delim (p :: q :: parts))
      with (p +:+ (delim +:+ String.concat delim (q :: parts))).
    cbn [fold_right] in *. rewrite IH by done.
    by rewrite !append_assoc.
Qed.

Lemma erase_suffix (a b : string) :
  Helpers.erase (Z.of_nat (String.length (a +:+ b)) - Z.of_nat (String.length b))
    (Z.of_nat (String.length b)) (a +:+ b) = Ok a.
Proof.
  unfold Helpers.erase. rewrite length_append.
  replace (Z.of_nat (String.length a + String.length b) - Z.of_nat (String.length b))
    with (Z.of_nat (String.length a)) by lia.
  rewrite <- Nat2Z.inj_add, !Nat2Z.id.
  destruct (Z.ltb_spec (Z.of_nat (String.length a)) 0); [lia|].
  destruct (Z.ltb_spec (Z.of_nat (String.length a + String.length b))
              (Z.of_nat (String.length a))); [lia|].
  simpl. rewrite substring_prefix, Nat.sub_diag.
  rewrite <- length_append, substring_at_end. by rewrite append_nil_r.
Qed.

(** [join_string] never throws and puts the delimiter between the
    parts, for every list of parts and every delimiter: it is
    [String.concat]. *)
Theorem join_string_is_concat (parts : list string) (delim : string) :
  Helpers.join_string parts delim = Ok (String.concat delim parts).
Proof.
  destruct parts as [|p [|q parts]]; [reflexivity|reflexivity|].
  unfold Helpers.join_string.
  rewrite join_loop, concat_then_delim by done.
  cbn [String.append]. apply erase_suffix.
Qed.

(** ** structs.h: splitting a PLMN id *)

Lemma substring_all (s : string) : String.substring 0 (String.length s) s = s.
Proof.
  pose proof (substring_prefix s EmptyString) as H. by rewrite append_nil_r in H.
Qed.

Lemma plmn_split (plmn : string) :
  if (String.length plmn <? 3)%nat
  then LocationBase.plmn_to_mcc_mnc plmn = throw std_out_of_range
  else exists mcc mnc,
         LocationBase.plmn_to_mcc_mnc plmn = Ok (mcc, mnc)
         ∧ String.length mcc = 3%nat
         ∧ mcc +:+ mnc = plmn.
Proof.
  destruct plmn as [|a [|b [|c rest]]]; try reflexivity.
  exists (String a (String b (String c EmptyString))), rest.
  split; [|split; reflexivity].
  unfold LocationBase.plmn_to_mcc_mnc, LocationBase.substr, mbind, Result_bind. simpl.
  rewrite Nat.sub_0_r, substring_all. by destruct rest.
Qed.

(** [plmn_to_mcc_mnc] splits a PLMN id of three or more characters
    into its first three characters and the rest, losing nothing; on a
    shorter id [substr(3, npos)] throws [std::out_of_range]. *)
Theorem plmn_to_mcc_mnc_split (plmn : string) :
  if (String.length plmn <? 3)%nat
  then LocationBase.plmn_to_mcc_mnc plmn = throw std_out_of_range
  else exists mcc mnc,
         LocationBase.plmn_to_mcc_mnc plmn = Ok (mcc, mnc)
         ∧ String.length mcc = 3%nat
         ∧ mcc +:+ mnc = plmn.
Proof. apply plmn_split. Qed.

(** A raw map whose [operator-id] has fewer than three characters (an
    empty one, for instance) makes Location decoding throw
    [std::out_of_range], and CellInfo decoding throw as well. *)
Theorem short_operator_id_throws (dbus_map : sdbus_variant_map) (plmn : string) :
  dbus_map !! "operator-id" = Some (V_string plmn) ->
  (String.length plmn < 3)%nat ->
  LocationLTE.from_variant_map dbus_map = throw std_out_of_range
  ∧ LocationNR5G.from_variant_map dbus_map = throw std_out_of_range
  ∧ is_throw (CellInfoLTE.from_variant_map dbus_map)
  ∧ is_throw (CellInfoNR5G.from_variant_map dbus_map).
Proof.
  intros Hop Hlen.
  assert (Hsplit : LocationBase.plmn_to_mcc_mnc plmn = throw std_out_of_range).
  { pose proof (plmn_split plmn) as H.
    destruct (Nat.ltb_spec (String.length plmn) 3); [exact H|lia]. }
  assert (Hfill : forall this,
            LocationLTE.fill_from_variant_map dbus_map this = throw std_out_of_range).
  { intros this.
    unfold LocationLTE.fill_from_variant_map, LocationBase.fill_from_variant_map,
      mbind, Result_bind.
    rewrite Hop. simpl. rewrite Hsplit. reflexivity. }
  assert (HLTE : LocationLTE.from_variant_map dbus_map = throw std_out_of_range)
    by apply Hfill.
  assert (HNR : LocationNR5G.from_variant_map dbus_map = throw std_out_of_range).
  { unfold LocationNR5G.from_variant_map, mbind, Result_bind.
    rewrite LocationNR5G_ctor_run. simpl. apply Hfill. }
  split; [exact HLTE|]. split; [exact HNR|]. split.
  - unfold CellInfoLTE.from_variant_map, mbind, Result_bind.
    do 4 result_step. rewrite HLTE. eexists; reflexivity.
  - unfold CellInfoNR5G.from_variant_map, mbind, Result_bind.
    do 4 result_step. rewrite HNR. eexists; reflexivity.
Qed.

Lemma short_operator_id_throws_witness :
  ({[ "operator-id" := V_string "" ]} : sdbus_variant_map) !! "operator-id"
    = Some (V_string "")
  ∧ LocationLTE.from_variant_map {[ "operator-id" := V_string "" ]} = throw std_out_of_range.
Proof.
  split; [reflexivity|].
  apply (short_operator_id_throws {[ "operator-id" := V_string "" ]} "").
  - reflexivity.
  - simpl. lia.
Defined.

(** ** any_map.h: copying a raw field into a bag *)

(** [maybe_insert_from_variant_map_as<double>] leaves the bag as it is
    when the raw map lacks [from_key], throws [sdbus::Error] when the
    raw value is not a double, and otherwise stores the double under
    [as_key] unless the bag already has that key: a value that is
    present is never replaced, and no other key changes. *)
Theorem maybe_insert_never_overwrites
    (dbus_map : sdbus_variant_map) (from_key as_key : string) (m : AnyMap.t) :
  ordered m ->
  match double_field dbus_map from_key with
  | inr None =>
      AnyMap.maybe_insert_from_variant_map_as_double dbus_map from_key as_key m = Ok m
  | inr (Some d) =>
      exists m',
        AnyMap.maybe_insert_from_variant_map_as_double dbus_map from_key as_key m = Ok m'
        ∧ ordered m'
        ∧ AnyMap.find as_key m'
          = Some (default (any_double d) (AnyMap.find as_key m))
        ∧ (forall key, key ≠ as_key -> AnyMap.find key m' = AnyMap.find key m)
  | inl _ =>
      AnyMap.maybe_insert_from_variant_map_as_double dbus_map from_key as_key m
      = throw sdbus_Error
  end
  ∧ AnyMap.maybe_insert_from_variant_map_double dbus_map from_key m
    = AnyMap.maybe_insert_from_variant_map_as_double dbus_map from_key from_key m.
Proof.
  intros Hm. split; [|reflexivity].
  unfold double_field, AnyMap.maybe_insert_from_variant_map_as_double.
  destruct (dbus_map !! from_key) as [[s|d|b|n|n]|]; try reflexivity.
  simpl. eexists. split; [reflexivity|].
  split; [by apply insert_ordered|]. split.
  - destruct (AnyMap.find as_key m) as [w|] eqn:E; simpl.
    + by rewrite (insert_present as_key (any_double d) w m Hm E).
    + by apply find_insert_absent.
  - intros key Hne. by apply find_insert_other.
Qed.

Lemma maybe_insert_never_overwrites_witness :
  ordered (SignalBase.ctor LTE)
  ∧ exists m',
      AnyMap.maybe_insert_from_variant_map_as_double
        {[ "tech" := V_double 1%float ]} "tech" "tech" (SignalBase.ctor LTE) = Ok m'
      ∧ AnyMap.find "tech" m' = Some (any_Technology LTE).
Proof.
  split; [apply ctor_ordered|].
  destruct (maybe_insert_never_overwrites {[ "tech" := V_double 1%float ]}
              "tech" "tech" (SignalBase.ctor LTE) (ctor_ordered LTE)) as [H _].
  unfold double_field in H. rewrite lookup_singleton_eq in H.
  destruct H as (m' & Heq & _ & Hfind & _).
  exists m'. split; [exact Heq|exact Hfind].
Defined.

(** ** structs.h: signal records *)

Ltac destruct_double_field m key :=
  destruct (m !! key) as [[?|?|?|?|?]|]; try reflexivity.

Lemma SignalLTE_decoding (dbus_map : sdbus_variant_map) :
  match double_field dbus_map "rsrp", double_field dbus_map "rsrq",
        double_field dbus_map "rssi", double_field dbus_map "snr" with
  | inr rsrp, inr rsrq, inr rssi, inr snr =>
      exists sq,
        SignalLTE.from_variant_map dbus_map = Ok sq
        ∧ SignalBase.tech sq = Ok LTE
        ∧ SignalLTE.rsrp sq = reported rsrp
        ∧ SignalLTE.rsrq sq = reported rsrq
        ∧ SignalLTE.rssi sq = reported rssi
        ∧ SignalLTE.sinr sq = reported snr
        ∧ AnyMap.has_key "snr" sq = false
  | _, _, _, _ => SignalLTE.from_variant_map dbus_map = throw sdbus_Error
  end.
Proof.
  unfold double_field, SignalLTE.from_variant_map,
    AnyMap.maybe_insert_from_variant_map_double,
    AnyMap.maybe_insert_from_variant_map_as_double.
  destruct_double_field dbus_map "rsrp"; destruct_double_field dbus_map "rsrq";
    destruct_double_field dbus_map "rssi"; destruct_double_field dbus_map "snr";
    (eexists; split; [reflexivity|]; repeat split; reflexivity).
Qed.

Lemma SignalNR5G_decoding (dbus_map : sdbus_variant_map) :
  match double_field dbus_map "rsrp", double_field dbus_map "rsrq",
        double_field dbus_map "snr" with
  | inr rsrp, inr rsrq, inr snr =>
      exists sq,
        SignalNR5G.from_variant_map dbus_map = Ok sq
        ∧ SignalBase.tech sq = Ok NR5G
        ∧ SignalNR5G.rsrp sq = reported rsrp
        ∧ SignalNR5G.rsrq sq = reported rsrq
        ∧ SignalNR5G.sinr sq = reported snr
        ∧ AnyMap.has_key "snr" sq = false
        ∧ AnyMap.has_key "rssi" sq = false
  | _, _, _ => SignalNR5G.from_variant_map dbus_map = throw sdbus_Error
  end.
Proof.
  unfold double_field, SignalNR5G.from_variant_map,
    AnyMap.maybe_insert_from_variant_map_double,
    AnyMap.maybe_insert_from_variant_map_as_double.
  destruct_double_field dbus_map "rsrp"; destruct_double_field dbus_map "rsrq";
    destruct_double_field dbus_map "snr";
    (eexists; split; [reflexivity|]; repeat split; reflexivity).
Qed.

Lemma SignalLTE_tech (dbus_map : sdbus_variant_map) (sq : AnyMap.t) :
  SignalLTE.from_variant_map dbus_map = Ok sq -> SignalBase.tech sq = Ok LTE.
Proof.
  intros H. pose proof (SignalLTE_decoding dbus_map) as D.
  destruct (double_field dbus_map "rsrp"); [congruence|].
  destruct (double_field dbus_map "rsrq"); [congruence|].
  destruct (double_field dbus_map "rssi"); [congruence|].
  destruct (double_field dbus_map "snr"); [congruence|].
  destruct D as (sq' & Heq & Htech & _). congruence.
Qed.

Lemma SignalNR5G_tech (dbus_map : sdbus_variant_map) (sq : AnyMap.t) :
  SignalNR5G.from_variant_map dbus_map = Ok sq -> SignalBase.tech sq = Ok NR5G.
Proof.
  intros H. pose proof (SignalNR5G_decoding dbus_map) as D.
  destruct (double_field dbus_map "rsrp"); [congruence|].
  destruct (double_field dbus_map "rsrq"); [congruence|].
  destruct (double_field dbus_map "snr"); [congruence|].
  destruct D as (sq' & Heq & Htech & _). congruence.
Qed.

(** Signal decoding copies each reported double verbatim: [rsrp],
    [rsrq] and (LTE only) [rssi] under their own names, the raw [snr]
    under the name [sinr]; a field that is not reported is absent from
    the record, whose accessor then throws [std::out_of_range]; the
    technology tag is always there.  Decoding throws [sdbus::Error]
    exactly when one of the fields it reads is not a double.  The NR5G
    record never has an [rssi], whatever the raw map holds. *)
Theorem signal_decoding (dbus_map : sdbus_variant_map) :
  match double_field dbus_map "rsrp", double_field dbus_map "rsrq",
        double_field dbus_map "rssi", double_field dbus_map "snr" with
  | inr rsrp, inr rsrq, inr rssi, inr snr =>
      exists sq,
        SignalLTE.from_variant_map dbus_map = Ok sq
        ∧ SignalBase.tech sq = Ok LTE
        ∧ SignalLTE.rsrp sq = reported rsrp
        ∧ SignalLTE.rsrq sq = reported rsrq
        ∧ SignalLTE.rssi sq = reported rssi
        ∧ SignalLTE.sinr sq = reported snr
        ∧ AnyMap.has_key "snr" sq = false
  | _, _, _, _ => SignalLTE.from_variant_map dbus_map = throw sdbus_Error
  end
  ∧ match double_field dbus_map "rsrp", double_field dbus_map "rsrq",
          double_field dbus_map "snr" with
    | inr rsrp, inr rsrq, inr snr =>
        exists sq,
          SignalNR5G.from_variant_map dbus_map = Ok sq
          ∧ SignalBase.tech sq = Ok NR5G
          ∧ SignalNR5G.rsrp sq = reported rsrp
          ∧ SignalNR5G.rsrq sq = reported rsrq
          ∧ SignalNR5G.sinr sq = reported snr
          ∧ AnyMap.has_key "snr" sq = false
          ∧ AnyMap.has_key "rssi" sq = false
    | _, _, _ => SignalNR5G.from_variant_map dbus_map = throw sdbus_Error
    end.
Proof. split; [apply SignalLTE_decoding|apply SignalNR5G_decoding]. Qed.

(** ** modem.cpp: signal quality *)

(** [dbus_signal_to_Signal] never returns the null Signal: its handler
    for [std::out_of_range] cannot be reached.  It returns a record
    tagged with the technology it was asked for (LTE or NR5G), throws
    [sdbus::Error] for a raw value that is not a double, and throws the
    "not supported" [ModemException] for every other technology. *)
Theorem dbus_signal_to_Signal_never_null (tech : Technology) (signal : sdbus_variant_map) :
  match Modem.dbus_signal_to_Signal tech signal with
  | inr None => False
  | inr (Some sq) => (tech = LTE ∨ tech = NR5G) ∧ SignalBase.tech sq = Ok tech
  | inl e =>
      (e = sdbus_Error ∧ (tech = LTE ∨ tech = NR5G))
      ∨ (e = Modem.unsupported_signal ∧ tech ≠ LTE ∧ tech ≠ NR5G)
  end.
Proof.
  unfold Modem.dbus_signal_to_Signal, Modem.try_catch_out_of_range.
  destruct tech; simpl; try (right; repeat split; congruence).
  - destruct (SignalLTE.from_variant_map signal) as [e|sq] eqn:E; simpl.
    + apply SignalLTE_throw in E as ->. left. split; [reflexivity|by left].
    + split; [by left|]. by apply (SignalLTE_tech signal).
  - destruct (SignalNR5G.from_variant_map signal) as [e|sq] eqn:E; simpl.
    + apply SignalNR5G_throw in E as ->. left. split; [reflexivity|by right].
    + split; [by right|]. by apply (SignalNR5G_tech signal).
Qed.

Lemma technology_switch_LTE (mm_tech : Z) :
  Modem.technology_switch mm_tech = LTE -> mm_tech = MM.MM_MODEM_ACCESS_TECHNOLOGY_LTE.
Proof.
  unfold Modem.technology_switch.
  repeat match goal with
         | |- context [?a =? ?b] => destruct (Z.eqb_spec a b); simpl; try congruence
         end.
Qed.

Lemma technology_switch_NR5G (mm_tech : Z) :
  Modem.technology_switch mm_tech = NR5G -> mm_tech = MM.MM_MODEM_ACCESS_TECHNOLOGY_5GNR.
Proof.
  unfold Modem.technology_switch.
  repeat match goal with
         | |- context [?a =? ?b] => destruct (Z.eqb_spec a b); simpl; try congruence
         end.
Qed.

(** On a registered modem [signal()] asks the service for a refresh
    rate of 5 seconds exactly when the current rate is 0, before it
    looks at the technology: the [Setup] call is sent even when the
    technology is then found unsupported.  The result is the decoded
    [Lte] or [Nr5g] property.  A value is returned only if
    [AccessTechnologies] is exactly the LTE or exactly the 5GNR code;
    a mask of several technologies throws. *)
Theorem signal_refresh_then_dispatch (b : Modem.Bus) :
  Modem.ModemState.REGISTERED <= current_state b ->
  Modem.signal b =
    (match current_technology b with
     | LTE => Modem.dbus_signal_to_Signal LTE (Modem.prop_Signal_Lte (Modem.remote b))
     | NR5G => Modem.dbus_signal_to_Signal NR5G (Modem.prop_Signal_Nr5g (Modem.remote b))
     | _ => throw Modem.unsupported_signal
     end,
     {| Modem.remote := Modem.remote b;
        Modem.sent :=
          Modem.sent b
            ++ (if Modem.prop_Signal_Rate (Modem.remote b) =? 0
                then [Modem.Signal_Setup 5 true] else []) |})
  ∧ (forall sq,
       fst (Modem.signal b) = Ok sq ->
       Modem.prop_AccessTechnologies (Modem.remote b) = MM.MM_MODEM_ACCESS_TECHNOLOGY_LTE
       ∨ Modem.prop_AccessTechnologies (Modem.remote b) = MM.MM_MODEM_ACCESS_TECHNOLOGY_5GNR).
Proof.
  intros Hstate.
  assert (Hrun : Modem.signal b =
    (match current_technology b with
     | LTE => Modem.dbus_signal_to_Signal LTE (Modem.prop_Signal_Lte (Modem.remote b))
     | NR5G => Modem.dbus_signal_to_Signal NR5G (Modem.prop_Signal_Nr5g (Modem.remote b))
     | _ => throw Modem.unsupported_signal
     end,
     {| Modem.remote := Modem.remote b;
        Modem.sent :=
          Modem.sent b
            ++ (if Modem.prop_Signal_Rate (Modem.remote b) =? 0
                then [Modem.Signal_Setup 5 true] else []) |})).
  { unfold Modem.signal. rewrite bind_run, assert_state_run.
    destruct (Z.ltb_spec (current_state b) Modem.ModemState.REGISTERED); [lia|].
    destruct b as [r log]. unfold current_technology.
    cbv [mbind Modem.M_bind Modem.technology Modem.callMethod Modem.getProperty
         Modem.liftR Modem.throwM mret Modem.M_ret Modem.remote Modem.sent].
    destruct (Modem.prop_Signal_Rate r =? 0); rewrite ?app_nil_r;
      destruct (Modem.technology_switch (Modem.prop_AccessTechnologies r));
      reflexivity. }
  split; [exact Hrun|].
  intros sq. rewrite Hrun. simpl. unfold current_technology.
  destruct (Modem.technology_switch _) eqn:E; try discriminate; intros _.
  - left. by apply technology_switch_LTE.
  - right. by apply technology_switch_NR5G.
Qed.

Lemma signal_refresh_then_dispatch_witness :
  Modem.ModemState.REGISTERED
    <= current_state
         {| Modem.remote :=
              {| Modem.prop_State := 8;
                 Modem.prop_AccessTechnologies := 3 * 2 ^ 14;
                 Modem.prop_Signal_Rate := 0;
                 Modem.prop_Signal_Lte := ∅;
                 Modem.prop_Signal_Nr5g := ∅;
                 Modem.reply_GetLocation := ∅;
                 Modem.reply_GetNetworkTime := EmptyString |};
            Modem.sent := [] |}
  ∧ Modem.signal
      {| Modem.remote :=
           {| Modem.prop_State := 8;
              Modem.prop_AccessTechnologies := 3 * 2 ^ 14;
              Modem.prop_Signal_Rate := 0;
              Modem.prop_Signal_Lte := ∅;
              Modem.prop_Signal_Nr5g := ∅;
              Modem.reply_GetLocation := ∅;
              Modem.reply_GetNetworkTime := EmptyString |};
         Modem.sent := [] |}
    = (throw Modem.unsupported_signal,
       {| Modem.remote :=
            {| Modem.prop_State := 8;
               Modem.prop_AccessTechnologies := 3 * 2 ^ 14;
               Modem.prop_Signal_Rate := 0;
               Modem.prop_Signal_Lte := ∅;
               Modem.prop_Signal_Nr5g := ∅;
               Modem.reply_GetLocation := ∅;
               Modem.reply_GetNetworkTime := EmptyString |};
          Modem.sent := [Modem.Signal_Setup 5 true] |}).
Proof.
  split; [vm_compute; discriminate|].
  refine (proj1 (signal_refresh_then_dispatch _ _)).
  vm_compute. discriminate.
Defined.

(** ** structs.h: location records *)

Lemma LocationLTE_decoding (dbus_map : sdbus_variant_map) :
  match plmn_field dbus_map, hex_field dbus_map "ci", hex_field dbus_map "tac" with
  | inr plmn, inr ci, inr tac =>
      exists loc,
        LocationLTE.from_variant_map dbus_map = Ok loc
        ∧ LocationBase.tech loc = Ok LTE
        ∧ LocationBase.mcc loc = reported (fst <$> plmn)
        ∧ LocationBase.mnc loc = reported (snd <$> plmn)
        ∧ LocationBase.ci loc = reported (to_uint32 <$> ci)
        ∧ LocationLTE.tac loc = reported (to_uint32 <$> tac)
  | _, _, _ => is_throw (LocationLTE.from_variant_map dbus_map)
  end.
Proof.
  unfold plmn_field, hex_field, LocationLTE.from_variant_map,
    LocationLTE.fill_from_variant_map, LocationBase.fill_from_variant_map.
  destruct (dbus_map !! "operator-id") as [[plmn|?|?|?|?]|];
    cbn [mbind Result_bind rbind Variant_get_string fmap Result_fmap];
    try (eexists; reflexivity);
    [destruct (LocationBase.plmn_to_mcc_mnc plmn) as [?|[mcc mnc]];
     cbn [mbind Result_bind rbind fmap Result_fmap];
     [eexists; reflexivity|]|];
    (destruct (dbus_map !! "ci") as [[hex|?|?|?|?]|];
     cbn [mbind Result_bind rbind Variant_get_string fmap Result_fmap];
     try (eexists; reflexivity);
     [destruct (Cstd.stoul16 hex) as [?|ci];
      cbn [mbind Result_bind rbind fmap Result_fmap]; [eexists; reflexivity|]|]);
    (destruct (dbus_map !! "tac") as [[hex'|?|?|?|?]|];
     cbn [mbind Result_bind rbind Variant_get_string fmap Result_fmap];
     try (eexists; reflexivity);
     [destruct (Cstd.stoul16 hex') as [?|tac];
      cbn [mbind Result_bind rbind fmap Result_fmap]; [eexists; reflexivity|]|]);
    (eexists; split; [reflexivity|]; repeat split; reflexivity).
Qed.

Lemma insert_retag (key : string) (v : any) (m : AnyMap.t) :
  key ≠ "tech"%string ->
  AnyMap.insert key v (retag_NR5G m) = retag_NR5G (AnyMap.insert key v m).
Proof.
  intros Hne. unfold retag_NR5G.
  set (f := fun kv : string * any =>
              if String.eqb (fst kv) "tech" then (fst kv, any_Technology NR5G) else kv).
  assert (Hkv : f (key, v) = (key, v)).
  { unfold f. simpl. by destruct (String.eqb_spec key "tech"). }
  assert (Hf : forall k w, exists w', f (k, w) = (k, w')).
  { intros k w. unfold f. simpl. destruct (String.eqb k "tech"); eauto. }
  clearbody f.
  induction m as [|[k w] m IH]; simpl.
  - by rewrite Hkv.
  - destruct (Hf k w) as [w' E]. rewrite E. simpl.
    destruct (String.compare key k); simpl.
    + by rewrite E.
    + by rewrite Hkv, E.
    + by rewrite E, IH.
Qed.

Lemma find_retag (key : string) (m : AnyMap.t) :
  AnyMap.find key (retag_NR5G m) =
    if String.eqb key "tech"
    then (fun _ => any_Technology NR5G) <$> AnyMap.find key m
    else AnyMap.find key m.
Proof.
  induction m as [|[k w] m IH]; simpl.
  - by destruct (String.eqb key "tech").
  - destruct (String.eqb_spec k "tech") as [->|Hk]; simpl.
    + destruct (String.eqb_spec key "tech") as [->|Hkey]; simpl; [reflexivity|].
      rewrite IH. by destruct (String.eqb_spec key "tech").
    + destruct (String.eqb_spec key k) as [->|Hkey]; simpl.
      * by destruct (String.eqb_spec k "tech").
      * exact IH.
Qed.

Ltac split_raw_field :=
  match goal with
  | |- context [@lookup _ _ _ _ ?k ?m] => destruct (m !! k) as [[?|?|?|?|?]|]
  | |- context [LocationBase.plmn_to_mcc_mnc ?p] =>
      destruct (LocationBase.plmn_to_mcc_mnc p) as [?|[? ?]]
  | |- context [Cstd.stoul16 ?h] => destruct (Cstd.stoul16 h)
  end;
  cbn [mbind Result_bind rbind Variant_get_string Variant_get_uint32 Variant_get_bool
       Variant_get_double fmap Result_fmap];
  try reflexivity.

Lemma LocationLTE_fill_retag (dbus_map : sdbus_variant_map) (this : AnyMap.t) :
  LocationLTE.fill_from_variant_map dbus_map (retag_NR5G this)
  = retag_NR5G <$> LocationLTE.fill_from_variant_map dbus_map this.
Proof.
  unfold LocationLTE.fill_from_variant_map, LocationBase.fill_from_variant_map.
  repeat split_raw_field;
    rewrite ?insert_retag by discriminate; reflexivity.
Qed.

(** NR5G location decoding is LTE location decoding with another tag:
    for every raw map both throw the same exception or return records
    that differ in the value of [tech] only. *)
Theorem LocationNR5G_is_LTE_retagged (dbus_map : sdbus_variant_map) :
  LocationNR5G.from_variant_map dbus_map
    = retag_NR5G <$> LocationLTE.from_variant_map dbus_map
  ∧ (forall loc key,
       AnyMap.find key (retag_NR5G loc) =
         if String.eqb key "tech"
         then (fun _ => any_Technology NR5G) <$> AnyMap.find key loc
         else AnyMap.find key loc).
Proof.
  split; [|intros; apply find_retag].
  unfold LocationNR5G.from_variant_map, LocationLTE.from_variant_map, mbind, Result_bind.
  rewrite LocationNR5G_ctor_run. simpl.
  apply (LocationLTE_fill_retag dbus_map LocationLTE.ctor).
Qed.

(** ** Cell information records *)

Ltac split_cell_field :=
  match goal with
  | |- context [@lookup _ _ _ _ ?k ?m] => destruct (m !! k) as [[?|?|?|?|?]|]
  | |- context [LocationBase.plmn_to_mcc_mnc ?p] =>
      destruct (LocationBase.plmn_to_mcc_mnc p) as [?|[? ?]]
  | |- context [Cstd.stoul16 ?h] => destruct (Cstd.stoul16 h)
  end;
  cbn [mbind Result_bind rbind Variant_get_string Variant_get_uint32 Variant_get_bool
       Variant_get_double fmap Result_fmap option_fmap option_map];
  try (eexists; reflexivity).

Lemma CellInfoLTE_decoding (dbus_map : sdbus_variant_map) :
  match bool_field dbus_map "serving", uint32_field dbus_map "earfcn",
        hex_field dbus_map "physical-ci",
        SignalLTE.from_variant_map dbus_map, LocationLTE.from_variant_map dbus_map with
  | inr serving, inr earfcn, inr pci, inr sq, inr loc =>
      exists cell,
        CellInfoLTE.from_variant_map dbus_map = Ok (Some cell)
        ∧ CellInfoBase.tech cell = Ok LTE
        ∧ CellInfoBase.serving cell = Ok (default false serving)
        ∧ CellInfoLTE.earfcn cell = reported earfcn
        ∧ CellInfoLTE.pci cell = reported (to_uint16 <$> pci)
        ∧ CellInfoLTE.signal cell = Ok (Some sq)
        ∧ CellInfoLTE.location cell = Ok (Some loc)
        ∧ CellInfoBase.ci cell = LocationBase.ci loc
  | _, _, _, _, _ => is_throw (CellInfoLTE.from_variant_map dbus_map)
  end.
Proof.
  unfold CellInfoLTE.from_variant_map.
  destruct (SignalLTE.from_variant_map dbus_map) as [e|sq].
  all: unfold bool_field, uint32_field, hex_field, CellInfoBase.fill_from_variant_map,
    LocationLTE.from_variant_map, LocationLTE.fill_from_variant_map,
    LocationBase.fill_from_variant_map, AnyMap.maybe_insert_from_variant_map_bool,
    AnyMap.maybe_insert_from_variant_map_uint32.
  all: repeat split_cell_field.
  all: match goal with
       | |- is_throw _ => eexists; reflexivity
       | |- _ => eexists; split; [reflexivity|]; repeat split; reflexivity
       end.
Qed.

Lemma CellInfoNR5G_decoding (dbus_map : sdbus_variant_map) :
  match bool_field dbus_map "serving", uint32_field dbus_map "nrarfcn",
        hex_field dbus_map "physical-ci",
        SignalNR5G.from_variant_map dbus_map, LocationNR5G.from_variant_map dbus_map with
  | inr serving, inr nrarfcn, inr pci, inr sq, inr loc =>
      exists cell,
        CellInfoNR5G.from_variant_map dbus_map = Ok (Some cell)
        ∧ CellInfoBase.tech cell = Ok NR5G
        ∧ CellInfoBase.serving cell = Ok (default false serving)
        ∧ CellInfoNR5G.nrarfcn cell = reported nrarfcn
        ∧ CellInfoNR5G.pci cell = reported (to_uint16 <$> pci)
        ∧ CellInfoNR5G.signal cell = Ok (Some sq)
        ∧ CellInfoNR5G.location cell = Ok (Some loc)
        ∧ CellInfoBase.ci cell = LocationBase.ci loc
  | _, _, _, _, _ => is_throw (CellInfoNR5G.from_variant_map dbus_map)
  end.
Proof.
  unfold CellInfoNR5G.from_variant_map.
  destruct (SignalNR5G.from_variant_map dbus_map) as [e|sq].
  all: unfold bool_field, uint32_field, hex_field, CellInfoBase.fill_from_variant_map,
    LocationNR5G.from_variant_map, LocationLTE.fill_from_variant_map,
    LocationBase.fill_from_variant_map, AnyMap.maybe_insert_from_variant_map_bool,
    AnyMap.maybe_insert_from_variant_map_uint32.
  all: rewrite LocationNR5G_ctor_run.
  all: cbn [mbind Result_bind rbind].
  all: repeat split_cell_field.
  all: match goal with
       | |- is_throw _ => eexists; reflexivity
       | |- _ => eexists; split; [reflexivity|]; repeat split; reflexivity
       end.
Qed.

(** A cell information record is built exactly when the flag, the
    channel number, the physical cell id, the signal and the location
    of the raw entry all decode, and then it is never null: it carries
    its technology tag, [serving] (false when not reported), the
    channel number, the physical cell id cut to 16 bits, the non-null
    signal and location records decoded from the same entry, and the
    same cell identity as its location record.  Anything else throws. *)
Theorem cell_info_record_decoding (dbus_map : sdbus_variant_map) :
  match bool_field dbus_map "serving", uint32_field dbus_map "earfcn",
        hex_field dbus_map "physical-ci",
        SignalLTE.from_variant_map dbus_map, LocationLTE.from_variant_map dbus_map with
  | inr serving, inr earfcn, inr pci, inr sq, inr loc =>
      exists cell,
        CellInfoLTE.from_variant_map dbus_map = Ok (Some cell)
        ∧ CellInfoBase.tech cell = Ok LTE
        ∧ CellInfoBase.serving cell = Ok (default false serving)
        ∧ CellInfoLTE.earfcn cell = reported earfcn
        ∧ CellInfoLTE.pci cell = reported (to_uint16 <$> pci)
        ∧ CellInfoLTE.signal cell = Ok (Some sq)
        ∧ CellInfoLTE.location cell = Ok (Some loc)
        ∧ CellInfoBase.ci cell = LocationBase.ci loc
  | _, _, _, _, _ => is_throw (CellInfoLTE.from_variant_map dbus_map)
  end
  ∧
  match bool_field dbus_map "serving", uint32_field dbus_map "nrarfcn",
        hex_field dbus_map "physical-ci",
        SignalNR5G.from_variant_map dbus_map, LocationNR5G.from_variant_map dbus_map with
  | inr serving, inr nrarfcn, inr pci, inr sq, inr loc =>
      exists cell,
        CellInfoNR5G.from_variant_map dbus_map = Ok (Some cell)
        ∧ CellInfoBase.tech cell = Ok NR5G
        ∧ CellInfoBase.serving cell = Ok (default false serving)
        ∧ CellInfoNR5G.nrarfcn cell = reported nrarfcn
        ∧ CellInfoNR5G.pci cell = reported (to_uint16 <$> pci)
        ∧ CellInfoNR5G.signal cell = Ok (Some sq)
        ∧ CellInfoNR5G.location cell = Ok (Some loc)
        ∧ CellInfoBase.ci cell = LocationBase.ci loc
  | _, _, _, _, _ => is_throw (CellInfoNR5G.from_variant_map dbus_map)
  end.
Proof. split; [apply CellInfoLTE_decoding|apply CellInfoNR5G_decoding]. Qed.

(** ** The list of cells *)

Lemma CellInfoLTE_never_null (dbus_map : sdbus_variant_map) (c : CellInfo) :
  CellInfoLTE.from_variant_map dbus_map = Ok c -> is_Some c.
Proof.
  intros H. pose proof (CellInfoLTE_decoding dbus_map) as D.
  destruct (bool_field dbus_map "serving"), (uint32_field dbus_map "earfcn"),
    (hex_field dbus_map "physical-ci"), (SignalLTE.from_variant_map dbus_map),
    (LocationLTE.from_variant_map dbus_map);
    try (destruct D as [? D]; congruence).
  destruct D as [cell [D _]]. rewrite D in H. inversion H. by eexists.
Qed.

Lemma CellInfoNR5G_never_null (dbus_map : sdbus_variant_map) (c : CellInfo) :
  CellInfoNR5G.from_variant_map dbus_map = Ok c -> is_Some c.
Proof.
  intros H. pose proof (CellInfoNR5G_decoding dbus_map) as D.
  destruct (bool_field dbus_map "serving"), (uint32_field dbus_map "nrarfcn"),
    (hex_field dbus_map "physical-ci"), (SignalNR5G.from_variant_map dbus_map),
    (LocationNR5G.from_variant_map dbus_map);
    try (destruct D as [? D]; congruence).
  destruct D as [cell [D _]]. rewrite D in H. inversion H. by eexists.
Qed.

Lemma cell_info_entry_records (infos : list CellInfo) (res : sdbus_variant_map) :
  CellInfoList.cell_info_entry infos res = (fun r => infos ++ r) <$> entry_records res.
Proof.
  unfold CellInfoList.cell_info_entry, entry_records.
  destruct (res !! "cell-type") as [[?|?|?|n|?]|];
    cbn [mbind Result_bind rbind Variant_get_uint32 fmap Result_fmap]; try reflexivity.
  destruct (Z.eqb_spec n CellInfoList.MM_CELL_TYPE_LTE) as [->|Hlte].
  - destruct (CellInfoLTE.from_variant_map res); reflexivity.
  - cbn [rbind]. destruct (n =? CellInfoList.MM_CELL_TYPE_5GNR).
    + destruct (CellInfoNR5G.from_variant_map res); reflexivity.
    + cbn [fmap Result_fmap]. by rewrite app_nil_r.
Qed.

Lemma entry_records_shape (res : sdbus_variant_map) (r : list CellInfo) :
  entry_records res = Ok r -> Forall is_Some r ∧ (length r <= 1)%nat.
Proof.
  unfold entry_records.
  destruct (res !! "cell-type") as [[?|?|?|n|?]|]; try discriminate.
  destruct (n =? CellInfoList.MM_CELL_TYPE_LTE).
  - destruct (CellInfoLTE.from_variant_map res) as [?|c] eqn:E; [discriminate|].
    intros [= <-]. split; [|simpl; lia].
    constructor; [by eapply CellInfoLTE_never_null|constructor].
  - destruct (n =? CellInfoList.MM_CELL_TYPE_5GNR).
    + destruct (CellInfoNR5G.from_variant_map res) as [?|c] eqn:E; [discriminate|].
      intros [= <-]. split; [|simpl; lia].
      constructor; [by eapply CellInfoNR5G_never_null|constructor].
    + intros [= <-]. split; [constructor|simpl; lia].
Qed.

Lemma cell_info_from_records (result : list sdbus_variant_map) :
  forall acc infos,
    CellInfoList.cell_info_from acc result = Ok infos
    <-> exists recs,
          Forall2 (fun res r => entry_records res = Ok r) result recs
          ∧ infos = acc ++ concat recs.
Proof.
  induction result as [|res rest IH]; intros acc infos; simpl.
  - split.
    + intros [= <-]. exists []. split; [constructor|]. by rewrite app_nil_r.
    + intros [recs [H ->]]. inversion H; subst. simpl. by rewrite app_nil_r.
  - rewrite cell_info_entry_records. unfold mbind, Result_bind.
    destruct (entry_records res) as [e|r] eqn:E; simpl.
    + split; [discriminate|].
      intros [recs [H _]]. inversion H; subst. congruence.
    + rewrite IH. split.
      * intros [recs [H ->]]. exists (r :: recs). split; [by constructor|].
        simpl. by rewrite app_assoc.
      * intros [recs [H ->]]. inversion H as [|? r' ? recs' Hr Hrest]; subst.
        assert (r' = r) by congruence. subst r'.
        exists recs'. split; [done|]. simpl. by rewrite app_assoc.
Qed.

Lemma cell_info_from_throws (result : list sdbus_variant_map) :
  Exists (fun res => is_throw (entry_records res)) result ->
  forall acc, is_throw (CellInfoList.cell_info_from acc result).
Proof.
  induction result as [|res rest IH]; intros H acc; [by inversion H|].
  simpl. rewrite cell_info_entry_records. unfold mbind, Result_bind.
  destruct (entry_records res) as [e|r] eqn:E; simpl.
  - by eexists.
  - inversion H as [? ? [e He]|]; subst; [congruence|]. by apply IH.
Qed.

Lemma concat_records_shape (result : list sdbus_variant_map) (recs : list (list CellInfo)) :
  Forall2 (fun res r => entry_records res = Ok r) result recs ->
  Forall is_Some (concat recs) ∧ (length (concat recs) <= length result)%nat.
Proof.
  induction 1 as [|res r rest recs Hr _ [IH1 IH2]]; simpl.
  - split; [constructor|lia].
  - destruct (entry_records_shape _ _ Hr) as [S1 S2]. split.
    + by apply Forall_app.
    + rewrite length_app. lia.
Qed.

(** [cell_info()] turns the reply of [GetCellInfo] into the records of
    its LTE and 5GNR entries, in the order of the reply; entries of
    another cell type are left out.  No returned pointer is null, and
    there are at most as many records as entries.  The list is all or
    nothing: one entry without [cell-type], or one whose record does
    not decode, makes the whole call throw. *)
Theorem cell_info_by_entry (result : list sdbus_variant_map) :
  (forall infos,
     CellInfoList.cell_info result = Ok infos
     <-> exists recs,
           Forall2 (fun res r => entry_records res = Ok r) result recs
           ∧ infos = concat recs)
  ∧ (forall infos,
       CellInfoList.cell_info result = Ok infos ->
       Forall is_Some infos ∧ (length infos <= length result)%nat)
  ∧ (Exists (fun res => is_throw (entry_records res)) result ->
     is_throw (CellInfoList.cell_info result))
  ∧ (forall res, res !! "cell-type" = None ->
     entry_records res = throw std_out_of_range)
  ∧ (forall res n, res !! "cell-type" = Some (V_uint32 n) ->
     n <> CellInfoList.MM_CELL_TYPE_LTE -> n <> CellInfoList.MM_CELL_TYPE_5GNR ->
     entry_records res = Ok []).
Proof.
  unfold CellInfoList.cell_info. repeat split.
  - intros H. by apply cell_info_from_records in H.
  - intros H. by apply (cell_info_from_records result []).
  - apply (cell_info_from_records result []) in H as [recs [H ->]].
    by apply (concat_records_shape result).
  - apply (cell_info_from_records result []) in H as [recs [H ->]].
    by apply (concat_records_shape result).
  - intros H. by apply cell_info_from_throws.
  - intros res H. unfold entry_records. by rewrite H.
  - intros res n H H5 H6. unfold entry_records. rewrite H.
    destruct (Z.eqb_spec n CellInfoList.MM_CELL_TYPE_LTE); [done|].
    by destruct (Z.eqb_spec n CellInfoList.MM_CELL_TYPE_5GNR).
Qed.

(** ** IP configuration of a bearer *)

Lemma read_ip_config_Some (type : Z) (result : sdbus_variant_map) (c : Connection.IPConfig) :
  Connection.read_ip_config type result = Ok (Some c)
  <-> ip_fields result c ∧ Connection.ip_type c = type.
Proof.
  unfold Connection.read_ip_config, Connection.at_, ip_fields.
  destruct c as [t a p g d1 d2]. simpl.
  destruct (result !! "address") as [[?|?|?|?|?]|];
    cbn [mbind Result_bind rbind Variant_get_string Variant_get_uint32
         Modem.try_catch_out_of_range];
    try (split; [discriminate|intros [(?&?&?&?&?) ?]; discriminate]).
  destruct (result !! "prefix") as [[?|?|?|?|?]|];
    cbn [mbind Result_bind rbind Variant_get_string Variant_get_uint32
         Modem.try_catch_out_of_range];
    try (split; [discriminate|intros [(?&?&?&?&?) ?]; discriminate]).
  destruct (result !! "gateway") as [[?|?|?|?|?]|];
    cbn [mbind Result_bind rbind Variant_get_string Variant_get_uint32
         Modem.try_catch_out_of_range];
    try (split; [discriminate|intros [(?&?&?&?&?) ?]; discriminate]).
  destruct (result !! "dns1") as [[?|?|?|?|?]|];
    cbn [mbind Result_bind rbind Variant_get_string Variant_get_uint32
         Modem.try_catch_out_of_range];
    try (split; [discriminate|intros [(?&?&?&?&?) ?]; discriminate]).
  destruct (result !! "dns2") as [[?|?|?|?|?]|];
    cbn [mbind Result_bind rbind Variant_get_string Variant_get_uint32
         Modem.try_catch_out_of_range];
    try (split; [discriminate|intros [(?&?&?&?&?) ?]; discriminate]).
  split.
  - intros [= <- <- <- <- <- <-]. done.
  - intros [(?&?&?&?&?) ?]. congruence.
Qed.

(** ** The registry of modems *)

Section Registry_facts.
Import ModemManagerOMProxy.
Context (svc : Service).

Lemma onInterfacesAdded_not_awaiting (path : ObjectPath) (this : t) :
  awaited_modem_ this = None ->
  onInterfacesAdded svc path this =
    Ok {| modems_ := modems_ this ++ [Modem_ctor path];
          awaited_modem_ := None;
          shared_states := shared_states this |}.
Proof. intros H. unfold onInterfacesAdded. rewrite H. simpl. by rewrite H. Qed.

Lemma handleExisting_not_awaiting (paths : list ObjectPath) :
  forall this,
    awaited_modem_ this = None ->
    handleExisting svc paths this =
      Ok {| modems_ := modems_ this ++ map Modem_ctor paths;
            awaited_modem_ := None;
            shared_states := shared_states this |}.
Proof.
  induction paths as [|path rest IH]; intros this H; simpl.
  - rewrite app_nil_r. destruct this; simpl in *. by subst.
  - rewrite onInterfacesAdded_not_awaiting by done. simpl.
    rewrite IH by done. simpl. by rewrite <- app_assoc.
Qed.

Lemma onInterfacesAdded_imei_throws (path : ObjectPath) (this : t) (e : exception)
    (target : string) (p : nat) :
  svc path = throw e ->
  awaited_modem_ this = Some (target, p) ->
  onInterfacesAdded svc path this = throw e.
Proof.
  intros Hsvc H. unfold onInterfacesAdded. rewrite H.
  change (Modem_imei svc (Modem_ctor path)) with (svc path). by rewrite Hsvc.
Qed.

End Registry_facts.

(** The constructor records every object the service manages, in the
    order of the reply, and awaits nothing; it reads no IMEI, so it
    does so whatever the modems answer.  [any_modem] is then the first
    of them and [available_modems] all of them. *)
Theorem registry_ctor_records_all
    (svc : ModemManagerOMProxy.Service) (paths : list ModemManagerOMProxy.ObjectPath) :
  ModemManagerOMProxy.ctor svc paths = Ok (registry_of paths)
  ∧ ModemManager.available_modems (registry_of paths)
    = map ModemManagerOMProxy.Modem_ctor paths
  ∧ ModemManager.any_modem (registry_of paths)
    = ModemManagerOMProxy.Modem_ctor <$> head paths
  ∧ (ModemManager.modems_available (registry_of paths) = true <-> paths = []).
Proof.
  split; [|split; [|split]].
  - unfold ModemManagerOMProxy.ctor.
    by rewrite handleExisting_not_awaiting.
  - reflexivity.
  - by destruct paths.
  - by destruct paths.
Qed.

(** A modem whose IMEI cannot be read is recorded only when nobody is
    waiting: with a future pending, [onInterfacesAdded] leaves through
    the exception of [imei()] before [push_back], so the modem is not
    in the list and the future stays pending; with none pending the
    IMEI is not read and the modem is appended. *)
Theorem unreadable_imei_loses_modem
    (svc : ModemManagerOMProxy.Service) (path : ModemManagerOMProxy.ObjectPath)
    (this : ModemManagerOMProxy.t) (e : exception) :
  svc path = throw e ->
  match ModemManagerOMProxy.awaited_modem_ this with
  | Some _ => ModemManagerOMProxy.onInterfacesAdded svc path this = throw e
  | None =>
      ModemManagerOMProxy.onInterfacesAdded svc path this =
        Ok {| ModemManagerOMProxy.modems_ :=
                ModemManagerOMProxy.modems_ this ++ [ModemManagerOMProxy.Modem_ctor path];
              ModemManagerOMProxy.awaited_modem_ := None;
              ModemManagerOMProxy.shared_states := ModemManagerOMProxy.shared_states this |}
  end.
Proof.
  intros Hsvc.
  destruct (ModemManagerOMProxy.awaited_modem_ this) as [[target p]|] eqn:H.
  - by eapply onInterfacesAdded_imei_throws.
  - by apply onInterfacesAdded_not_awaiting.
Qed.

Lemma unreadable_imei_loses_modem_witness :
  one_modem_service modem1_path = throw sdbus_Error
  ∧ ModemManagerOMProxy.onInterfacesAdded one_modem_service modem1_path awaiting_any
    = throw sdbus_Error
  ∧ ModemManagerOMProxy.onInterfacesAdded one_modem_service modem1_path
      ModemManagerOMProxy.empty
    = Ok (registry_of [modem1_path]).
Proof.
  split; [reflexivity|]. split.
  - exact (unreadable_imei_loses_modem one_modem_service modem1_path awaiting_any
             sdbus_Error eq_refl).
  - exact (unreadable_imei_loses_modem one_modem_service modem1_path
             ModemManagerOMProxy.empty sdbus_Error eq_refl).
Defined.

Section Registry_after_removal.
Import ModemManagerOMProxy.
Context (objectPath : ObjectPath).

Lemma leftover_moved_from (rest junk : list Modem) :
  moved_from ∈ junk ∨ Exists (fun y => is_path objectPath y = false) rest ->
  moved_from ∈ leftover objectPath junk rest.
Proof.
  revert junk. induction rest as [|m rest IH]; intros junk H; simpl.
  - destruct H as [H|H]; [done|by inversion H].
  - destruct (is_path objectPath m) eqn:E.
    + apply IH. destruct H as [H|H].
      * left. apply elem_of_app. by left.
      * inversion H; subst; [congruence|by right].
    + apply IH. left. apply elem_of_app. right. by apply list_elem_of_singleton.
Qed.

Lemma trailing_moved_from (pre rest : list Modem) (x : Modem) :
  is_path objectPath x = true ->
  Exists (fun y => is_path objectPath y = false) rest ->
  moved_from ∈ trailing objectPath (pre ++ x :: rest).
Proof.
  intros Hx Hy. induction pre as [|a pre IH]; simpl.
  - rewrite Hx. apply leftover_moved_from. by right.
  - destruct (is_path objectPath a); [|exact IH].
    apply leftover_moved_from. right.
    apply Exists_app. right. by apply Exists_cons_tl.
Qed.

Lemma find_if_dead (v : list Modem) (j : nat) :
  v !! j = Some moved_from ->
  find_if (same_path objectPath) v = None
  ∨ exists k, find_if (same_path objectPath) v = Some k ∧ (k < j)%nat.
Proof.
  revert j. induction v as [|m v IH]; intros j H; [done|].
  simpl. destruct j as [|j]; simpl in H.
  - simplify_eq/=. by left.
  - destruct (same_path objectPath m) as [[]|]; simpl; [right|..|by left].
    + exists 0%nat. split; [done|lia].
    + destruct (IH j H) as [->|[k [-> Hk]]]; [by left|right].
      exists (S k). split; [done|lia].
Qed.

Lemma remove_if_loop_dead (n : nat) :
  forall (v : list Modem) (result i j : nat),
    (result < i)%nat -> (i <= j)%nat -> (length v - i <= n)%nat ->
    v !! j = Some moved_from ->
    remove_if_loop (same_path objectPath) n v result i = None.
Proof.
  induction n as [|n IH]; intros v result i j Hr Hij Hn Hj.
  - apply lookup_lt_Some in Hj. lia.
  - simpl. destruct (v !! i) as [m|] eqn:Hi.
    2:{ apply lookup_lt_Some in Hj. apply lookup_ge_None in Hi. lia. }
    destruct (decide (i = j)) as [->|Hne].
    + rewrite Hj in Hi. injection Hi as <-. reflexivity.
    + destruct (same_path objectPath m) as [[]|]; simpl; [..|done].
      * apply (IH v result (S i) j); [lia|lia|lia|done].
      * apply (IH _ (S result) (S i) j); [lia|lia| |].
        -- rewrite !length_insert. lia.
        -- rewrite !list_lookup_insert_ne by lia. done.
Qed.

Lemma remove_if_dead (v : list Modem) :
  moved_from ∈ v -> remove_if (same_path objectPath) v = None.
Proof.
  intros H. apply list_elem_of_lookup in H as [j Hj].
  unfold remove_if.
  destruct (find_if_dead v j Hj) as [->|[k [-> Hk]]]; [done|]. simpl.
  pose proof (lookup_lt_Some _ _ _ Hj).
  destruct (decide (k = length v)); [lia|].
  apply (remove_if_loop_dead _ _ _ _ j); [lia|lia|lia|done].
Qed.

Lemma remove_if_loop_length (n : nat) :
  forall (v v' : list Modem) (result i r : nat),
    remove_if_loop (same_path objectPath) n v result i = Some (v', r) ->
    length v' = length v.
Proof.
  induction n as [|n IH]; intros v v' result i r; simpl.
  - by intros [= <- _].
  - destruct (v !! i) as [m|]; [|by intros [= <- _]].
    destruct (same_path objectPath m) as [[]|]; simpl; [..|done].
    + apply IH.
    + intros H. apply IH in H. by rewrite !length_insert in H.
Qed.

Lemma remove_if_length (v v' : list Modem) (r : nat) :
  remove_if (same_path objectPath) v = Some (v', r) -> length v' = length v.
Proof.
  unfold remove_if. destruct (find_if (same_path objectPath) v) as [k|]; [|done].
  simpl. destruct (decide (k = length v)); [by intros [= <- _]|].
  apply remove_if_loop_length.
Qed.

End Registry_after_removal.

(** After the removal of a modem that is not the last of the list
    (a modem with another path follows it), the list has its old
    length and holds a moved-from modem, and the next removal
    notification, for whatever path, dereferences its null proxy:
    undefined behaviour. *)
Theorem removal_breaks_later_removals
    (objectPath other : ModemManagerOMProxy.ObjectPath) (this : ModemManagerOMProxy.t)
    (pre rest : list ModemManagerOMProxy.Modem) (x : ModemManagerOMProxy.Modem) :
  Forall live (ModemManagerOMProxy.modems_ this) ->
  ModemManagerOMProxy.modems_ this = pre ++ x :: rest ->
  is_path objectPath x = true ->
  Exists (fun y => is_path objectPath y = false) rest ->
  exists this',
    ModemManagerOMProxy.onInterfacesRemoved objectPath this = Some this'
    ∧ length (ModemManagerOMProxy.modems_ this')
      = length (ModemManagerOMProxy.modems_ this)
    ∧ ModemManagerOMProxy.moved_from ∈ ModemManagerOMProxy.modems_ this'
    ∧ ModemManagerOMProxy.onInterfacesRemoved other this' = None.
Proof.
  intros Hlive Hv Hx Hy.
  unfold ModemManagerOMProxy.onInterfacesRemoved at 1.
  rewrite (remove_if_live objectPath _ Hlive). simpl.
  eexists. split; [reflexivity|]. simpl.
  assert (Hin : ModemManagerOMProxy.moved_from
                ∈ kept objectPath (ModemManagerOMProxy.modems_ this)
                  ++ trailing objectPath (ModemManagerOMProxy.modems_ this)).
  { apply elem_of_app. right. rewrite Hv. by apply trailing_moved_from. }
  split; [|split; [exact Hin|]].
  - rewrite length_app. apply trailing_length.
  - unfold ModemManagerOMProxy.onInterfacesRemoved. simpl.
    by rewrite (remove_if_dead other _ Hin).
Qed.

Lemma removal_breaks_later_removals_witness :
  exists this',
    ModemManagerOMProxy.onInterfacesRemoved modem0_path
      (registry_of [modem0_path; modem1_path]) = Some this'
    ∧ length (ModemManagerOMProxy.modems_ this') = 2%nat
    ∧ ModemManagerOMProxy.moved_from ∈ ModemManagerOMProxy.modems_ this'
    ∧ ModemManagerOMProxy.onInterfacesRemoved modem1_path this' = None.
Proof.
  apply (removal_breaks_later_removals modem0_path modem1_path
           (registry_of [modem0_path; modem1_path])
           [] [ModemManagerOMProxy.Modem_ctor modem1_path]
           (ModemManagerOMProxy.Modem_ctor modem0_path)).
  - repeat constructor; discriminate.
  - reflexivity.
  - reflexivity.
  - constructor. reflexivity.
Defined.

Section Registry_steps.
Import ModemManagerOMProxy.
Context (svc : Service).

Lemma satisfy_keeps_resolved (p : nat) (st0 : shared_state) (h h' : list shared_state)
    (q : nat) (st : shared_state) :
  satisfy p st0 h = Ok h' -> h !! q = Some st -> st ≠ pending -> h' !! q = Some st.
Proof.
  intros H Hq Hst. apply satisfy_Ok in H as [Hp ->].
  rewrite list_lookup_insert_ne; [done|]. congruence.
Qed.

Lemma step_monotone (this this' : t) :
  step svc this this' ->
  (length (modems_ this) <= length (modems_ this'))%nat
  ∧ (forall q st, resolved this q st -> resolved this' q st).
Proof.
  destruct 1 as [imei this fut this' H|path this this' H|path this this' H].
  - unfold await_modem in H.
    destruct (awaited_modem_ this) as [[target p]|];
      cbn [mbind Result_bind rbind] in H.
    + destruct (satisfy p (has_exception cancelled) (shared_states this)) as [|h] eqn:E;
        [discriminate|].
      injection H as <- <-. simpl. split; [lia|].
      intros q st [Hq Hst]. split; [|done]. simpl.
      apply lookup_app_l_Some. by eapply satisfy_keeps_resolved.
    + injection H as <- <-. simpl. split; [lia|].
      intros q st [Hq Hst]. split; [|done]. simpl. by apply lookup_app_l_Some.
  - unfold onInterfacesAdded in H.
    destruct (awaited_modem_ this) as [[target p]|] eqn:Ha;
      cbn [mbind Result_bind rbind] in H.
    + destruct (Modem_imei svc (Modem_ctor path)) as [|new_imei]; [discriminate|].
      simpl in H.
      destruct (String.eqb target ANY_IMEI || String.eqb target new_imei).
      * destruct (satisfy p (has_value (Modem_ctor path)) (shared_states this))
          as [|h] eqn:E; [simpl in H; discriminate|].
        simpl in H; rewrite ?Ha in H; simpl in H; injection H as <-. simpl. split; [rewrite length_app; lia|].
        intros q st [Hq Hst]. split; [|done]. simpl.
        by eapply satisfy_keeps_resolved.
      * simpl in H; rewrite ?Ha in H; simpl in H; injection H as <-. simpl. split; [rewrite length_app; lia|done].
    + simpl in H; rewrite ?Ha in H; simpl in H; injection H as <-. simpl. split; [rewrite length_app; lia|done].
  - unfold onInterfacesRemoved in H.
    destruct (remove_if (same_path path) (modems_ this)) as [[v r]|] eqn:E;
      [|discriminate].
    injection H as <-. simpl. split; [|done].
    apply remove_if_length in E. lia.
Qed.

Lemma steps_monotone (this this' : t) :
  rtc (step svc) this this' ->
  (length (modems_ this) <= length (modems_ this'))%nat
  ∧ (forall q st, resolved this q st -> resolved this' q st).
Proof.
  induction 1 as [|this mid this' H _ [IH1 IH2]]; [split; [lia|done]|].
  destruct (step_monotone _ _ H) as [H1 H2]. split; [lia|].
  intros q st Hq. by apply IH2, H2.
Qed.

End Registry_steps.

(** Over any sequence of awaits, additions and removals the list of
    modems never gets shorter, and a future that holds a modem or an
    exception holds it for good.  So once a modem has been seen, the
    list stays non-empty, and [modems_available()], which returns
    [empty()], stays false. *)
Theorem registry_never_shrinks
    (svc : ModemManagerOMProxy.Service) (this this' : ModemManagerOMProxy.t) :
  rtc (step svc) this this' ->
  (length (ModemManagerOMProxy.modems_ this)
   <= length (ModemManagerOMProxy.modems_ this'))%nat
  ∧ (forall q st, resolved this q st -> resolved this' q st)
  ∧ (ModemManager.modems_available this = false ->
     ModemManager.modems_available this' = false
     ∧ is_Some (ModemManager.any_modem this')).
Proof.
  intros H. destruct (steps_monotone svc _ _ H) as [H1 H2].
  split; [done|]. split; [done|].
  unfold ModemManager.modems_available, ModemManager.any_modem,
    ModemManagerOMProxy.getModems in *.
  destruct (ModemManagerOMProxy.modems_ this); [discriminate|].
  destruct (ModemManagerOMProxy.modems_ this'); [simpl in H1; lia|].
  intros _. split; [done|by eexists].
Qed.

Lemma registry_never_shrinks_witness :
  rtc (step one_modem_service) (registry_of [modem0_path; modem1_path])
    {| ModemManagerOMProxy.modems_ :=
         [ModemManagerOMProxy.Modem_ctor modem1_path; ModemManagerOMProxy.moved_from];
       ModemManagerOMProxy.awaited_modem_ := None;
       ModemManagerOMProxy.shared_states := [] |}
  ∧ ModemManager.modems_available
      {| ModemManagerOMProxy.modems_ :=
           [ModemManagerOMProxy.Modem_ctor modem1_path; ModemManagerOMProxy.moved_from];
         ModemManagerOMProxy.awaited_modem_ := None;
         ModemManagerOMProxy.shared_states := [] |} = false.
Proof.
  assert (H : rtc (step one_modem_service) (registry_of [modem0_path; modem1_path])
    {| ModemManagerOMProxy.modems_ :=
         [ModemManagerOMProxy.Modem_ctor modem1_path; ModemManagerOMProxy.moved_from];
       ModemManagerOMProxy.awaited_modem_ := None;
       ModemManagerOMProxy.shared_states := [] |}).
  { eapply rtc_l; [|apply rtc_refl].
    apply (step_removed _ modem0_path). vm_compute. reflexivity. }
  split; [exact H|].
  apply (registry_never_shrinks one_modem_service _ _ H). reflexivity.
Defined.

(** ** Location strings *)

Section Location_strings.
Import Cstd.

Lemma hex_char (c : ascii) :
  is_hex c = true ->
  isspace c = false ∧ Ascii.eqb c "-" = false ∧ Ascii.eqb c "+" = false
  ∧ is_x c = false ∧ Ascii.eqb c Ascii.zero = false
  ∧ exists d, hex_digit_value c = Some d ∧ 0 <= d <= 15.
Proof.
  destruct c as [[] [] [] [] [] [] [] []]; vm_compute; intros H;
    try discriminate H; repeat split; eexists; (split; [reflexivity|split; discriminate]).
Qed.

Lemma digit_char (c : ascii) :
  isdigit c = true -> Ascii.eqb c Ascii.zero = false.
Proof.
  destruct c as [[] [] [] [] [] [] [] []]; vm_compute; intros H;
    try discriminate H; reflexivity.
Qed.

Lemma append_cons (c : ascii) (a b : string) : String c a +:+ b = String c (a +:+ b).
Proof. reflexivity. Qed.

Lemma scan_digits_field (d r : string) :
  all_chars isdigit d = true ->
  forall w, (String.length d <= w)%nat ->
    scan_digits w (d +:+ String "," r) = (d, String "," r).
Proof.
  induction d as [|c d IH]; intros Hd w Hw.
  - by destruct w.
  - simpl in Hd. apply andb_true_iff in Hd as [Hc Hd].
    destruct w as [|w]; [simpl in Hw; lia|].
    rewrite append_cons. cbn [scan_digits]. rewrite Hc.
    rewrite (IH Hd w); [done|]. simpl in Hw. lia.
Qed.

Lemma step_digits_field (d r : string) :
  decimal_text d ->
  step (conv_digits 3) (d +:+ String "," r) = matched (String "," r) true [arg_chars d].
Proof.
  intros [Hd Hlen]. unfold step.
  rewrite (scan_digits_field d r Hd 3) by lia.
  destruct d; [simpl in Hlen; lia|]. reflexivity.
Qed.

Lemma hex_digits_stop (rest : string) (acc : Z) (n : nat) :
  field_end rest -> hex_digits rest acc n = (acc, n, rest).
Proof. by intros [->|[r ->]]. Qed.

Lemma hex_digits_field (h rest : string) :
  all_chars is_hex h = true -> field_end rest ->
  forall acc n,
    hex_digits (h +:+ rest) acc n
    = (fst (fst (hex_digits h acc n)), (n + String.length h)%nat, rest).
Proof.
  intros Hh Hrest. induction h as [|c h IH]; intros acc n.
  - simpl. rewrite hex_digits_stop by done. f_equal. f_equal. lia.
  - simpl in Hh. apply andb_true_iff in Hh as [Hc Hh].
    destruct (hex_char c Hc) as (_ & _ & _ & _ & _ & d & Hd & _).
    rewrite append_cons. cbn [hex_digits]. rewrite Hd.
    rewrite (IH Hh). f_equal. f_equal. simpl. lia.
Qed.

Lemma hex_digits_bound (h : string) :
  all_chars is_hex h = true ->
  forall acc n, 0 <= acc ->
    acc <= fst (fst (hex_digits h acc n)) < (acc + 1) * 16 ^ Z.of_nat (String.length h).
Proof.
  induction h as [|c h IH]; intros Hh acc n Hacc.
  - simpl. lia.
  - simpl in Hh. apply andb_true_iff in Hh as [Hc Hh].
    destruct (hex_char c Hc) as (_ & _ & _ & _ & _ & d & Hd & Hd15).
    cbn [hex_digits String.length]. rewrite Hd.
    specialize (IH Hh (16 * acc + d) (S n) ltac:(lia)).
    rewrite Nat2Z.inj_succ, Z.pow_succ_r by lia.
    assert (0 < 16 ^ Z.of_nat (String.length h)) by (apply Z.pow_pos_nonneg; lia).
    nia.
Qed.

Lemma scan_hex_field (h rest : string) :
  hex_text h -> field_end rest ->
  scan_hex (h +:+ rest) = matched rest true [arg_unsigned (scanned h)].
Proof.
  intros [Hh Hlen] Hrest.
  destruct h as [|c h]; [simpl in Hlen; lia|].
  pose proof Hh as Hh'. simpl in Hh'. apply andb_true_iff in Hh' as [Hc Hh'].
  destruct (hex_char c Hc) as (Hsp & Hm & Hp & Hx & _ & _).
  assert (Hprefix :
    match h +:+ rest with
    | String c1 s2 => if Ascii.eqb c "0" && is_x c1 then Some s2 else None
    | EmptyString => None
    end = None).
  { destruct h as [|c1 h].
    - destruct Hrest as [->|[r ->]]; simpl; [done|].
      by rewrite andb_false_r.
    - simpl in Hh'. apply andb_true_iff in Hh' as [Hc1 _].
      destruct (hex_char c1 Hc1) as (_ & _ & _ & Hx1 & _ & _).
      rewrite append_cons. rewrite Hx1. by rewrite andb_false_r. }
  unfold scan_hex. rewrite append_cons. cbn [skip_space]. rewrite Hsp.
  cbn [take_sign]. rewrite Hm, Hp.
  rewrite <- append_cons.
  assert (E : hex_digits (String c h +:+ rest) 0 0
              = (hex_value (String c h), S (String.length h), rest)).
  { rewrite (hex_digits_field (String c h) rest Hh Hrest). reflexivity. }
  rewrite append_cons in *.
  destruct (h +:+ rest) as [|c1 s2] eqn:Eh.
  - rewrite E. reflexivity.
  - rewrite Hprefix, E. reflexivity.
Qed.

Lemma step_hex_field (suppress : bool) (h rest : string) :
  hex_text h -> field_end rest ->
  step (conv_hex suppress) (h +:+ rest)
  = matched rest true (if suppress then [] else [arg_unsigned (scanned h)]).
Proof. intros Hh Hrest. unfold step. by rewrite scan_hex_field. Qed.

Lemma c_str_append (a b : string) :
  all_chars (fun c => negb (Ascii.eqb c Ascii.zero)) a = true ->
  c_str (a +:+ b) = a +:+ c_str b.
Proof.
  induction a as [|c a IH]; intros Ha; [done|].
  simpl in Ha. apply andb_true_iff in Ha as [Hc Ha].
  rewrite !append_cons. cbn [c_str].
  apply negb_true_iff in Hc. rewrite Hc. by rewrite IH.
Qed.

Lemma all_chars_impl (p q : ascii -> bool) (s : string) :
  (forall c, p c = true -> q c = true) ->
  all_chars p s = true -> all_chars q s = true.
Proof.
  intros Hpq. induction s as [|c s IH]; [done|]. simpl.
  rewrite !andb_true_iff. intros [Hc Hs]. split; [by apply Hpq|by apply IH].
Qed.

Lemma c_str_digits (a b : string) :
  all_chars isdigit a = true -> c_str (a +:+ b) = a +:+ c_str b.
Proof.
  intros Ha. apply c_str_append. revert Ha. apply all_chars_impl.
  intros c Hc. by rewrite (digit_char c Hc).
Qed.

Lemma c_str_hex (a b : string) :
  all_chars is_hex a = true -> c_str (a +:+ b) = a +:+ c_str b.
Proof.
  intros Ha. apply c_str_append. revert Ha. apply all_chars_impl.
  intros c Hc. destruct (hex_char c Hc) as (_ & _ & _ & _ & Hz & _). by rewrite Hz.
Qed.

Lemma c_str_location_string (mcc mnc lac ci tac : string) :
  decimal_text mcc -> decimal_text mnc -> hex_text lac -> hex_text ci -> hex_text tac ->
  c_str (location_string mcc mnc lac ci tac) = location_string mcc mnc lac ci tac.
Proof.
  intros [H1 _] [H2 _] [H3 _] [H4 _] [H5 _]. unfold location_string.
  rewrite (c_str_digits mcc) by done. cbn [c_str Ascii.eqb Bool.eqb].
  rewrite (c_str_digits mnc) by done. cbn [c_str Ascii.eqb Bool.eqb].
  rewrite (c_str_hex lac) by done. cbn [c_str Ascii.eqb Bool.eqb].
  rewrite (c_str_hex ci) by done. cbn [c_str Ascii.eqb Bool.eqb].
  rewrite <- (append_nil_r tac) at 1.
  rewrite (c_str_hex tac) by done. simpl. by rewrite append_nil_r.
Qed.

Lemma location_directives :
  parse_format (String.length Modem.location_format) Modem.location_format
  = [conv_digits 3; literal ","; conv_digits 3; literal ","; conv_hex true;
     literal ","; conv_hex false; literal ","; conv_hex false].
Proof. vm_compute. reflexivity. Qed.

Lemma sscanf_location_string (mcc mnc lac ci tac : string) :
  decimal_text mcc -> decimal_text mnc -> hex_text lac -> hex_text ci -> hex_text tac ->
  sscanf (location_string mcc mnc lac ci tac) Modem.location_format
  = (4, [arg_chars mcc; arg_chars mnc; arg_unsigned (scanned ci); arg_unsigned (scanned tac)]).
Proof.
  intros H1 H2 H3 H4 H5. unfold sscanf. rewrite location_directives.
  unfold location_string.
  assert (Hcomma : forall r, field_end (String "," r)) by (intros r; right; by eexists).
  assert (Hlit : forall r, step (literal ",") (String "," r) = matched r false [])
    by reflexivity.
  cbn [run]. rewrite step_digits_field by done.
  cbn [run]. rewrite Hlit.
  cbn [run]. rewrite step_digits_field by done.
  cbn [run]. rewrite Hlit.
  cbn [run]. rewrite (step_hex_field true lac) by done.
  cbn [run]. rewrite Hlit.
  cbn [run]. rewrite (step_hex_field false ci) by done.
  cbn [run]. rewrite Hlit.
  cbn [run]. rewrite <- (append_nil_r tac) at 1.
  rewrite (step_hex_field false tac) by (done || by left).
  reflexivity.
Qed.

Lemma scanned_fits (h : string) :
  hex_text h -> (String.length h <= 8)%nat -> scanned h = hex_value h.
Proof.
  intros [Hh _] Hlen. unfold scanned, hex_value.
  pose proof (hex_digits_bound h Hh 0 0%nat ltac:(lia)) as [Hlo Hhi].
  assert (16 ^ Z.of_nat (String.length h) <= 16 ^ 8)
    by (apply Z.pow_le_mono_r; lia).
  set (v := fst (fst (hex_digits h 0 0))) in *.
  unfold strtoul_value, ULONG_MAX.
  destruct (Z.ltb_spec (2 ^ 64 - 1) v); [lia|]. simpl fst.
  apply Z.mod_small. lia.
Qed.

End Location_strings.

(** A location string [MCC,MNC,LAC,CI,TAC] of one to three decimal
    digits for MCC and MNC and of hexadecimal digits for the rest is
    always accepted: [sscanf] assigns four items and the Location of an
    LTE modem holds MCC and MNC as written and the values of CI and
    TAC; the LAC is read and dropped.  Fields of up to eight digits
    are stored in full. *)
Theorem location_string_accepted (mcc mnc lac ci tac : string) :
  decimal_text mcc -> decimal_text mnc -> hex_text lac -> hex_text ci -> hex_text tac ->
  exists loc,
    Modem.parse_location (location_string mcc mnc lac ci tac) LocationLTE.ctor = Some loc
    ∧ LocationBase.tech loc = Ok LTE
    ∧ LocationBase.mcc loc = Ok mcc
    ∧ LocationBase.mnc loc = Ok mnc
    ∧ LocationBase.ci loc = Ok (scanned ci)
    ∧ LocationLTE.tac loc = Ok (scanned tac)
    ∧ ((String.length ci <= 8)%nat -> scanned ci = hex_value ci)
    ∧ ((String.length tac <= 8)%nat -> scanned tac = hex_value tac).
Proof.
  intros H1 H2 H3 H4 H5. unfold Modem.parse_location.
  rewrite c_str_location_string by done.
  rewrite sscanf_location_string by done.
  eexists. split; [reflexivity|].
  repeat split; try reflexivity; by apply scanned_fits.
Qed.

Lemma location_string_accepted_witness :
  exists loc,
    Modem.parse_location "262,01,1A2B,0000A1B2,00112233" LocationLTE.ctor = Some loc
    ∧ LocationBase.tech loc = Ok LTE
    ∧ LocationBase.mcc loc = Ok "262"%string
    ∧ LocationBase.mnc loc = Ok "01"%string
    ∧ LocationBase.ci loc = Ok (scanned "0000A1B2")
    ∧ LocationLTE.tac loc = Ok (scanned "00112233")
    ∧ ((String.length "0000A1B2" <= 8)%nat -> scanned "0000A1B2" = hex_value "0000A1B2")
    ∧ ((String.length "00112233" <= 8)%nat -> scanned "00112233" = hex_value "00112233").
Proof.
  apply (location_string_accepted "262" "01" "1A2B" "0000A1B2" "00112233");
    (split; [reflexivity|simpl; lia]).
Defined.

Section Location_of_a_modem.
Import Modem.

Lemma location_run (b : Bus) :
  ModemState.REGISTERED <= current_state b ->
  location b =
    dbus_location_to_Location (reply_GetLocation (remote b))
      {| remote := remote b; sent := sent b ++ [GetLocation] |}.
Proof.
  intros Hstate. unfold location. rewrite bind_run, assert_state_run.
  destruct (Z.ltb_spec (current_state b) ModemState.REGISTERED); [lia|].
  destruct b as [r log]. reflexivity.
Qed.

End Location_of_a_modem.

(** On a registered LTE modem whose service answers [GetLocation] with
    a well-formed location string, [location()] sends that one call
    and returns a record with the MCC and MNC of the string and the
    values of its CI and TAC. *)
Theorem location_of_registered_LTE_modem
    (b : Modem.Bus) (dict : gmap Z Variant) (mcc mnc lac ci tac : string) :
  Modem.ModemState.REGISTERED <= current_state b ->
  current_technology b = LTE ->
  Modem.reply_GetLocation (Modem.remote b)
    = lac_ci_reply (location_string mcc mnc lac ci tac) dict ->
  decimal_text mcc -> decimal_text mnc -> hex_text lac -> hex_text ci -> hex_text tac ->
  exists loc,
    Modem.location b
      = (Ok (Some loc),
         {| Modem.remote := Modem.remote b;
            Modem.sent := Modem.sent b ++ [Modem.GetLocation] |})
    ∧ LocationBase.tech loc = Ok LTE
    ∧ LocationBase.mcc loc = Ok mcc
    ∧ LocationBase.mnc loc = Ok mnc
    ∧ LocationBase.ci loc = Ok (scanned ci)
    ∧ LocationLTE.tac loc = Ok (scanned tac).
Proof.
  intros Hstate Htech Hreply H1 H2 H3 H4 H5.
  rewrite location_run by done. rewrite Hreply.
  rewrite dbus_location_to_Location_run.
  change (current_technology _) with (current_technology b). rewrite Htech.
  unfold Modem.parse_location.
  rewrite c_str_location_string by done.
  rewrite sscanf_location_string by done.
  eexists. split; [reflexivity|]. repeat split; reflexivity.
Qed.

Lemma location_of_registered_LTE_modem_witness :
  exists loc,
    Modem.location
      {| Modem.remote :=
           {| Modem.prop_State := 8;
              Modem.prop_AccessTechnologies := MM.MM_MODEM_ACCESS_TECHNOLOGY_LTE;
              Modem.prop_Signal_Rate := 0;
              Modem.prop_Signal_Lte := ∅;
              Modem.prop_Signal_Nr5g := ∅;
              Modem.reply_GetLocation :=
                lac_ci_reply (location_string "262" "01" "1A2B" "0000A1B2" "00112233") ∅;
              Modem.reply_GetNetworkTime := EmptyString |};
         Modem.sent := [] |}
      = (Ok (Some loc),
         {| Modem.remote :=
              {| Modem.prop_State := 8;
                 Modem.prop_AccessTechnologies := MM.MM_MODEM_ACCESS_TECHNOLOGY_LTE;
                 Modem.prop_Signal_Rate := 0;
                 Modem.prop_Signal_Lte := ∅;
                 Modem.prop_Signal_Nr5g := ∅;
                 Modem.reply_GetLocation :=
                   lac_ci_reply (location_string "262" "01" "1A2B" "0000A1B2" "00112233") ∅;
                 Modem.reply_GetNetworkTime := EmptyString |};
            Modem.sent := [] ++ [Modem.GetLocation] |})
    ∧ LocationBase.tech loc = Ok LTE
    ∧ LocationBase.mcc loc = Ok "262"%string
    ∧ LocationBase.mnc loc = Ok "01"%string
    ∧ LocationBase.ci loc = Ok (scanned "0000A1B2")
    ∧ LocationLTE.tac loc = Ok (scanned "00112233").
Proof.
  apply (location_of_registered_LTE_modem
           {| Modem.remote :=
                {| Modem.prop_State := 8;
                   Modem.prop_AccessTechnologies := MM.MM_MODEM_ACCESS_TECHNOLOGY_LTE;
                   Modem.prop_Signal_Rate := 0;
                   Modem.prop_Signal_Lte := ∅;
                   Modem.prop_Signal_Nr5g := ∅;
                   Modem.reply_GetLocation :=
                     lac_ci_reply (location_string "262" "01" "1A2B" "0000A1B2" "00112233") ∅;
                   Modem.reply_GetNetworkTime := EmptyString |};
              Modem.sent := [] |} ∅ "262" "01" "1A2B" "0000A1B2" "00112233");
    try reflexivity; try (split; [reflexivity|simpl; lia]).
Defined.

Section Decoders_agree.
Import Cstd.

Lemma stoul16_hex_text (h : string) :
  hex_text h -> (String.length h <= 16)%nat -> stoul16 h = Ok (hex_value h).
Proof.
  intros [Hh Hlen] Hlen16.
  assert (E : hex_digits h 0 0 = (hex_value h, String.length h, EmptyString)).
  { pose proof (hex_digits_field h EmptyString Hh (or_introl eq_refl) 0 0%nat) as E.
    by rewrite append_nil_r in E. }
  pose proof (hex_digits_bound h Hh 0 0%nat ltac:(lia)) as [Hlo Hhi].
  fold (hex_value h) in Hlo, Hhi.
  assert (16 ^ Z.of_nat (String.length h) <= 16 ^ 16)
    by (apply Z.pow_le_mono_r; lia).
  destruct h as [|c h]; [simpl in Hlen; lia|].
  pose proof Hh as Hh'. simpl in Hh'. apply andb_true_iff in Hh' as [Hc Hh'].
  destruct (hex_char c Hc) as (Hsp & Hm & Hp & Hx & _ & _).
  unfold stoul16, hex_subject. cbn [skip_space]. rewrite Hsp.
  cbn [take_sign]. rewrite Hm, Hp.
  assert (Hplain :
    match hex_digits (String c h) 0 0 with
    | (v, S _, rest) => number false v rest
    | (_, O, _) => no_conversion
    end = number false (hex_value (String c h)) EmptyString)
    by (rewrite E; reflexivity).
  assert (Hval : strtoul_value false (hex_value (String c h))
                 = (hex_value (String c h), false)).
  { unfold strtoul_value, ULONG_MAX.
    destruct (Z.ltb_spec (2 ^ 64 - 1) (hex_value (String c h))); [lia|reflexivity]. }
  destruct h as [|c1 h].
  - rewrite Hplain, Hval. reflexivity.
  - simpl in Hh'. apply andb_true_iff in Hh' as [Hc1 _].
    destruct (hex_char c1 Hc1) as (_ & _ & _ & Hx1 & _ & _).
    rewrite Hx1, andb_false_r. rewrite Hplain, Hval. reflexivity.
Qed.

Lemma plmn_of_mcc_mnc (mcc mnc : string) :
  String.length mcc = 3%nat ->
  LocationBase.plmn_to_mcc_mnc (mcc +:+ mnc) = Ok (mcc, mnc).
Proof.
  intros Hlen.
  destruct mcc as [|a [|b [|c [|d mcc]]]]; try discriminate Hlen.
  unfold LocationBase.plmn_to_mcc_mnc, LocationBase.substr.
  rewrite !append_cons. change (EmptyString +:+ mnc) with mnc.
  cbn [String.length Nat.ltb Nat.leb mbind Result_bind rbind default Nat.sub
       String.substring].
  rewrite Nat.sub_0_r, substring_all. unfold id.
  by destruct mnc.
Qed.

Lemma scanned_mod (h : string) :
  hex_text h -> (String.length h <= 16)%nat -> scanned h = hex_value h mod 2 ^ 32.
Proof.
  intros [Hh _] Hlen. unfold scanned.
  pose proof (hex_digits_bound h Hh 0 0%nat ltac:(lia)) as [Hlo Hhi].
  fold (hex_value h) in Hlo, Hhi.
  assert (16 ^ Z.of_nat (String.length h) <= 16 ^ 16)
    by (apply Z.pow_le_mono_r; lia).
  unfold strtoul_value, ULONG_MAX.
  destruct (Z.ltb_spec (2 ^ 64 - 1) (hex_value h)); [lia|reflexivity].
Qed.

End Decoders_agree.

(** The two sources of a location agree.  For a three-digit MCC and
    fields of at most sixteen hexadecimal digits, the record decoded
    from the location string [MCC,MNC,LAC,CI,TAC] is the record
    decoded from a cell's raw map with [operator-id] MCC followed by
    MNC and the same [ci] and [tac]. *)
Theorem location_decoders_agree (mcc mnc lac ci tac : string) :
  decimal_text mcc -> String.length mcc = 3%nat -> decimal_text mnc ->
  hex_text lac -> hex_text ci -> hex_text tac ->
  (String.length ci <= 16)%nat -> (String.length tac <= 16)%nat ->
  Some <$> LocationLTE.from_variant_map (location_map mcc mnc ci tac)
  = Ok (Modem.parse_location (location_string mcc mnc lac ci tac) LocationLTE.ctor).
Proof.
  intros H1 Hlen H2 H3 H4 H5 Hci Htac.
  unfold Modem.parse_location.
  rewrite c_str_location_string by done.
  rewrite sscanf_location_string by done.
  unfold LocationLTE.from_variant_map, LocationLTE.fill_from_variant_map,
    LocationBase.fill_from_variant_map, location_map.
  assert (L1 : ({[ "operator-id" := V_string (mcc +:+ mnc); "ci" := V_string ci;
                   "tac" := V_string tac ]} : sdbus_variant_map) !! "operator-id"
               = Some (V_string (mcc +:+ mnc))) by by simplify_map_eq.
  assert (L2 : ({[ "operator-id" := V_string (mcc +:+ mnc); "ci" := V_string ci;
                   "tac" := V_string tac ]} : sdbus_variant_map) !! "ci"
               = Some (V_string ci)) by by simplify_map_eq.
  assert (L3 : ({[ "operator-id" := V_string (mcc +:+ mnc); "ci" := V_string ci;
                   "tac" := V_string tac ]} : sdbus_variant_map) !! "tac"
               = Some (V_string tac)) by by simplify_map_eq.
  rewrite L1, L2, L3.
  cbn [mbind Result_bind rbind Variant_get_string].
  rewrite plmn_of_mcc_mnc by done.
  cbn [mbind Result_bind rbind Variant_get_string].
  rewrite (stoul16_hex_text ci) by done.
  cbn [mbind Result_bind rbind Variant_get_string].
  rewrite (stoul16_hex_text tac) by done.
  cbn [mbind Result_bind rbind Variant_get_string fmap Result_fmap].
  rewrite (scanned_mod ci), (scanned_mod tac) by done.
  reflexivity.
Qed.

Lemma location_decoders_agree_witness :
  Some <$> LocationLTE.from_variant_map (location_map "262" "01" "0000A1B2" "00112233")
  = Ok (Modem.parse_location
          (location_string "262" "01" "1A2B" "0000A1B2" "00112233") LocationLTE.ctor).
Proof.
  apply (location_decoders_agree "262" "01" "1A2B" "0000A1B2" "00112233");
    try reflexivity; try (split; [reflexivity|simpl; lia]); simpl; lia.
Defined.

Section Access_technologies.

Lemma technology_switch_known (mm_tech : Z) :
  Modem.technology_switch mm_tech ≠ UNKNOWN <-> mm_tech ∈ known_access_technologies.
Proof.
  unfold Modem.technology_switch, known_access_technologies. split.
  - repeat match goal with
           | |- context [?a =? ?b] =>
               destruct (Z.eqb_spec a b); [subst; intros _; set_solver|]; simpl
           end.
    congruence.
  - intros H. repeat (apply elem_of_cons in H as [->|H]; [by vm_compute|]).
    by apply elem_of_nil in H.
Qed.

Lemma technology_switch_two_bits :
  Forall (fun a => Forall (fun b => a = b ∨ Modem.technology_switch (Z.lor a b) = UNKNOWN)
                     known_access_technologies)
    known_access_technologies.
Proof.
  apply (bool_decide_unpack _). by vm_compute.
Qed.

End Access_technologies.

(** [technology()] knows a technology only when [AccessTechnologies]
    is exactly one of the eleven codes of its [switch].
    ModemManager's value is a bit mask: as soon as two of the codes
    are set together (LTE with 5GNR on a non-standalone 5G link) the
    result is UNKNOWN. *)
Theorem technology_needs_single_code (mm_tech : Z) :
  (Modem.technology_switch mm_tech ≠ UNKNOWN <-> mm_tech ∈ known_access_technologies)
  ∧ (forall a b,
       a ∈ known_access_technologies -> b ∈ known_access_technologies -> a ≠ b ->
       Modem.technology_switch (Z.lor a b) = UNKNOWN)
  ∧ (forall b, Modem.technology b = (Ok (current_technology b), b)).
Proof.
  split; [apply technology_switch_known|]. split; [|intros; apply technology_run].
  intros a b Ha Hb Hne.
  pose proof technology_switch_two_bits as H.
  rewrite Forall_forall in H. specialize (H a Ha).
  rewrite Forall_forall in H. destruct (H b Hb); [done|assumption].
Qed.

(** ** IP configuration: the first field that is not as expected decides *)

Lemma read_ip_config_first_problem (type : Z) (result : sdbus_variant_map) :
  match first_problem result with
  | field_ok =>
      exists c,
        Connection.read_ip_config type result = Ok (Some c)
        ∧ ip_fields result c ∧ Connection.ip_type c = type
  | field_missing => Connection.read_ip_config type result = Ok None
  | field_ill_typed => Connection.read_ip_config type result = throw sdbus_Error
  end.
Proof.
  unfold first_problem, ip_keys, ip_fields, Connection.read_ip_config, Connection.at_.
  cbn [first_problem_in]. unfold ip_field_status.
  destruct (result !! "address") as [[?|?|?|?|?]|]; try reflexivity.
  destruct (result !! "prefix") as [[?|?|?|?|?]|]; try reflexivity.
  destruct (result !! "gateway") as [[?|?|?|?|?]|]; try reflexivity.
  destruct (result !! "dns1") as [[?|?|?|?|?]|]; try reflexivity.
  destruct (result !! "dns2") as [[?|?|?|?|?]|]; try reflexivity.
  eexists. split; [reflexivity|]. simpl. repeat split; reflexivity.
Qed.

(** [get_ip_config] reads [address], [prefix], [gateway], [dns1] and
    [dns2] in this order, and the first of them that is missing or of
    another type decides: a missing one gives the empty optional
    (whatever the fields behind it hold, and hiding the ones before
    it), one of another type lets [sdbus::Error] through.  Only when
    all five are as expected is there a configuration, and it holds
    exactly the reported values and the requested type.
    [std::out_of_range] never leaves the function.  A bearer without
    [dns2] has no configuration; one whose [prefix] is a string and
    that has no [dns2] throws.  [ipv4_config] reads [Ip4Config],
    [ipv6_config] reads [Ip6Config]; any other type runs into
    [__builtin_unreachable()]. *)
Theorem ip_config_all_or_nothing (b : Connection.Bearer) (type : Z) :
  Connection.ipv4_config b
    = Some (Connection.read_ip_config Connection.IPType.IPV4 (Connection.prop_Ip4Config b))
  ∧ Connection.ipv6_config b
    = Some (Connection.read_ip_config Connection.IPType.IPV6 (Connection.prop_Ip6Config b))
  ∧ (Connection.get_ip_config type b = None
     <-> type <> Connection.IPType.IPV4 ∧ type <> Connection.IPType.IPV6)
  ∧ (forall result,
       match first_problem result with
       | field_ok =>
           exists c,
             Connection.read_ip_config type result = Ok (Some c)
             ∧ ip_fields result c ∧ Connection.ip_type c = type
       | field_missing => Connection.read_ip_config type result = Ok None
       | field_ill_typed => Connection.read_ip_config type result = throw sdbus_Error
       end)
  ∧ (forall result c,
       Connection.read_ip_config type result = Ok (Some c)
       <-> ip_fields result c ∧ Connection.ip_type c = type)
  ∧ (forall result, Connection.read_ip_config type result ≠ throw std_out_of_range)
  ∧ Connection.read_ip_config type
      {[ "address" := V_string "10.0.0.2"; "prefix" := V_uint32 24;
         "gateway" := V_string "10.0.0.1"; "dns1" := V_string "10.0.0.1" ]} = Ok None
  ∧ Connection.read_ip_config type
      {[ "address" := V_string "10.0.0.2"; "prefix" := V_string "24";
         "gateway" := V_string "10.0.0.1"; "dns1" := V_string "10.0.0.1" ]}
    = throw sdbus_Error
  ∧ Connection.read_ip_config type
      {[ "prefix" := V_string "24"; "gateway" := V_string "10.0.0.1";
         "dns1" := V_string "10.0.0.1"; "dns2" := V_string "10.0.0.3" ]} = Ok None.
Proof.
  split; [reflexivity|]. split; [reflexivity|].
  split; [|split; [|split; [|split; [|split; [|split]]]]].
  - unfold Connection.get_ip_config.
    destruct (Z.eqb_spec type Connection.IPType.IPV4);
      [split; [discriminate|tauto]|].
    destruct (Z.eqb_spec type Connection.IPType.IPV6);
      [split; [discriminate|tauto]|].
    tauto.
  - intros. apply read_ip_config_first_problem.
  - intros. apply read_ip_config_Some.
  - intros result H.
    pose proof (read_ip_config_first_problem type result) as P.
    destruct (first_problem result); [destruct P as (c & P & _)|..]; congruence.
  - vm_compute. reflexivity.
  - vm_compute. reflexivity.
  - vm_compute. reflexivity.
Qed.

(** ** Location fields of a raw map *)

Lemma stoul16_exceptions (s : string) (e : exception) :
  Cstd.stoul16 s = throw e -> e = std_invalid_argument ∨ e = std_out_of_range.
Proof.
  unfold Cstd.stoul16. destruct (Cstd.hex_subject s) as [|neg mag rest].
  - intros [= <-]. by left.
  - destruct (Cstd.strtoul_value neg mag) as [v []]; [|discriminate].
    intros [= <-]. by right.
Qed.

Lemma hex_field_throws (dbus_map : sdbus_variant_map) (key : string) (e : exception) :
  hex_field dbus_map key = throw e
  <-> (exists v, dbus_map !! key = Some v ∧ (forall s, v ≠ V_string s) ∧ e = sdbus_Error)
      ∨ (exists s, dbus_map !! key = Some (V_string s) ∧ Cstd.stoul16 s = throw e).
Proof.
  unfold hex_field.
  destruct (dbus_map !! key) as [[s|d|b|n|n]|]; simpl.
  - destruct (Cstd.stoul16 s) as [e'|v] eqn:E; simpl; split.
    + intros [= <-]. right. by exists s.
    + intros [(v & [= <-] & Hv & _)|(s' & [= <-] & H)]; [by destruct (Hv s)|congruence].
    + discriminate.
    + intros [(v' & [= <-] & Hv & _)|(s' & [= <-] & H)]; [by destruct (Hv s)|congruence].
  - split; [intros [= <-]; left; eexists; by repeat split
           |intros [(v & _ & _ & ->)|(s & H & _)]; [done|discriminate]].
  - split; [intros [= <-]; left; eexists; by repeat split
           |intros [(v & _ & _ & ->)|(s & H & _)]; [done|discriminate]].
  - split; [intros [= <-]; left; eexists; by repeat split
           |intros [(v & _ & _ & ->)|(s & H & _)]; [done|discriminate]].
  - split; [intros [= <-]; left; eexists; by repeat split
           |intros [(v & _ & _ & ->)|(s & H & _)]; [done|discriminate]].
  - split; [discriminate|intros [(v & H & _)|(s & H & _)]; discriminate].
Qed.

Lemma plmn_field_throws (dbus_map : sdbus_variant_map) (e : exception) :
  plmn_field dbus_map = throw e
  <-> (exists v, dbus_map !! "operator-id" = Some v
                 ∧ (forall s, v ≠ V_string s) ∧ e = sdbus_Error)
      ∨ (exists s, dbus_map !! "operator-id" = Some (V_string s)
                   ∧ (String.length s < 3)%nat ∧ e = std_out_of_range).
Proof.
  unfold plmn_field.
  destruct (dbus_map !! "operator-id") as [[s|d|b|n|n]|]; simpl.
  - pose proof (plmn_split s) as P.
    destruct (Nat.ltb_spec (String.length s) 3) as [Hlt|Hge].
    + rewrite P. simpl. split.
      * intros [= <-]. right. by exists s.
      * intros [(v & [= <-] & Hv & _)|(s' & [= <-] & _ & ->)]; [by destruct (Hv s)|done].
    + destruct P as (mcc & mnc & -> & _). simpl. split; [discriminate|].
      intros [(v & [= <-] & Hv & _)|(s' & [= <-] & Hlt & _)]; [by destruct (Hv s)|lia].
  - split; [intros [= <-]; left; eexists; by repeat split
           |intros [(v & _ & _ & ->)|(s & H & _)]; [done|discriminate]].
  - split; [intros [= <-]; left; eexists; by repeat split
           |intros [(v & _ & _ & ->)|(s & H & _)]; [done|discriminate]].
  - split; [intros [= <-]; left; eexists; by repeat split
           |intros [(v & _ & _ & ->)|(s & H & _)]; [done|discriminate]].
  - split; [intros [= <-]; left; eexists; by repeat split
           |intros [(v & _ & _ & ->)|(s & H & _)]; [done|discriminate]].
  - split; [discriminate|intros [(v & H & _)|(s & H & _)]; discriminate].
Qed.

(** Location decoding from a raw map.  [mcc] and [mnc] are the first
    three characters and the rest of [operator-id]; [ci] and [tac] are
    what [std::stoul(_, nullptr, 16)] returns for the raw strings, cast
    to [uint32_t], that is modulo 2^32; a field that is not reported is
    absent.  Decoding throws exactly when one of the three fields is
    there and is not a string ([sdbus::Error]), when [operator-id] has
    fewer than three characters ([std::out_of_range]), or when
    [std::stoul] throws on [ci] or [tac], which it does with
    [std::invalid_argument] or [std::out_of_range] only.  [std::stoul]
    converts a run of one to sixteen hexadecimal digits to its value,
    and it stops at the first character it cannot use: ["12zz"] is
    converted to 0x12 without an error, ["zz"] throws
    [std::invalid_argument], and a value of seventeen digits throws
    [std::out_of_range]. *)
Theorem location_fields_decoding (dbus_map : sdbus_variant_map) :
  match plmn_field dbus_map, hex_field dbus_map "ci", hex_field dbus_map "tac" with
  | inr plmn, inr ci, inr tac =>
      exists loc,
        LocationLTE.from_variant_map dbus_map = Ok loc
        ∧ LocationBase.tech loc = Ok LTE
        ∧ LocationBase.mcc loc = reported (fst <$> plmn)
        ∧ LocationBase.mnc loc = reported (snd <$> plmn)
        ∧ LocationBase.ci loc = reported (to_uint32 <$> ci)
        ∧ LocationLTE.tac loc = reported (to_uint32 <$> tac)
  | _, _, _ => is_throw (LocationLTE.from_variant_map dbus_map)
  end
  ∧ (forall e,
       plmn_field dbus_map = throw e
       <-> (exists v, dbus_map !! "operator-id" = Some v
                      ∧ (forall s, v ≠ V_string s) ∧ e = sdbus_Error)
           ∨ (exists s, dbus_map !! "operator-id" = Some (V_string s)
                        ∧ (String.length s < 3)%nat ∧ e = std_out_of_range))
  ∧ (forall key e,
       hex_field dbus_map key = throw e
       <-> (exists v, dbus_map !! key = Some v
                      ∧ (forall s, v ≠ V_string s) ∧ e = sdbus_Error)
           ∨ (exists s, dbus_map !! key = Some (V_string s) ∧ Cstd.stoul16 s = throw e))
  ∧ (forall s e,
       Cstd.stoul16 s = throw e -> e = std_invalid_argument ∨ e = std_out_of_range)
  ∧ (forall h,
       hex_text h -> (String.length h <= 16)%nat -> Cstd.stoul16 h = Ok (hex_value h))
  ∧ (forall n, to_uint32 n = n mod 2 ^ 32 ∧ 0 <= to_uint32 n < 2 ^ 32)
  ∧ LocationBase.ci <$> LocationLTE.from_variant_map {[ "ci" := V_string "12zz" ]}
    = Ok (Ok 0x12)
  ∧ LocationBase.ci <$> LocationLTE.from_variant_map {[ "ci" := V_string "1000000A1B2" ]}
    = Ok (Ok 0xA1B2)
  ∧ LocationLTE.from_variant_map {[ "ci" := V_string "zz" ]} = throw std_invalid_argument
  ∧ LocationLTE.from_variant_map {[ "ci" := V_string "10000000000000000" ]}
    = throw std_out_of_range.
Proof.
  split; [apply LocationLTE_decoding|].
  split; [intros; apply plmn_field_throws|].
  split; [intros; apply hex_field_throws|].
  split; [intros s e; apply stoul16_exceptions|].
  split; [intros; by apply stoul16_hex_text|].
  split.
  { intros n. split; [reflexivity|]. unfold to_uint32. apply Z.mod_pos_bound. lia. }
  repeat split; vm_compute; reflexivity.
Qed.
